(** * NodeLab execution engine: a shallow embedding and its properties

    The development follows the TypeScript sources:
    - the graph store [useStore] ([updateNodeData], [addNode], [setNodes],
      [setEdges], [onConnect]) at the end of [src/App.tsx],
    - the input resolver [getIncomingData] and the node handlers of
      [executeNode] in [src/App.tsx],
    - the payload builders [prepareVeoPayload] and [comflyVideo], and
      [uploadToImgBB] and [grsaiVideo], of [src/services/apiService.ts],
    - the other operations of the store (deleting and duplicating nodes, the
      projects), the flow container's [onConnect], [onDrop] and
      [autoArrangeSelected], the size table and the request bodies of the
      Comfly image calls, and the image list of the image-processing node.

    How the program is modelled:
    - a node's [data] object is a [gmap string jsval], an array a list, an
      optional field an [option];
    - a string is its UTF-8 text, so that the white space of the language
      (also U+00A0, U+3000 and the like) is told from other characters;
    - a number is the rational it stands for: integers in [Z], pixel sizes
      and positions in [Q]. Where the rounding of the engine's arithmetic
      decides a number that is shown or compared as a decimal or an integer
      (the duration, the progress, the grid of the arrangement) the rounding
      to a double, [binary64], is applied; the pixel geometry of the splitter
      and the places of result nodes are the exact values, of which the
      engine holds the nearest doubles;
    - an [async] function is a computation of type [Run]: it threads the
      [World] (the store, the canvas, the scheduled polls, a clock) and ends
      with a value or a thrown error; one such function runs from start to
      end without another one in between;
    - the outside world (image decoding, uploads, the providers, the system
      clock, [crypto.randomUUID]) is a record [Env] of answers;
    - a [poll()] that is called and not awaited, or started by [setTimeout],
      is an entry of the world's [timers]; [fireTimer] runs it later, and an
      error it throws reaches nobody.

    The first part holds the definitions, the second part the properties. *)

From Stdlib Require Import ZArith QArith Qabs Qpower Qround String Ascii List Lia.
From Stdlib Require Import DecimalString.
From Stdlib Require Import Lqa.
From Stdlib Require Import Sorting.Sorted Sorting.Permutation.
From stdpp Require Import base option list gmap strings.
From Equations Require Import Equations.

Local Open Scope string_scope.
Local Open Scope list_scope.

(** ** JavaScript values *)

(** The values stored in a node's [data] object. A number is the rational it
    stands for (pixel sizes, progress, order, timestamps, durations). *)
Inductive jsval : Type :=
  | JUndefined
  | JBool (b : bool)
  | JNum (q : Q)
  | JStr (s : string).

(** ToBoolean: [undefined], [false], [0] and the empty string are falsy. *)
Definition truthy (v : jsval) : bool :=
  match v with
  | JUndefined => false
  | JBool b => b
  | JNum q => negb (Qeq_bool q 0)
  | JStr s => negb (String.eqb s "")
  end.

(** A string-typed field read through [x || fallback]: the value when it is a
    non-empty string. The interface [WorkflowNodeData] of [src/types.ts]
    declares the fields read this way as strings. *)
Definition truthy_str (v : option jsval) : option string :=
  match v with
  | Some (JStr s) => if String.eqb s "" then None else Some s
  | _ => None
  end.

Definition str_or (v : option jsval) (fallback : string) : string :=
  default fallback (truthy_str v).

(** ** The graph store *)

Record Position := { pos_x : Q; pos_y : Q }.

Record Node := {
  n_id : string;
  n_type : string;
  n_position : Position;
  n_selected : bool;
  n_data : gmap string jsval
}.

Record EdgeData := {
  order : option Z;
  ed_targetHandle : option string
}.

Record Edge := {
  e_id : string;
  e_source : string;
  e_target : string;
  e_sourceHandle : option string;
  e_targetHandle : option string;
  e_data : option EdgeData
}.

(** The part of [WorkflowState] the engine reads and writes. *)
Record Store := {
  nodes : list Node;
  edges : list Edge
}.

Definition with_data (node : Node) (d : gmap string jsval) : Node :=
  {| n_id := n_id node; n_type := n_type node; n_position := n_position node;
     n_selected := n_selected node; n_data := d |}.

(** [setNodes], [setEdges], [addNode]: whole-collection replacements. *)
Definition setNodes (ns : list Node) (st : Store) : Store :=
  {| nodes := ns; edges := edges st |}.

Definition setEdges (es : list Edge) (st : Store) : Store :=
  {| nodes := nodes st; edges := es |}.

Definition addNode (node : Node) (st : Store) : Store :=
  {| nodes := nodes st ++ [node]; edges := edges st |}.

(** [updateNodeData]: [{ ...node, data: { ...node.data, ...data } }] on every
    node whose id is [nodeId]. The spread of the patch over the old data is
    the left-biased union with the patch on the left. *)
Definition updateNodeData (nodeId : string) (patch : gmap string jsval)
    (st : Store) : Store :=
  {| nodes := map (fun node =>
                     if decide (n_id node = nodeId)
                     then with_data node (patch ∪ n_data node)
                     else node) (nodes st);
     edges := edges st |}.

(** [nodes.find(n => n.id === id)]: the first node with that id. *)
Definition findNode (ns : list Node) (nid : string) : option Node :=
  List.find (fun n => bool_decide (n_id n = nid)) ns.


(** ** Strings *)

(** A string is the UTF-8 text of the JavaScript string. The white space of
    [trim], of the class [\s] and of [parseInt] is WhiteSpace and
    LineTerminator of the language: TAB, LF, VT, FF, CR, SPACE, U+00A0,
    U+1680, U+2000 to U+200A, U+2028, U+2029, U+202F, U+205F, U+3000 and
    U+FEFF, each given by the bytes of its encoding. *)
Definition bytes (l : list nat) : string :=
  string_of_list_ascii (List.map ascii_of_nat l).

Definition whiteSpace : list string :=
  List.map bytes
    [ [9]; [10]; [11]; [12]; [13]; [32];
      [194; 160];
      [225; 154; 128];
      [226; 128; 128]; [226; 128; 129]; [226; 128; 130]; [226; 128; 131];
      [226; 128; 132]; [226; 128; 133]; [226; 128; 134]; [226; 128; 135];
      [226; 128; 136]; [226; 128; 137]; [226; 128; 138];
      [226; 128; 168]; [226; 128; 169]; [226; 128; 175];
      [226; 129; 159];
      [227; 128; 128];
      [239; 187; 191] ].

(** The number of bytes of the one of [pats] that [s] starts with, 0 when it
    starts with none. *)
Definition lead_width (pats : list string) (s : string) : nat :=
  match List.find (fun p => String.prefix p s) pats with
  | Some p => String.length p
  | None => 0
  end.

Definition space_width (s : string) : nat := lead_width whiteSpace s.

(** [s.trimStart()]; [skip] counts the bytes of a white-space character that
    are still to pass. *)
Fixpoint trimStart_from (skip : nat) (s : string) : string :=
  match s with
  | EmptyString => EmptyString
  | String _ s' =>
      match skip with
      | S k => trimStart_from k s'
      | O => match space_width s with
             | S k => trimStart_from k s'
             | O => s
             end
      end
  end.

Definition trimStart (s : string) : string := trimStart_from 0 s.

(** [s.trimEnd()]: the text is cut where only white space follows. *)
Fixpoint trimEnd (s : string) : string :=
  match s with
  | EmptyString => EmptyString
  | String c s' =>
      if String.eqb (trimStart s) EmptyString then EmptyString
      else String c (trimEnd s')
  end.

(** [s.trim()] *)
Definition trim (s : string) : string := trimEnd (trimStart s).

(** [s.split(sep)] for a one-character separator that is a string: every
    occurrence separates, and the empty string gives one empty token. *)
Fixpoint split_char (sep : ascii) (cur : string) (s : string) : list string :=
  match s with
  | EmptyString => [cur]
  | String c s' =>
      if Ascii.eqb c sep then cur :: split_char sep EmptyString s'
      else split_char sep (cur +:+ String c EmptyString) s'
  end.

(** [s.split(/[,\s]+/)]: a maximal run of commas and white-space characters
    separates; a run at the start or at the end leaves an empty first or last
    token. [skip] counts the bytes of a separator that are still to pass. *)
Definition separators : list string := "," :: whiteSpace.

Definition sep_width (s : string) : nat := lead_width separators s.

Fixpoint split_seps (skip : nat) (inRun : bool) (cur : string) (s : string)
    : list string :=
  match s with
  | EmptyString => [cur]
  | String c s' =>
      match skip with
      | S k => split_seps k inRun cur s'
      | O =>
          match sep_width s with
          | S k => if inRun then split_seps k true EmptyString s'
                   else cur :: split_seps k true EmptyString s'
          | O => split_seps 0 false (cur +:+ String c EmptyString) s'
          end
      end
  end.

Definition split_commas_spaces (s : string) : list string :=
  split_seps 0 false EmptyString s.

(** [parseInt(s, 10)]: leading white space is skipped, one sign is read, then
    the longest prefix of decimal digits; [None] is [NaN] (no digit). *)
Definition digit_of (c : ascii) : option Z :=
  let n := nat_of_ascii c in
  if Nat.leb 48 n && Nat.leb n 57 then Some (Z.of_nat (n - 48)) else None.

Fixpoint digits_prefix (acc : option Z) (s : string) : option Z :=
  match s with
  | EmptyString => acc
  | String c s' =>
      match digit_of c with
      | Some d => digits_prefix (Some (10 * default 0%Z acc + d)%Z) s'
      | None => acc
      end
  end.

Definition parseInt10 (s : string) : option Z :=
  match trimStart s with
  | String "-" s' => Z.opp <$> digits_prefix None s'
  | String "+" s' => digits_prefix None s'
  | s' => digits_prefix None s'
  end.

(** [s.toUpperCase()] on the letters a-z; the status words of the providers,
    which are what the engine puts in capitals, are written with them. *)
Definition upper_ascii (c : ascii) : ascii :=
  let n := nat_of_ascii c in
  if Nat.leb 97 n && Nat.leb n 122 then ascii_of_nat (n - 32) else c.

Fixpoint toUpperCase (s : string) : string :=
  match s with
  | EmptyString => EmptyString
  | String c s' => String (upper_ascii c) (toUpperCase s')
  end.

(** [s.startsWith(p)] *)
Definition startsWith (p s : string) : bool := String.prefix p s.

(** ** [Array.prototype.sort] *)

(** The stable sort of the language: an element is inserted before the first
    later element it does not compare greater than, so equal elements keep
    their order. [cmp a b] is the comparator's number. *)
Fixpoint sort_insert {A : Type} (cmp : A → A → Z) (x : A) (l : list A) : list A :=
  match l with
  | [] => [x]
  | y :: l' => if (cmp x y <=? 0)%Z then x :: y :: l' else y :: sort_insert cmp x l'
  end.

Definition js_sort {A : Type} (cmp : A → A → Z) (l : list A) : list A :=
  foldr (sort_insert cmp) [] l.

(** ** The input resolver *)

(** [e.data?.order || 0] *)
Definition orderOf (e : Edge) : Z :=
  match e_data e with
  | Some d => match order d with
              | Some o => if (o =? 0)%Z then 0%Z else o
              | None => 0%Z
              end
  | None => 0%Z
  end.

(** [(a, b) => (a.data?.order || 0) - (b.data?.order || 0)] *)
Definition byOrder (a b : Edge) : Z := (orderOf a - orderOf b)%Z.

Definition handleIs (h : string) (e : Edge) : bool :=
  bool_decide (e_targetHandle e = Some h).

(** [!e.targetHandle || e.targetHandle === 'text' || ... 'anchor' || ... 'sequence'] *)
Definition isTextHandle (e : Edge) : bool :=
  match e_targetHandle e with
  | None => true
  | Some h => String.eqb h "" || String.eqb h "text" || String.eqb h "anchor"
              || String.eqb h "sequence"
  end.

Record IncomingData := {
  texts : list string;
  images : list string;
  imageRemarks : list string
}.

Definition incomingEdgesOf (state : Store) (targetNodeId : string) : list Edge :=
  List.filter (fun e => bool_decide (e_target e = targetNodeId)) (edges state).

(** Body of the first [forEach]: push the source node's content. *)
Definition pushText (state : Store) (data : IncomingData) (edge : Edge) : IncomingData :=
  match findNode (nodes state) (e_source edge) with
  | Some sourceNode =>
      match truthy_str (n_data sourceNode !! "content") with
      | Some content =>
          {| texts := texts data ++ [content]; images := images data;
             imageRemarks := imageRemarks data |}
      | None => data
      end
  | None => data
  end.

(** Body of the second [forEach]: push the source node's url, and its remark
    when it has one. *)
Definition pushImage (state : Store) (data : IncomingData) (edge : Edge) : IncomingData :=
  match findNode (nodes state) (e_source edge) with
  | Some sourceNode =>
      match truthy_str (n_data sourceNode !! "url") with
      | Some url =>
          let pushed := images data ++ [url] in
          match truthy_str (n_data sourceNode !! "remark") with
          | Some remark =>
              {| texts := texts data; images := pushed;
                 imageRemarks := imageRemarks data ++ [remark] |}
          | None =>
              {| texts := texts data; images := pushed;
                 imageRemarks := imageRemarks data |}
          end
      | None => data
      end
  | None => data
  end.

Definition getIncomingData (state : Store) (targetNodeId : string) : IncomingData :=
  let incomingEdges := incomingEdgesOf state targetNodeId in
  let data := {| texts := []; images := []; imageRemarks := [] |} in
  let data := fold_left (pushText state) (List.filter isTextHandle incomingEdges) data in
  fold_left (pushImage state)
            (js_sort byOrder (List.filter (handleIs "image") incomingEdges)) data.


(** ** Numbers *)

(** The engine's numbers are IEEE 754 doubles. [binary64 q] is the double
    nearest to the real number [q], a tie going to the even significand: what
    an arithmetic operation of the engine, or the reading of a decimal text,
    gives for the exact value [q]. Numbers beyond the range of the doubles
    (2^1024 and more), which the engine turns into [Infinity], are outside of
    the model. *)
Definition pow2 (e : Z) : Q := (2 ^ e)%Q.

(** The exponent of a number that is not zero: 2^e <= |q| < 2^(e+1). *)
Definition exponentOf (q : Q) : Z :=
  let e := (Z.log2 (Z.abs (Qnum q)) - Z.log2 (Zpos (Qden q)))%Z in
  if Qle_bool (pow2 e) (Qabs q) then e else (e - 1)%Z.

(** The nearest integer, a tie going to the even one. *)
Definition roundEven (t : Q) : Z :=
  let f := Qfloor t in
  match ((t - inject_Z f) ?= (1 # 2))%Q with
  | Lt => f
  | Gt => (f + 1)%Z
  | Eq => if Z.even f then f else (f + 1)%Z
  end.

(** The doubles of exponent [e] are the multiples of 2^(e-52); below the
    exponent -1022 they are the multiples of 2^(-1074). *)
Definition binary64 (q : Q) : Q :=
  if Qeq_bool q 0 then 0
  else
    let e := Z.max (exponentOf q) (-1022) in
    let ulp := pow2 (e - 52) in
    Qred (inject_Z (roundEven (q / ulp)) * ulp).

(** ** Numbers in text *)

(** [`${n}`] for an integer. *)
Definition string_of_Z (z : Z) : string := NilZero.string_of_int (Z.to_int z).

(** [x.toFixed(1)] as a number: the multiple of one tenth nearest to the
    exact value of the double [x], the larger one in magnitude when two are
    as near. *)
Definition toFixed1 (x : Q) : Q :=
  if Qle_bool 0 x then Qfloor (x * 10 + (1 # 2)) # 10
  else - (Qfloor ((- x) * 10 + (1 # 2)) # 10).

(** ** Effects: store, thrown errors, the outside world *)

(** The result of a call that may throw; [message] is what [err.message]
    reads: the text of an [Error], [undefined] for a rejection that is not an
    [Error] (the event of [img.onerror]). *)
Inductive outcome (A : Type) : Type :=
  | Returned (a : A)
  | Thrown (message : jsval).
Arguments Returned {A} a.
Arguments Thrown {A} message.

(** What is drawn on the canvas: [ctx.drawImage(img, sx, sy, sw, sh, 0, 0, sw, sh)]. *)
Record DrawCall := {
  dc_src : string;
  dc_sx : Q; dc_sy : Q; dc_sw : Q; dc_sh : Q
}.

(** The argument of an upload: the canvas content, a fetched remote file or a
    data URI. *)
Inductive UploadSource : Type :=
  | CanvasBlob (d : DrawCall)
  | RemoteBlob (url : string)
  | DataUri (s : string).

(** The four asynchronous provider paths of [executeNode], each with its own
    [poll] closure. *)
Inductive PollPath : Type := ComflyImage | GrsaiImage | ComflyVideo | GrsaiVideo.

(** A started [poll] closure: the variables it captured. *)
Record PollTask := {
  pt_path : PollPath;
  pt_taskId : string;
  pt_nodeId : string;
  pt_node : Node;
  pt_runStartTime : Z
}.

(** The state one execution works on. [timers] holds the [poll] calls that are
    scheduled and not yet run, with their delay in milliseconds (0 for the
    first, direct call); [clock] counts the questions asked to the outside
    world so far, so that the same question may be answered differently later. *)
Record World := {
  store : Store;
  canvas : list DrawCall;
  timers : list (Z * PollTask);
  clock : nat
}.

Definition Run (A : Type) : Type := World → World * outcome A.

Global Instance run_ret : MRet Run := fun A a w => (w, Returned a).

Global Instance run_bind : MBind Run := fun A B f m w =>
  match m w with
  | (w', Returned a) => f a w'
  | (w', Thrown e) => (w', Thrown e)
  end.

(** [throw e] and [throw new Error(text)] *)
Definition throw {A : Type} (message : jsval) : Run A := fun w => (w, Thrown message).
Definition throwError {A : Type} (text : string) : Run A := throw (JStr text).

(** [try { body } catch (err) { handler(err.message) }] *)
Definition tryCatch {A : Type} (body : Run A) (handler : jsval → Run A) : Run A :=
  fun w => match body w with
           | (w', Returned a) => (w', Returned a)
           | (w', Thrown e) => handler e w'
           end.

(** [await] of a call whose result is already an [outcome]. *)
Definition await {A : Type} (o : outcome A) : Run A := fun w => (w, o).

(** [useStore.getState()] and [set(...)] *)
Definition getState : Run Store := fun w => (w, Returned (store w)).

Definition modifyStore (f : Store → Store) : Run unit := fun w =>
  ({| store := f (store w); canvas := canvas w; timers := timers w; clock := clock w |},
   Returned tt).

(** A question to the outside world: answered at the current [clock], which
    then advances. *)
Definition ask {A : Type} (answer : nat → A) : Run A := fun w =>
  ({| store := store w; canvas := canvas w; timers := timers w; clock := S (clock w) |},
   Returned (answer (clock w))).

Definition drawImage (d : DrawCall) : Run unit := fun w =>
  ({| store := store w; canvas := canvas w ++ [d]; timers := timers w; clock := clock w |},
   Returned tt).

(** [poll()] without [await], and [setTimeout(poll, delay)]: the call is
    recorded and runs later, outside of the caller's [try]. *)
Definition schedule (delay : Z) (task : PollTask) : Run unit := fun w =>
  ({| store := store w; canvas := canvas w; timers := timers w ++ [(delay, task)];
      clock := clock w |},
   Returned tt).

(** *** The answers of the outside world *)

(** The JSON answer of the imgBB upload. *)
Record ImgbbResult := {
  ir_success : bool;
  ir_error_message : option string;
  ir_data_url : string;
  ir_data_medium_url : option string;
  ir_data_display_url : option string
}.

Record InlineImage := { ii_data : string; ii_mimeType : string }.

Record ExpertOutput := { eo_title : string; eo_prompt : string }.

(** The parsed answer of [geminiTextExpert]; [er_outputs = None] is an answer
    without the [outputs] field. *)
Record ExpertResult := {
  er_displaySummary : jsval;
  er_outputs : option (list ExpertOutput)
}.

(** The answer [data.data] of [pollGrsaiResult]. [gr_failure_reason] stands
    for a reason text the provider sends with a failure; the engine reads
    [status], [progress], [url] and [results[0].url] only. *)
Record GrsaiResult := {
  gr_status : option string;
  gr_progress : option Z;
  gr_url : option string;
  gr_results_0_url : option string;
  gr_failure_reason : option string
}.

(** The task information of the Comfly image task endpoint;
    [cit_data_data_0_url] is [data.data[0].url]. *)
Record ComflyImageTask := {
  cit_status : option string;
  cit_state : option string;
  cit_fail_reason : option string;
  cit_progress : option string;
  cit_data_data_0_url : option string;
  cit_url : option string;
  cit_result : option string
}.

(** The answer of [pollComflyImageResult]: the task information under [data],
    or at the top level (then without a [data] field). *)
Inductive ComflyImageResObj : Type :=
  | Wrapped (taskInfo : ComflyImageTask)
  | Bare (status state fail_reason progress url result : option string).

(** The answer of [pollComflyResult]; [cv_data = None] is an answer without a
    [data] object, [cv_data_outputs] is [data.outputs] (first element of an
    array, or the value itself). *)
Record ComflyVideoData := {
  cvd_output : option string;
  cvd_url : option string;
  cvd_outputs : option string
}.

Record ComflyVideoResult := {
  cv_status : option string;
  cv_state : option string;
  cv_fail_reason : option string;
  cv_progress : option string;
  cv_data : option ComflyVideoData
}.

(** The JSON answer of a GRSAI submission: [code], [msg] and [data.id]. *)
Record GrsaiSubmitResponse := {
  gs_code : Z;
  gs_msg : option string;
  gs_data_id : string
}.

(** The JSON answer of a Comfly video submission. *)
Record ComflySubmitResponse := {
  cs_task_id : option string;
  cs_data_task_id : option string;
  cs_message : option string
}.

(** ** [src/services/apiService.ts] *)

(** [x || fallback] for an optional string. *)
Definition opt_or (x : option string) (fallback : string) : string :=
  match x with
  | Some s => if String.eqb s "" then fallback else s
  | None => fallback
  end.

(** An optional string that is truthy. *)
Definition opt_truthy (x : option string) : option string :=
  match x with
  | Some s => if String.eqb s "" then None else Some s
  | None => None
  end.

(** A field read at type string, [undefined] when absent. *)
Definition str_field (v : option jsval) : option string :=
  match v with
  | Some (JStr s) => Some s
  | _ => None
  end.

(** The request body of the GRSAI Veo endpoint. [vp_durationSeconds = None]
    is [NaN]. *)
Record VeoPayload := {
  vp_model : string;
  vp_aspectRatio : string;
  vp_firstFrameUrl : string;
  vp_lastFrameUrl : string;
  vp_urls : option (list string);
  vp_prompt : string;
  vp_resolution : string;
  vp_durationSeconds : option Z;
  vp_personGeneration : string;
  vp_webhook : string;
  vp_shutProgress : bool;
  vp_cdn : string
}.

(** The request body of the GRSAI Sora endpoint. *)
Record SoraPayload := {
  sp_model : string;
  sp_prompt : string;
  sp_aspectRatio : string;
  sp_url : string;
  sp_duration : Z;
  sp_size : string;
  sp_webhook : string;
  sp_shutProgress : bool
}.

Inductive GrsaiVideoPayload : Type :=
  | Veo (p : VeoPayload)
  | Sora (p : SoraPayload).

Record VeoParams := {
  vparams_model : string;
  vparams_prompt : string;
  vparams_urls : list string;
  vparams_aspectRatio : string;
  vparams_resolution : option string;
  vparams_durationSeconds : option string
}.

(** The three assignments of one branch of [prepareVeoPayload]. *)
Definition setFrames (p : VeoPayload) (first last : string)
    (urls : option (list string)) : VeoPayload :=
  {| vp_model := vp_model p; vp_aspectRatio := vp_aspectRatio p;
     vp_firstFrameUrl := first; vp_lastFrameUrl := last; vp_urls := urls;
     vp_prompt := vp_prompt p; vp_resolution := vp_resolution p;
     vp_durationSeconds := vp_durationSeconds p;
     vp_personGeneration := vp_personGeneration p; vp_webhook := vp_webhook p;
     vp_shutProgress := vp_shutProgress p; vp_cdn := vp_cdn p |}.

Definition prepareVeoPayload (params : VeoParams) : GrsaiVideoPayload :=
  let model := vparams_model params in
  let urls := vparams_urls params in
  let payload :=
    {| vp_model := model;
       vp_aspectRatio := vparams_aspectRatio params;
       vp_firstFrameUrl := "";
       vp_lastFrameUrl := "";
       vp_urls := None;
       vp_prompt := vparams_prompt params;
       vp_resolution := opt_or (vparams_resolution params) "720p";
       vp_durationSeconds :=
         match opt_truthy (vparams_durationSeconds params) with
         | Some d => parseInt10 d
         | None => Some 6%Z
         end;
       vp_personGeneration :=
         if Nat.ltb 0 (length urls) then "allow_adult" else "allow_all";
       vp_webhook := "-1";
       vp_shutProgress := false;
       vp_cdn := "" |} in
  let payload :=
    if Nat.eqb (length urls) 1 then
      setFrames payload (nth 0 urls "") "" None
    else if Nat.eqb (length urls) 2 then
      setFrames payload (nth 0 urls "") (nth 1 urls "") None
    else if Nat.leb 3 (length urls) then
      setFrames payload "" "" (Some (take 3 urls))
    else
      setFrames payload "" "" None in
  if String.eqb model "sora-2" then
    Sora {| sp_model := model;
            sp_prompt := vparams_prompt params;
            sp_aspectRatio := vparams_aspectRatio params;
            sp_url := opt_or (head urls) "";
            sp_duration := 10;
            sp_size := "small";
            sp_webhook := "-1";
            sp_shutProgress := false |}
  else Veo payload.

(** The request body of the Comfly video endpoint; [None] is [undefined]. *)
Record ComflyVideoPayload := {
  cp_prompt : string;
  cp_model : string;
  cp_aspect_ratio : string;
  cp_images : option (list string);
  cp_enable_upsample : option bool
}.

Record ComflyVideoParams := {
  cparams_model : string;
  cparams_prompt : string;
  cparams_urls : option (list string);
  cparams_aspectRatio : string;
  cparams_apiKey : string;
  cparams_enable_upsample : option bool
}.

(** The [payload] constant of [comflyVideo]. *)
Definition comflyVideoPayload (params : ComflyVideoParams) : ComflyVideoPayload :=
  {| cp_prompt := cparams_prompt params;
     cp_model := cparams_model params;
     cp_aspect_ratio :=
       if String.eqb (cparams_aspectRatio params) "1:1" then "16:9"
       else cparams_aspectRatio params;
     cp_images :=
       match cparams_urls params with
       | Some urls => if Nat.ltb 0 (length urls) then Some urls else None
       | None => None
       end;
     cp_enable_upsample := cparams_enable_upsample params |}.

(** The arguments of the image providers' submit calls. *)
Record DrawParams := {
  dp_model : string;
  dp_prompt : string;
  dp_aspectRatio : string;
  dp_imageSize : option string;
  dp_urls : list string;
  dp_apiKey : string
}.

Record GrsaiVideoParams := {
  gv_model : string;
  gv_prompt : string;
  gv_urls : option (list string);
  gv_aspectRatio : string;
  gv_resolution : option string;
  gv_durationSeconds : option string;
  gv_apiKey : string
}.

(** The outside world. Each field answers one kind of question at a given
    [clock]. The HTTP exchanges of [uploadToImgBB], [grsaiVideo] and
    [comflyVideo] are answered with the parsed JSON body, or with the error
    [fetch] or [json] throws. The calls [fetchImageAsBase64],
    [geminiTextExpert], [geminiNativeImageGen], [grsaiDraw], [comflyDrawTask],
    [comflyDraw] and the three poll requests are answered as a whole: the
    value they return or the error they throw. *)
Record Env := {
  Date_now : nat → Z;
  randomUUID : nat → string;
  image_onload : nat → string → option (Z * Z);
  canvas_getContext : nat → bool;
  imgbb_fetch : nat → string → UploadSource → option string → outcome ImgbbResult;
  fetch_blob : nat → string → outcome unit;
  fetchImageAsBase64 : nat → string → outcome InlineImage;
  geminiTextExpert : nat → string → string → list InlineImage → outcome ExpertResult;
  geminiNativeImageGen :
    nat → string → string → option string → list InlineImage → outcome string;
  grsaiDraw : nat → DrawParams → outcome string;
  comflyDrawTask : nat → DrawParams → outcome string;
  comflyDraw : nat → DrawParams → outcome string;
  grsai_video_fetch :
    nat → string → string → GrsaiVideoPayload → outcome GrsaiSubmitResponse;
  comfly_video_fetch :
    nat → string → ComflyVideoPayload → outcome ComflySubmitResponse;
  pollGrsaiResult : nat → string → string → outcome GrsaiResult;
  pollComflyImageResult : nat → string → string → outcome ComflyImageResObj;
  pollComflyResult : nat → string → string → outcome ComflyVideoResult
}.

Section ApiService.
Variable env : Env.

(** An external call: asked at the current clock, awaited. *)
Definition call {A : Type} (answer : nat → outcome A) : Run A :=
  ask answer ≫= await.

Definition uploadToImgBB (imageSource : UploadSource) (apiKey : string)
    (name : option string) : Run (string * string) :=
  if String.eqb apiKey "" then throwError "缺少 imgBB API Key"
  else
    result ← call (fun t => imgbb_fetch env t apiKey imageSource name);
    if negb (ir_success result)
    then throwError (opt_or (ir_error_message result) "上传失败")
    else mret (ir_data_url result,
               opt_or (ir_data_medium_url result)
                 (opt_or (ir_data_display_url result) (ir_data_url result))).

Definition grsaiVideo (params : GrsaiVideoParams) : Run string :=
  let model := gv_model params in
  let payload := prepareVeoPayload
    {| vparams_model := model;
       vparams_prompt := gv_prompt params;
       vparams_urls := default [] (gv_urls params);
       vparams_aspectRatio := gv_aspectRatio params;
       vparams_resolution := gv_resolution params;
       vparams_durationSeconds := gv_durationSeconds params |} in
  let endpoint := if String.eqb model "sora-2" then "/v1/video/sora-video"
                  else "/v1/video/veo" in
  data ← call (fun t => grsai_video_fetch env t endpoint (gv_apiKey params) payload);
  if negb (Z.eqb (gs_code data) 0)
  then throwError (default "" (gs_msg data))
  else mret (gs_data_id data).

Definition comflyVideo (params : ComflyVideoParams) : Run string :=
  let payload := comflyVideoPayload params in
  data ← call (fun t => comfly_video_fetch env t (cparams_apiKey params) payload);
  match opt_truthy (cs_task_id data), opt_truthy (cs_data_task_id data) with
  | Some taskId, _ => mret taskId
  | None, Some taskId => mret taskId
  | None, None => throwError (opt_or (cs_message data) "Comfly 视频任务提交失败")
  end.
End ApiService.

(** ** [executeNode] of [src/App.tsx]: helpers *)

Definition LF : string := String (ascii_of_nat 10) EmptyString.

(** [s.replace(pat, repl)] for a string pattern: the first occurrence. *)
Definition replace_first (pat repl s : string) : string :=
  match String.index 0 pat s with
  | Some i =>
      String.substring 0 i s +:+ repl
        +:+ String.substring (i + String.length pat)
              (String.length s - (i + String.length pat)) s
  | None => s
  end.

Definition lower_ascii (c : ascii) : ascii :=
  let n := nat_of_ascii c in
  if Nat.leb 65 n && Nat.leb n 90 then ascii_of_nat (n + 32) else c.

Fixpoint toLowerCase (s : string) : string :=
  match s with
  | EmptyString => EmptyString
  | String c s' => String (lower_ascii c) (toLowerCase s')
  end.

Definition js_of_opt (x : option string) : jsval :=
  match x with
  | Some s => JStr s
  | None => JUndefined
  end.

(** [x ?? fallback] for a field declared as a number, and as a boolean. *)
Definition num_nullish (v : option jsval) (fallback : Q) : Q :=
  match v with
  | Some (JNum q) => q
  | _ => fallback
  end.

Definition bool_nullish (v : option jsval) (fallback : bool) : bool :=
  match v with
  | Some (JBool b) => b
  | _ => fallback
  end.

Definition field_truthy (v : option jsval) : bool :=
  match v with
  | Some x => truthy x
  | None => false
  end.

(** *** [addEdge] of the reactflow library, behind the store's [onConnect] *)

Record Connection := {
  c_id : option string;
  c_source : string;
  c_target : string;
  c_sourceHandle : option string;
  c_targetHandle : option string;
  c_data : option EdgeData
}.

Definition getEdgeId (c : Connection) : string :=
  "reactflow__edge-" +:+ c_source c +:+ opt_or (c_sourceHandle c) "" +:+ "-"
    +:+ c_target c +:+ opt_or (c_targetHandle c) "".

Definition sameHandle (a b : option string) : bool :=
  bool_decide (a = b) || (negb (bool_decide (is_Some (opt_truthy a)))
                          && negb (bool_decide (is_Some (opt_truthy b)))).

Definition connectionExists (edge : Edge) (es : list Edge) : bool :=
  existsb (fun el =>
             String.eqb (e_source el) (e_source edge)
             && String.eqb (e_target el) (e_target edge)
             && sameHandle (e_sourceHandle el) (e_sourceHandle edge)
             && sameHandle (e_targetHandle el) (e_targetHandle edge)) es.

Definition addEdge (c : Connection) (es : list Edge) : list Edge :=
  if String.eqb (c_source c) "" || String.eqb (c_target c) "" then es
  else
    let edge := {| e_id := default (getEdgeId c) (c_id c);
                   e_source := c_source c; e_target := c_target c;
                   e_sourceHandle := c_sourceHandle c;
                   e_targetHandle := c_targetHandle c;
                   e_data := c_data c |} in
    if connectionExists edge es then es else es ++ [edge].

Definition onConnect (c : Connection) (st : Store) : Store :=
  setEdges (addEdge c (edges st)) st.

(** *** The prompt merger's shot sequence *)

(** [while (finalShots.length < targetLen) finalShots.push(finalShots[finalShots.length - 1])].
    On an empty array the read is [undefined], which the template would print
    as that word; the handler throws on an empty shot list before the loop. *)
Equations? padShots (finalShots : list string) (targetLen : nat) : list string
  by wf (targetLen - length finalShots) lt :=
  padShots finalShots targetLen with decide (length finalShots < targetLen) => {
    | left _ := padShots (finalShots ++ [List.last finalShots "undefined"]) targetLen;
    | right _ := finalShots }.
Proof. rewrite length_app; simpl; lia. Qed.

(** [gridType === '3x3' ? 9 : 4] *)
Definition targetLenOf (gridType : string) : nat :=
  if String.eqb gridType "3x3" then 9 else 4.

(** [activeShots]: the padded copy cut to [targetLen]. *)
Definition activeShotsOf (shots : list string) (gridType : string) : list string :=
  let targetLen := targetLenOf gridType in
  let finalShots := padShots shots targetLen in
  take targetLen finalShots.

(** [sourceNode?.data?.content || sourceNode?.data?.label || fallback] *)
Definition contentOrLabel (sourceNode : option Node) (fallback : string) : string :=
  match sourceNode with
  | Some n => str_or (n_data n !! "content") (str_or (n_data n !! "label") fallback)
  | None => fallback
  end.

(** The shot list before padding: the connected sequence nodes in edge order
    when there is a sequence edge, else the non-blank lines of the local field. *)
Definition shotsOf (st : Store) (nodeId : string) (node : Node) : list string :=
  let incomingEdges := incomingEdgesOf st nodeId in
  let sequenceEdges := js_sort byOrder (List.filter (handleIs "sequence") incomingEdges) in
  let shots :=
    List.filter (fun l => Nat.ltb 0 (String.length (trim l)))
      (split_char (ascii_of_nat 10) EmptyString
         (str_or (n_data node !! "sequenceContent") "")) in
  if Nat.ltb 0 (length sequenceEdges) then
    List.filter (fun s => negb (String.eqb s ""))
      (List.map (fun e => contentOrLabel (findNode (nodes st) (e_source e)) "")
         sequenceEdges)
  else shots.

Definition mergedPromptOf (gridType anchor : string) (activeShots : list string) : string :=
  "TASK: Generate a multi-shot sequence in a " +:+ gridType +:+ " grid format.
    
    VISUAL STYLE: Exact imitation of the artistic medium, textures, and rendering style of the provided reference images. DO NOT add any extra artistic filters.
    
    ### STYLE CLONE: Inherit the artistic medium and visual aesthetic of the references.
    - VISUAL CONSISTENCY: Ensure the same character appearance and environmental aesthetic across all panels.
    
    CHARACTER ANCHORS:
    " +:+ anchor +:+ "
    
    SEQUENCE CONTENT:
" +:+ String.concat LF
        (imap (fun i content =>
                 "【Shot " +:+ string_of_Z (Z.of_nat i + 1) +:+ "】: " +:+ content)
              activeShots) +:+ "
    
    TECHNICAL REQUIREMENTS:
    1. Clean " +:+ gridType +:+ " grid with thin dividing lines.
    2. NO TEXT, LABELS, OR CAPTIONS in the frames.
    3. NO DUPLICATE CHARACTERS: Each character appears exactly once per frame.
    4. MEDIUM FIDELITY: Maintain the specific artistic quality and structural foundation of the first reference image.".

(** *** The image splitter's selection and crop *)

(** [!isNaN(n) && n >= 1 && n <= totalCells] *)
Definition keepIndex (totalCells : Z) (n : option Z) : bool :=
  match n with
  | Some k => (1 <=? k)%Z && (k <=? totalCells)%Z
  | None => false
  end.

(** [indicesToExtract] *)
Definition indicesToExtractOf (selectStr : string) (totalCells : Z) : list Z :=
  if String.eqb (trim selectStr) "0" then seqZ 1 totalCells
  else omap id (List.filter (keepIndex totalCells)
                  (List.map parseInt10 (split_commas_spaces selectStr))).

(** [gridType === '3x3' ? 3 : 2] *)
Definition colsOf (gridType : string) : Z :=
  if String.eqb gridType "3x3" then 3%Z else 2%Z.

(** The source rectangle of the cell numbered [n] (from 1, row by row):
    [Math.floor(idx / cols)] and [idx % cols] with [idx = n - 1], which is not
    negative for a selected cell. *)
Definition cellRect (sourceUrl : string) (cols : Z) (cellW cellH trimPx : Q) (n : Z)
    : DrawCall :=
  let idx := (n - 1)%Z in
  let r := (idx / cols)%Z in
  let c := (idx mod cols)%Z in
  {| dc_src := sourceUrl;
     dc_sx := inject_Z c * cellW + trimPx;
     dc_sy := inject_Z r * cellH + trimPx;
     dc_sw := cellW - trimPx * 2;
     dc_sh := cellH - trimPx * 2 |}.

(** ** [executeNode]: the local handlers *)

Record AppSettings := {
  grsaiKey : string;
  comflyKey : string;
  imgbbKey : string;
  aspectRatio : string
}.

Section Engine.
Variable env : Env.
Variable settings : AppSettings.
(** The table of [./expertsInstructions], a module outside of the sources
    at hand: its content is a parameter. *)
Variable EXPERT_INSTRUCTIONS : gmap string string.

Definition updateNode (nodeId : string) (patch : gmap string jsval) : Run unit :=
  modifyStore (updateNodeData nodeId patch).

(** [finalizeNode]: [{ status, duration, ...additionalData }]; the duration
    is [parseFloat(runDuration.toFixed(1))]. *)
Definition finalizeNode (runStartTime : Z) (nodeId : string) (status : string)
    (additionalData : gmap string jsval) : Run unit :=
  now ← ask (Date_now env);
  let runDuration := binary64 (inject_Z (now - runStartTime)%Z / 1000)%Q in
  updateNode nodeId
    (additionalData ∪ {[ "status" := JStr status;
                         "duration" := JNum (binary64 (toFixed1 runDuration)) ]}).

(** A result node to the right of [node], and its edge. *)
Definition resultNode (resultId : string) (node : Node) (dy : Q)
    (data : gmap string jsval) : Node :=
  {| n_id := resultId; n_type := "outputResult";
     n_position := {| pos_x := (pos_x (n_position node) + 400)%Q;
                      pos_y := (pos_y (n_position node) + dy)%Q |};
     n_selected := false; n_data := data |}.

Definition resultEdge (nodeId resultId handle : string) : Edge :=
  {| e_id := "e-" +:+ nodeId +:+ "-" +:+ resultId;
     e_source := nodeId; e_target := resultId;
     e_sourceHandle := Some handle; e_targetHandle := Some handle;
     e_data := Some {| order := None; ed_targetHandle := Some handle |} |}.

(** [addNode({...}); storeOnConnect({ id, source, target, sourceHandle, targetHandle })]
    for one result of kind [handle]. *)
Definition materializeOne (nodeId : string) (node : Node) (handle : string)
    (data : gmap string jsval) : Run unit :=
  resultId ← ask (randomUUID env);
  modifyStore (addNode (resultNode resultId node 0%Q data));;
  modifyStore (onConnect
    {| c_id := Some ("e-" +:+ nodeId +:+ "-" +:+ resultId);
       c_source := nodeId; c_target := resultId;
       c_sourceHandle := Some handle; c_targetHandle := Some handle;
       c_data := None |}).

(** *** Prompt merger *)

Definition promptMerge (runStartTime : Z) (nodeId : string) (node : Node) : Run unit :=
  st ← getState;
  let incomingEdges := incomingEdgesOf st nodeId in
  let anchorEdge := List.find (handleIs "anchor") incomingEdges in
  let anchor := str_or (n_data node !! "characterAnchor") "未指定角色锚点" in
  let anchor :=
    match anchorEdge with
    | Some ae => contentOrLabel (findNode (nodes st) (e_source ae)) anchor
    | None => anchor
    end in
  let shots := shotsOf st nodeId node in
  if Nat.eqb (length shots) 0 then throwError "缺少序列内容分镜描述"
  else
    let gridType := str_or (n_data node !! "gridType") "3x3" in
    let activeShots := activeShotsOf shots gridType in
    let mergedPrompt := mergedPromptOf gridType anchor activeShots in
    finalizeNode runStartTime nodeId "success" {[ "statusMsg" := JStr "Merged" ]};;
    resultId ← ask (randomUUID env);
    modifyStore (addNode (resultNode resultId node 0%Q
      {[ "type" := JStr "text"; "label" := JStr "合并提示词";
         "content" := JStr mergedPrompt; "status" := JStr "idle" ]}));;
    modifyStore (onConnect
      {| c_id := None; c_source := nodeId; c_target := resultId;
         c_sourceHandle := Some "text"; c_targetHandle := Some "text";
         c_data := None |}).

(** *** Image splitter *)

(** The body of the [for] loop for position [i] and cell number [n]; the
    result is the pushed node and edge. [total] is
    [indicesToExtract.length]. *)
Definition splitCell (nodeId : string) (node : Node) (sourceUrl : string)
    (cols : Z) (cellW cellH trimPx : Q) (total : nat) (i : nat) (n : Z)
    : Run (Node * Edge) :=
  let rect := cellRect sourceUrl cols cellW cellH trimPx n in
  if Qle_bool (dc_sw rect) 0 || Qle_bool (dc_sh rect) 0
  then throwError "裁剪边距太大，超出格子尺寸"
  else
    drawImage rect;;
    '(url, mediumUrl) ← uploadToImgBB env (CanvasBlob rect) (imgbbKey settings)
                          (Some ("split_" +:+ string_of_Z n));
    resultId ← ask (randomUUID env);
    let newNode :=
      resultNode resultId node
        (inject_Z (Z.of_nat i) * 220 - (inject_Z (Z.of_nat total) - 1) * 110)%Q
        {[ "type" := JStr "image"; "label" := JStr ("格 " +:+ string_of_Z n);
           "url" := JStr url; "mediumUrl" := JStr mediumUrl;
           "status" := JStr "idle" ]} in
    updateNode nodeId
      {[ "progress" :=
           JNum (inject_Z (Qfloor (binary64
                   (binary64 ((inject_Z (Z.of_nat i) + 1)
                              / inject_Z (Z.of_nat total)) * 100)%Q))) ]};;
    mret (newNode, resultEdge nodeId resultId "image").

(** [for (let i = 0; i < indicesToExtract.length; i++)], from position [i]
    on, over the cells that are left. *)
Fixpoint splitLoop (nodeId : string) (node : Node) (sourceUrl : string)
    (cols : Z) (cellW cellH trimPx : Q) (total : nat) (i : nat) (rest : list Z)
    (newOutputNodes : list Node) (newOutputEdges : list Edge)
    : Run (list Node * list Edge) :=
  match rest with
  | [] => mret (newOutputNodes, newOutputEdges)
  | n :: rest' =>
      '(newNode, newEdge) ← splitCell nodeId node sourceUrl cols cellW cellH
                              trimPx total i n;
      splitLoop nodeId node sourceUrl cols cellW cellH trimPx total (S i) rest'
        (newOutputNodes ++ [newNode]) (newOutputEdges ++ [newEdge])
  end.

(** The handler from the decoded image on: [width] and [height] are
    [img.width] and [img.height]. *)
Definition splitDecoded (runStartTime : Z) (nodeId : string) (node : Node)
    (sourceUrl gridType selectStr : string) (trimPx : Q) (width height : Z)
    : Run unit :=
  let cols := colsOf gridType in
  let rows := cols in
  let cellW := (inject_Z width / inject_Z cols)%Q in
  let cellH := (inject_Z height / inject_Z rows)%Q in
  let totalCells := (cols * rows)%Z in
  let indicesToExtract := indicesToExtractOf selectStr totalCells in
  if Nat.eqb (length indicesToExtract) 0 then throwError "无有效的选择索引"
  else
    ctx ← ask (canvas_getContext env);
    if negb ctx then throwError "Canvas context failed"
    else
      '(newOutputNodes, newOutputEdges) ←
         splitLoop nodeId node sourceUrl cols cellW cellH trimPx
           (length indicesToExtract) 0 indicesToExtract [] [];
      st ← getState;
      modifyStore (setNodes (nodes st ++ newOutputNodes));;
      modifyStore (setEdges (edges st ++ newOutputEdges));;
      finalizeNode runStartTime nodeId "success"
        {[ "statusMsg" := JStr "Split Done" ]}.

Definition imageSplit (runStartTime : Z) (nodeId : string) (node : Node)
    (inputs : IncomingData) : Run unit :=
  if Nat.eqb (length (images inputs)) 0 then throwError "缺少输入图像"
  else
    updateNode nodeId {[ "statusMsg" := JStr "Processing Split..." ]};;
    let sourceUrl := nth 0 (images inputs) "" in
    let gridType := str_or (n_data node !! "gridType") "2x2" in
    let selectStr := str_or (n_data node !! "gridSelect") "0" in
    let trimPx := num_nullish (n_data node !! "gridTrim") 10%Q in
    img ← ask (fun t => image_onload env t sourceUrl);
    match img with
    | None => throw JUndefined
    | Some (width, height) =>
        splitDecoded runStartTime nodeId node sourceUrl gridType selectStr
          trimPx width height
    end.

(** ** [executeNode]: the provider handlers *)

(** [Promise.all(urls.map(f))], the calls answered in list order. *)
Fixpoint awaitAll {A B : Type} (f : A → Run B) (l : list A) : Run (list B) :=
  match l with
  | [] => mret []
  | x :: l' => y ← f x; ys ← awaitAll f l'; mret (y :: ys)
  end.

(** *** Expert nodes *)

(** The body of [result.outputs?.slice(0, 16).forEach((out, index) => ...)];
    [total] is [result.outputs.length]. *)
Fixpoint expertLoop (nodeId : string) (node : Node) (total : nat) (index : nat)
    (outs : list ExpertOutput) (newResultNodes : list Node)
    (newResultEdges : list Edge) : Run (list Node * list Edge) :=
  match outs with
  | [] => mret (newResultNodes, newResultEdges)
  | out :: outs' =>
      resultId ← ask (randomUUID env);
      let newNode :=
        resultNode resultId node
          ((inject_Z (Z.of_nat index) - (inject_Z (Z.of_nat total) - 1) / 2) * 220)%Q
          {[ "type" := JStr "text"; "label" := JStr (eo_title out);
             "content" := JStr (eo_prompt out); "status" := JStr "idle" ]} in
      expertLoop nodeId node total (S index) outs'
        (newResultNodes ++ [newNode])
        (newResultEdges ++ [resultEdge nodeId resultId "text"])
  end.

Definition expert (runStartTime : Z) (nodeId : string) (node : Node)
    (fullPrompt : string) (geminiImages : list InlineImage) : Run unit :=
  let expertType :=
    if String.eqb (n_type node) "aiExpert"
    then str_field (n_data node !! "expertType")
    else Some (toLowerCase (replace_first "expert" "" (n_type node))) in
  let systemInstruction :=
    match opt_truthy (EXPERT_INSTRUCTIONS !! default "undefined" expertType) with
    | Some s => s
    | None => default "undefined" (EXPERT_INSTRUCTIONS !! "default")
    end in
  let systemInstruction :=
    if bool_decide (expertType = Some "storyboard")
       && field_truthy (n_data node !! "storyboardConsistency")
    then systemInstruction +:+ LF +:+ LF +:+ "CRITICAL INSTRUCTION: User has requested SPACE CONSISTENCY. You MUST ensure that all output frames share the EXACT SAME environment, lighting, and atmosphere description. Only the camera angle and character movement should change."
    else systemInstruction in
  let lang := str_or (n_data node !! "outputLang") "zh" in
  let systemInstruction :=
    systemInstruction +:+ LF +:+ LF
      +:+ "LANGUAGE REQUIREMENT: You MUST output all analysis text and keyword content in "
      +:+ (if String.eqb lang "en" then "English" else "Chinese") +:+ "." in
  result ← call (fun t => geminiTextExpert env t (opt_or (Some fullPrompt) "Start creation")
                            systemInstruction geminiImages);
  finalizeNode runStartTime nodeId "success"
    {[ "content" := er_displaySummary result; "statusMsg" := JStr "Success" ]};;
  '(newResultNodes, newResultEdges) ←
     match er_outputs result with
     | Some outputs => expertLoop nodeId node (length outputs) 0 (take 16 outputs) [] []
     | None => mret ([], [])
     end;
  st ← getState;
  modifyStore (setNodes (nodes st ++ newResultNodes));;
  modifyStore (setEdges (edges st ++ newResultEdges)).

(** *** The poll closures *)

(** [(a || b || '').toString().toUpperCase()] *)
Definition rawStatusOf (status state : option string) : string :=
  toUpperCase (opt_or status (opt_or state "")).

Definition isDoneStatus (rawStatus : string) : bool :=
  bool_decide (rawStatus ∈ ["SUCCESS"; "FINISHED"; "SUCCEEDED"; "COMPLETED"; "DONE"]).

(** [resObj.data || resObj] *)
Definition taskInfoOf (resObj : ComflyImageResObj) : ComflyImageTask :=
  match resObj with
  | Wrapped taskInfo => taskInfo
  | Bare status state fail_reason progress url result =>
      {| cit_status := status; cit_state := state; cit_fail_reason := fail_reason;
         cit_progress := progress; cit_data_data_0_url := None;
         cit_url := url; cit_result := result |}
  end.

(** [parseInt(progStr.replace('%',''), 10) || 0] *)
Definition progNumOf (progStr : string) : Z :=
  default 0%Z (parseInt10 (replace_first "%" "" progStr)).

(** [fetch(url)], [blob()] and the upload to imgBB of a remote result. *)
Definition rehost (remoteUrl : option string) : Run (string * string) :=
  let url := default "undefined" remoteUrl in
  call (fun t => fetch_blob env t url);;
  uploadToImgBB env (RemoteBlob url) (imgbbKey settings) None.

Definition pollComflyImage (task : PollTask) : Run unit :=
  let nodeId := pt_nodeId task in
  resObj ← call (fun t => pollComflyImageResult env t (pt_taskId task) (comflyKey settings));
  let taskInfo := taskInfoOf resObj in
  let rawStatus := rawStatusOf (cit_status taskInfo) (cit_state taskInfo) in
  let isDone := isDoneStatus rawStatus in
  let isFailed := bool_decide (rawStatus ∈ ["FAILED"; "ERROR"; "FAILURE"]) in
  let remoteUrl :=
    match opt_truthy (cit_data_data_0_url taskInfo), opt_truthy (cit_url taskInfo) with
    | Some u, _ => Some u
    | None, Some u => Some u
    | None, None => cit_result taskInfo
    end in
  if isFailed then
    finalizeNode (pt_runStartTime task) nodeId "error"
      {[ "statusMsg" := JStr (opt_or (cit_fail_reason taskInfo) "Generation Failed") ]}
  else if isDone || bool_decide (is_Some (opt_truthy remoteUrl)) then
    if negb (bool_decide (is_Some (opt_truthy remoteUrl))) then
      finalizeNode (pt_runStartTime task) nodeId "error"
        {[ "statusMsg" := JStr "No URL found in success result" ]}
    else
      updateNode nodeId {[ "statusMsg" := JStr "Uploading Result..." ]};;
      '(finalUrl, mediumUrl) ← rehost remoteUrl;
      finalizeNode (pt_runStartTime task) nodeId "success"
        {[ "url" := JStr finalUrl; "mediumUrl" := JStr mediumUrl;
           "progress" := JNum 100; "statusMsg" := JStr "Done" ]};;
      materializeOne nodeId (pt_node task) "image"
        {[ "type" := JStr "image"; "url" := JStr finalUrl;
           "mediumUrl" := JStr mediumUrl; "status" := JStr "idle" ]}
  else
    let progStr := opt_or (cit_progress taskInfo) "0%" in
    let progNum := progNumOf progStr in
    updateNode nodeId {[ "progress" := JNum (inject_Z progNum);
                         "statusMsg" := JStr (opt_or (Some progStr) "Processing...") ]};;
    schedule 3000 task.

(** [result.progress] and [`${result.progress}%`] *)
Definition grsaiProgressPatch (result : GrsaiResult) : gmap string jsval :=
  {[ "progress" := match gr_progress result with
                   | Some p => JNum (inject_Z p)
                   | None => JUndefined
                   end;
     "statusMsg" := JStr (match gr_progress result with
                          | Some p => string_of_Z p
                          | None => "undefined"
                          end +:+ "%") ]}.

Definition pollGrsaiImage (task : PollTask) : Run unit :=
  let nodeId := pt_nodeId task in
  result ← call (fun t => pollGrsaiResult env t (pt_taskId task) (grsaiKey settings));
  if bool_decide (gr_status result = Some "failed") then
    finalizeNode (pt_runStartTime task) nodeId "error"
      {[ "statusMsg" := JStr "Violated/Failed" ]}
  else if bool_decide (gr_status result = Some "succeeded") then
    '(url, mediumUrl) ← rehost (gr_results_0_url result);
    finalizeNode (pt_runStartTime task) nodeId "success"
      {[ "url" := JStr url; "mediumUrl" := JStr mediumUrl;
         "progress" := JNum 100; "statusMsg" := JStr "Done" ]};;
    materializeOne nodeId (pt_node task) "image"
      {[ "type" := JStr "image"; "url" := JStr url;
         "mediumUrl" := JStr mediumUrl; "status" := JStr "idle" ]}
  else
    updateNode nodeId (grsaiProgressPatch result);;
    schedule 3000 task.

Definition pollComflyVideo (task : PollTask) : Run unit :=
  let nodeId := pt_nodeId task in
  result ← call (fun t => pollComflyResult env t (pt_taskId task) (comflyKey settings));
  let rawStatus := rawStatusOf (cv_status result) (cv_state result) in
  let isDone := isDoneStatus rawStatus in
  if String.eqb rawStatus "FAILURE" || String.eqb rawStatus "FAILED" then
    finalizeNode (pt_runStartTime task) nodeId "error"
      {[ "statusMsg" := JStr (opt_or (cv_fail_reason result) "Generation Failed") ]}
  else if isDone
          || match cv_data result with
             | Some d => bool_decide (is_Some (opt_truthy (cvd_output d)))
                         || bool_decide (is_Some (opt_truthy (cvd_url d)))
             | None => false
             end then
    let url :=
      match cv_data result with
      | Some d =>
          match opt_truthy (cvd_output d), opt_truthy (cvd_url d) with
          | Some u, _ => JStr u
          | None, Some u => JStr u
          | None, None => js_of_opt (cvd_outputs d)
          end
      | None => JUndefined
      end in
    finalizeNode (pt_runStartTime task) nodeId "success"
      {[ "url" := url; "progress" := JNum 100; "statusMsg" := JStr "Success" ]};;
    materializeOne nodeId (pt_node task) "video"
      {[ "type" := JStr "video"; "url" := url; "status" := JStr "idle" ]}
  else
    let progStr := opt_or (cv_progress result) "0%" in
    let progNum := progNumOf progStr in
    updateNode nodeId {[ "progress" := JNum (inject_Z progNum);
                         "statusMsg" := JStr (opt_or (Some progStr) "In Progress") ]};;
    schedule 4000 task.

Definition pollGrsaiVideo (task : PollTask) : Run unit :=
  let nodeId := pt_nodeId task in
  result ← call (fun t => pollGrsaiResult env t (pt_taskId task) (grsaiKey settings));
  if bool_decide (gr_status result = Some "failed") then
    finalizeNode (pt_runStartTime task) nodeId "error"
      {[ "statusMsg" := JStr "Generation Failed" ]}
  else if bool_decide (gr_status result = Some "succeeded") then
    let url :=
      match opt_truthy (gr_url result) with
      | Some u => JStr u
      | None => js_of_opt (gr_results_0_url result)
      end in
    finalizeNode (pt_runStartTime task) nodeId "success"
      {[ "url" := url; "progress" := JNum 100; "statusMsg" := JStr "Success" ]};;
    materializeOne nodeId (pt_node task) "video"
      {[ "type" := JStr "video"; "url" := url; "status" := JStr "idle" ]}
  else
    updateNode nodeId (grsaiProgressPatch result);;
    schedule 3000 task.

(** One call of a [poll] closure. *)
Definition poll (task : PollTask) : Run unit :=
  match pt_path task with
  | ComflyImage => pollComflyImage task
  | GrsaiImage => pollGrsaiImage task
  | ComflyVideo => pollComflyVideo task
  | GrsaiVideo => pollGrsaiVideo task
  end.

(** The start of polling: [poll();] *)
Definition startPoll (path : PollPath) (taskId : string) (runStartTime : Z)
    (nodeId : string) (node : Node) : Run unit :=
  schedule 0 {| pt_path := path; pt_taskId := taskId; pt_nodeId := nodeId;
                pt_node := node; pt_runStartTime := runStartTime |}.

(** [model.split(':')[1]] *)
Definition afterColon (model : string) : string :=
  nth 1 (split_char ":" EmptyString model) "undefined".

(** *** Image generator *)

Definition aiImageGen (runStartTime : Z) (nodeId : string) (node : Node)
    (inputs : IncomingData) (fullPrompt targetAspectRatio : string)
    (isGeminiNative : bool) (geminiImages : list InlineImage) : Run unit :=
  let model := str_field (n_data node !! "model") in
  let isComflyDraw := match model with
                      | Some m => startsWith "comfly:" m
                      | None => false
                      end in
  if isGeminiNative then
    base64Image ← call (fun t => geminiNativeImageGen env t
                                   (opt_or (Some fullPrompt) "A masterpiece")
                                   targetAspectRatio
                                   (str_field (n_data node !! "imageSize"))
                                   geminiImages);
    '(url, mediumUrl) ← uploadToImgBB env (DataUri base64Image) (imgbbKey settings) None;
    finalizeNode runStartTime nodeId "success"
      {[ "url" := JStr url; "mediumUrl" := JStr mediumUrl;
         "progress" := JNum 100; "statusMsg" := JStr "Success" ]};;
    materializeOne nodeId node "image"
      {[ "type" := JStr "image"; "url" := JStr url;
         "mediumUrl" := JStr mediumUrl; "status" := JStr "idle" ]}
  else if isComflyDraw then
    let params :=
      {| dp_model := afterColon (default "" model);
         dp_prompt := opt_or (Some fullPrompt) "Masterpiece";
         dp_aspectRatio := targetAspectRatio;
         dp_imageSize := Some (str_or (n_data node !! "imageSize") "1K");
         dp_urls := images inputs;
         dp_apiKey := comflyKey settings |} in
    if bool_nullish (n_data node !! "comflyAsync") true then
      updateNode nodeId {[ "statusMsg" := JStr "Queueing Task..." ]};;
      taskId ← call (fun t => comflyDrawTask env t params);
      startPoll ComflyImage taskId runStartTime nodeId node
    else
      url ← call (fun t => comflyDraw env t params);
      '(finalUrl, mediumUrl) ← rehost (Some url);
      finalizeNode runStartTime nodeId "success"
        {[ "url" := JStr finalUrl; "mediumUrl" := JStr mediumUrl;
           "progress" := JNum 100; "statusMsg" := JStr "Done" ]};;
      materializeOne nodeId node "image"
        {[ "type" := JStr "image"; "url" := JStr finalUrl;
           "mediumUrl" := JStr mediumUrl; "status" := JStr "idle" ]}
  else
    taskId ← call (fun t => grsaiDraw env t
               {| dp_model := default "undefined" model;
                  dp_prompt := opt_or (Some fullPrompt) "Masterpiece";
                  dp_aspectRatio := targetAspectRatio;
                  dp_imageSize := str_field (n_data node !! "imageSize");
                  dp_urls := images inputs;
                  dp_apiKey := grsaiKey settings |});
    startPoll GrsaiImage taskId runStartTime nodeId node.

(** *** Video generator *)

Definition modeMsgOf (inputs : IncomingData) : string :=
  if Nat.eqb (length (images inputs)) 1 then "First Frame Mode..."
  else if Nat.eqb (length (images inputs)) 2 then "I2V Start-End Mode..."
  else if Nat.leb 3 (length (images inputs)) then "Reference Image Mode..."
  else "Generating...".

Definition aiVideoGen (runStartTime : Z) (nodeId : string) (node : Node)
    (inputs : IncomingData) (fullPrompt targetAspectRatio : string) : Run unit :=
  let model := str_field (n_data node !! "model") in
  let isComfly := match model with
                  | Some m => startsWith "comfly:" m
                  | None => false
                  end in
  let actualModel := if isComfly then afterColon (default "" model)
                     else opt_or model "veo3.1-fast" in
  updateNode nodeId {[ "statusMsg" := JStr (modeMsgOf inputs) ]};;
  if isComfly then
    taskId ← comflyVideo env
      {| cparams_model := actualModel;
         cparams_prompt := opt_or (Some fullPrompt) "Cinematic masterpiece";
         cparams_urls := Some (images inputs);
         cparams_aspectRatio := targetAspectRatio;
         cparams_apiKey := comflyKey settings;
         cparams_enable_upsample :=
           if bool_decide (str_field (n_data node !! "resolution") = Some "1080p")
              && String.eqb actualModel "veo3.1-fast"
           then Some true else None |};
    startPoll ComflyVideo taskId runStartTime nodeId node
  else
    taskId ← grsaiVideo env
      {| gv_model := actualModel;
         gv_prompt := opt_or (Some fullPrompt) "Cinematic masterpiece";
         gv_urls := Some (images inputs);
         gv_aspectRatio := targetAspectRatio;
         gv_resolution := str_field (n_data node !! "resolution");
         gv_durationSeconds := str_field (n_data node !! "durationSeconds");
         gv_apiKey := grsaiKey settings |};
    startPoll GrsaiVideo taskId runStartTime nodeId node.

(** *** [executeNode] *)

(** The prompt with the image remarks in front: remark number [idx] is
    announced as the information of image [idx + 1]. *)
Definition remarksPrompt (fullPrompt : string) (remarks : list string) : string :=
  let remarksSection :=
    String.concat LF
      (imap (fun idx rem =>
               "[图片" +:+ string_of_Z (Z.of_nat idx + 1) +:+ "参考信息]: " +:+ rem)
            remarks) in
  "以下是输入图像的背景补充信息，请在分析时结合使用：" +:+ LF +:+ remarksSection
    +:+ LF +:+ LF +:+ "用户主要要求：" +:+ LF
    +:+ opt_or (Some fullPrompt) "无具体文字要求，请根据图像进行创作分析。".

(** The block under [try]. *)
Definition executeBody (runStartTime : Z) (nodeId : string) (node : Node)
    (inputs : IncomingData) (fullPrompt targetAspectRatio : string) : Run unit :=
  if String.eqb (n_type node) "promptMerge" then promptMerge runStartTime nodeId node
  else if String.eqb (n_type node) "imageSplit" then
    imageSplit runStartTime nodeId node inputs
  else
    let isExpert := startsWith "expert" (n_type node)
                    || String.eqb (n_type node) "aiExpert" in
    let isGeminiNative :=
      String.eqb (n_type node) "aiImageGen"
      && bool_decide (str_field (n_data node !! "model") = Some "gemini-native") in
    geminiImages ←
      (if (isExpert || isGeminiNative) && Nat.ltb 0 (length (images inputs)) then
         updateNode nodeId {[ "statusMsg" := JStr "Processing Media..." ]};;
         awaitAll (fun url => call (fun t => fetchImageAsBase64 env t url))
                  (images inputs)
       else mret []);
    (if isExpert then expert runStartTime nodeId node fullPrompt geminiImages
     else mret tt);;
    (if String.eqb (n_type node) "aiImageGen" then
       aiImageGen runStartTime nodeId node inputs fullPrompt targetAspectRatio
         isGeminiNative geminiImages
     else mret tt);;
    (if String.eqb (n_type node) "aiVideoGen" then
       aiVideoGen runStartTime nodeId node inputs fullPrompt targetAspectRatio
     else mret tt).

(** [fullPrompt]: the texts joined by a blank line, behind the remarks when
    the node reads them and there is one. *)
Definition fullPromptOf (node : Node) (inputs : IncomingData) : string :=
  let fullPrompt := String.concat (LF +:+ LF) (texts inputs) in
  if field_truthy (n_data node !! "readImageRemarks")
     && Nat.ltb 0 (length (imageRemarks inputs))
  then remarksPrompt fullPrompt (imageRemarks inputs)
  else fullPrompt.

(** The first update of a run. *)
Definition runningPatch (runStartTime : Z) : gmap string jsval :=
  {[ "status" := JStr "loading"; "progress" := JNum 0;
     "statusMsg" := JStr "Running..."; "startTime" := JNum (inject_Z runStartTime);
     "duration" := JUndefined ]}.

Definition executeNode (nodeId : string) : Run unit :=
  st ← getState;
  match findNode (nodes st) nodeId with
  | None => mret tt
  | Some node =>
      if bool_decide (n_type node ∈
           ["inputText"; "inputImage"; "outputResult"; "imageProcessing"])
      then mret tt
      else
        let inputs := getIncomingData st nodeId in
        let fullPrompt := fullPromptOf node inputs in
        let targetAspectRatio :=
          str_or (n_data node !! "aspectRatio") (aspectRatio settings) in
        runStartTime ← ask (Date_now env);
        updateNode nodeId (runningPatch runStartTime);;
        tryCatch
          (executeBody runStartTime nodeId node inputs fullPrompt targetAspectRatio)
          (fun message =>
             finalizeNode runStartTime nodeId "error" {[ "statusMsg" := message ]})
  end.

(** *** The event loop *)

(** A call [executeNode(id)] from the interface: nobody awaits its promise. *)
Definition runNode (nodeId : string) (w : World) : World :=
  fst (executeNode nodeId w).

(** The oldest scheduled [poll] runs. What it throws rejects a promise that
    nobody awaits: the error is dropped, and the closure has not scheduled
    itself again. *)
Definition fireTimer (w : World) : World :=
  match timers w with
  | [] => w
  | (_, task) :: rest =>
      fst (poll task {| store := store w; canvas := canvas w;
                        timers := rest; clock := clock w |})
  end.

Fixpoint fireTimers (turns : nat) (w : World) : World :=
  match turns with
  | O => w
  | S k => fireTimers k (fireTimer w)
  end.
End Engine.

(** [node.data.status] and [node.data.statusMsg] of the first node with the id. *)
Definition statusOf (st : Store) (nodeId : string) : option jsval :=
  n ← findNode (nodes st) nodeId; n_data n !! "status".

Definition statusMsgOf (st : Store) (nodeId : string) : option jsval :=
  n ← findNode (nodes st) nodeId; n_data n !! "statusMsg".

(** ** Notions used in the statements *)

(** The artifact URL and the remark of an edge's source node, as the resolver
    reads them. *)
Definition sourceUrl (st : Store) (e : Edge) : option string :=
  n ← findNode (nodes st) (e_source e); truthy_str (n_data n !! "url").

Definition sourceRemark (st : Store) (e : Edge) : option string :=
  n ← findNode (nodes st) (e_source e); truthy_str (n_data n !! "remark").

(** The incoming edges of a node on its handle "image", in the order of the
    edge collection. *)
Definition imageEdgesOf (st : Store) (targetNodeId : string) : list Edge :=
  List.filter
    (fun e => bool_decide (e_target e = targetNodeId ∧ e_targetHandle e = Some "image"))
    (edges st).

(** *** The selection string, in the words of the specification *)

(** A run of white-space characters. *)
Inductive White : string → Prop :=
  | White_nil : White ""
  | White_cons (c s : string) : In c whiteSpace → White s → White (c +:+ s).

(** "The selection string trims to 0": it is the digit 0 between two runs
    of white space. *)
Definition trimsToZero (selectStr : string) : Prop :=
  ∃ l r : string, White l ∧ White r ∧ selectStr = l +:+ "0" +:+ r.

(** A comma or a white-space character stands at the start of [s]. *)
Definition startsWithSeparator (s : string) : Prop :=
  ∃ sep rest : string, In sep separators ∧ s = sep +:+ rest.

(** A run of commas and white-space characters. *)
Inductive Gap : string → Prop :=
  | Gap_nil : Gap ""
  | Gap_cons (sep s : string) : In sep separators → Gap s → Gap (sep +:+ s).

(** No separator starts at a place of [f], in front of [rest]. *)
Definition NoSep (f rest : string) : Prop :=
  ∀ a b : string, f = a +:+ b → b ≠ "" → ¬ startsWithSeparator (b +:+ rest).

(** [f] is a field in front of [rest]: it is not empty and no separator
    starts at one of its places. *)
Definition Field (f rest : string) : Prop := f ≠ "" ∧ NoSep f rest.

(** The fields of a string are what stands between its commas and white
    space: each field goes up to the next separator or to the end. *)
Inductive Fields : string → list string → Prop :=
  | Fields_nil (g : string) : Gap g → Fields g []
  | Fields_cons (g f rest : string) (fs : list string) :
      Gap g → Field f rest → rest = "" ∨ startsWithSeparator rest →
      Fields rest fs → Fields (g +:+ f +:+ rest) (f :: fs).

(** The integer a field starts with: an optional sign, then the longest run
    of decimal digits, read in base ten; nothing without a digit. *)
Definition digitValue (c : ascii) : option Z :=
  Z.of_nat <$> String.index 0 (String c EmptyString) "0123456789".

Fixpoint leadingDigits (s : string) : list Z :=
  match s with
  | EmptyString => []
  | String c s' => match digitValue c with
                   | Some d => d :: leadingDigits s'
                   | None => []
                   end
  end.

Fixpoint decimal (ds : list Z) : Z :=
  match ds with
  | [] => 0
  | d :: ds' => d * 10 ^ Z.of_nat (length ds') + decimal ds'
  end%Z.

Definition signedDecimal (sign : Z) (body : string) : option Z :=
  match leadingDigits body with
  | [] => None
  | ds => Some (sign * decimal ds)%Z
  end.

Definition leadingInteger (f : string) : option Z :=
  match f with
  | String "-" body => signedDecimal (-1) body
  | String "+" body => signedDecimal 1 body
  | _ => signedDecimal 1 f
  end.

(** "The integers parsed from the string": the integers its fields start
    with, a field without one giving nothing. The handler's own list is
    [indicesToExtractOf]. *)
Definition parsedIntegers (fields : list string) : list Z :=
  omap leadingInteger fields.

Definition nonEmpty (t : string) : bool := negb (String.eqb t "").

(** [NoSep], decided. *)
Fixpoint noSeparatorIn (f rest : string) : bool :=
  match f with
  | EmptyString => true
  | String c f' =>
      Nat.eqb (sep_width (f +:+ rest)) 0 && noSeparatorIn f' rest
  end.

(** An environment that decodes images with [f] and is [env] otherwise. *)
Definition withImageOnload (env : Env) (f : nat → string → option (Z * Z)) : Env :=
  {| Date_now := Date_now env; randomUUID := randomUUID env;
     image_onload := f; canvas_getContext := canvas_getContext env;
     imgbb_fetch := imgbb_fetch env; fetch_blob := fetch_blob env;
     fetchImageAsBase64 := fetchImageAsBase64 env;
     geminiTextExpert := geminiTextExpert env;
     geminiNativeImageGen := geminiNativeImageGen env;
     grsaiDraw := grsaiDraw env; comflyDrawTask := comflyDrawTask env;
     comflyDraw := comflyDraw env; grsai_video_fetch := grsai_video_fetch env;
     comfly_video_fetch := comfly_video_fetch env;
     pollGrsaiResult := pollGrsaiResult env;
     pollComflyImageResult := pollComflyImageResult env;
     pollComflyResult := pollComflyResult env |}.

(** *** Concrete graphs and environments *)

Definition mkNode (nodeId type : string) (data : gmap string jsval) : Node :=
  {| n_id := nodeId; n_type := type;
     n_position := {| pos_x := 0; pos_y := 0 |};
     n_selected := false; n_data := data |}.

Definition imageEdge (edgeId source target : string) (ord : Z) : Edge :=
  {| e_id := edgeId; e_source := source; e_target := target;
     e_sourceHandle := Some "image"; e_targetHandle := Some "image";
     e_data := Some {| order := Some ord; ed_targetHandle := Some "image" |} |}.

(** Two image inputs into an expert node; only the second carries a remark. *)
Definition remarkStore : Store :=
  {| nodes := [ mkNode "img1" "inputImage" {[ "url" := JStr "u1" ]};
                mkNode "img2" "inputImage" {[ "url" := JStr "u2"; "remark" := JStr "r2" ]};
                mkNode "x" "aiExpert" {[ "readImageRemarks" := JBool true ]} ];
     edges := [ imageEdge "e1" "img1" "x" 1; imageEdge "e2" "img2" "x" 2 ] |}.

(** The world when the splitter's image is decoded: the status message is
    set and one question has been asked. *)
Definition decodedWorld (nodeId : string) (w : World) : World :=
  {| store := updateNodeData nodeId {[ "statusMsg" := JStr "Processing Split..." ]}
                (store w);
     canvas := canvas w; timers := timers w; clock := S (clock w) |}.

(** The text of the error for a trim that leaves no pixel of a cell. *)
Definition trimTooLarge : jsval := JStr "裁剪边距太大，超出格子尺寸".

(** An outside world in which images are 600 by 600 pixels and uploads
    succeed; the Comfly image poll fails at the network level, the GRSAI poll
    reports a failure with a reason, and the Comfly video poll reports a
    failure without one. *)
Definition sampleEnv : Env :=
  {| Date_now := fun t => (1000 * Z.of_nat t)%Z;
     randomUUID := fun t => "uuid-" +:+ string_of_Z (Z.of_nat t);
     image_onload := fun _ _ => Some (600, 600)%Z;
     canvas_getContext := fun _ => true;
     imgbb_fetch := fun _ _ _ _ =>
       Returned {| ir_success := true; ir_error_message := None;
                   ir_data_url := "https://i.ibb.co/a.png";
                   ir_data_medium_url := None; ir_data_display_url := None |};
     fetch_blob := fun _ _ => Returned tt;
     fetchImageAsBase64 := fun _ _ => Thrown (JStr "Failed to fetch");
     geminiTextExpert := fun _ _ _ _ => Thrown (JStr "Failed to fetch");
     geminiNativeImageGen := fun _ _ _ _ _ => Thrown (JStr "Failed to fetch");
     grsaiDraw := fun _ _ => Returned "task-1";
     comflyDrawTask := fun _ _ => Returned "task-1";
     comflyDraw := fun _ _ => Thrown (JStr "Failed to fetch");
     grsai_video_fetch := fun _ _ _ _ =>
       Returned {| gs_code := 0; gs_msg := None; gs_data_id := "task-1" |};
     comfly_video_fetch := fun _ _ _ =>
       Returned {| cs_task_id := Some "task-1"; cs_data_task_id := None;
                   cs_message := None |};
     pollGrsaiResult := fun _ _ _ =>
       Returned {| gr_status := Some "failed"; gr_progress := None; gr_url := None;
                   gr_results_0_url := None;
                   gr_failure_reason := Some "content policy violation" |};
     pollComflyImageResult := fun _ _ _ => Thrown (JStr "Failed to fetch");
     pollComflyResult := fun _ _ _ =>
       Returned {| cv_status := Some "FAILURE"; cv_state := None;
                   cv_fail_reason := None; cv_progress := None;
                   cv_data := None |} |}.

Definition sampleSettings : AppSettings :=
  {| grsaiKey := "g"; comflyKey := "c"; imgbbKey := "i"; aspectRatio := "16:9" |}.

Definition worldOf (st : Store) : World :=
  {| store := st; canvas := []; timers := []; clock := 0 |}.

(** A 2x2 splitter with trim 160 on one 600 by 600 image: cells of 300 by 300. *)
Definition splitNode : Node :=
  mkNode "s" "imageSplit" {[ "gridType" := JStr "2x2"; "gridTrim" := JNum 160 ]}.

(** A splitter with a grid type and a selection string. *)
Definition selectNode (gridType gridSelect : string) : Node :=
  mkNode "s" "imageSplit"
    {[ "gridType" := JStr gridType; "gridSelect" := JStr gridSelect ]}.

Definition splitStore : Store :=
  {| nodes := [ mkNode "img1" "inputImage" {[ "url" := JStr "u1" ]}; splitNode ];
     edges := [ imageEdge "e1" "img1" "s" 1 ] |}.


(** Image generators: ["c"] on the asynchronous Comfly path, ["d"] on the
    synchronous Comfly path, ["g"] on the GRSAI path; ["v"] is a video
    generator on the Comfly path. *)
Definition generatorStore : Store :=
  {| nodes := [ mkNode "c" "aiImageGen" {[ "model" := JStr "comfly:nano-banana" ]};
                mkNode "d" "aiImageGen" {[ "model" := JStr "comfly:nano-banana";
                                           "comflyAsync" := JBool false ]};
                mkNode "g" "aiImageGen" {[ "model" := JStr "nano-banana" ]};
                mkNode "v" "aiVideoGen" {[ "model" := JStr "comfly:veo3.1-fast" ]} ];
     edges := [] |}.

(** A video generator with four image inputs, in the order a, b, c, d. *)
Definition videoStore (model : string) : Store :=
  {| nodes := [ mkNode "i1" "inputImage" {[ "url" := JStr "a" ]};
                mkNode "i2" "inputImage" {[ "url" := JStr "b" ]};
                mkNode "i3" "inputImage" {[ "url" := JStr "c" ]};
                mkNode "i4" "inputImage" {[ "url" := JStr "d" ]};
                mkNode "v" "aiVideoGen" {[ "model" := JStr model ]} ];
     edges := [ imageEdge "e1" "i1" "v" 1; imageEdge "e2" "i2" "v" 2;
                imageEdge "e3" "i3" "v" 3; imageEdge "e4" "i4" "v" 4 ] |}.

(** In the words of the specification, the image fields of the Veo request
    (first frame, last frame, reference set) for the resolved images. *)
Definition veoImageFields (imgs : list string)
    : string * string * option (list string) :=
  match imgs with
  | [] => ("", "", None)
  | [a] => (a, "", None)
  | [a; b] => (a, b, None)
  | a :: b :: c :: _ => ("", "", Some [a; b; c])
  end.

Definition fourImages : ComflyVideoParams :=
  {| cparams_model := "veo3.1-fast"; cparams_prompt := "p";
     cparams_urls := Some ["a"; "b"; "c"; "d"]; cparams_aspectRatio := "16:9";
     cparams_apiKey := "c"; cparams_enable_upsample := None |}.

(** The world after one question. *)
Definition tick (w : World) : World :=
  {| store := store w; canvas := canvas w; timers := timers w; clock := S (clock w) |}.

(** The world in which a generator node has been started and its first
    [poll] call is pending. *)
Definition startedWorld (nodeId : string) : World :=
  runNode sampleEnv sampleSettings ∅ nodeId (worldOf generatorStore).

(** The [poll] closure of the GRSAI image generator ["g"]. *)
Definition grsaiImageTask : PollTask :=
  {| pt_path := GrsaiImage; pt_taskId := "task-1"; pt_nodeId := "g";
     pt_node := mkNode "g" "aiImageGen" {[ "model" := JStr "nano-banana" ]};
     pt_runStartTime := 0 |}.

(** *** Relations between the worlds before and after a step *)

Definition Keeps (R : World → World → Prop) {A : Type} (m : Run A) : Prop :=
  ∀ (w w' : World) (o : outcome A), m w = (w', o) → R w w'.



(** ** The other operations of the store *)

(** [deleteNode]: the nodes with the id go, and every edge from or to it. *)
Definition deleteNode (nodeId : string) (st : Store) : Store :=
  {| nodes := List.filter (fun n => negb (String.eqb (n_id n) nodeId)) (nodes st);
     edges := List.filter (fun e => negb (String.eqb (e_source e) nodeId)
                                    && negb (String.eqb (e_target e) nodeId))
                (edges st) |}.

(** [deleteEdges]: the edges whose id is the id of one of [edgesToDelete]. *)
Definition deleteEdges (edgesToDelete : list Edge) (st : Store) : Store :=
  let edgeIdsToDelete := List.map e_id edgesToDelete in
  {| nodes := nodes st;
     edges := List.filter
                (fun e => negb (existsb (String.eqb (e_id e)) edgeIdsToDelete))
                (edges st) |}.

(** [deleteSelected]. The flag [selected] of an edge belongs to the interface
    library and is not a field of [Edge]: it is read through [edgeSelected]. *)
Definition deleteSelected (edgeSelected : Edge → bool) (st : Store) : Store :=
  let selectedNodeIds := List.map n_id (List.filter n_selected (nodes st)) in
  let selectedEdgeIds := List.map e_id (List.filter edgeSelected (edges st)) in
  if Nat.eqb (length selectedNodeIds) 0 && Nat.eqb (length selectedEdgeIds) 0 then st
  else
    {| nodes := List.filter
                  (fun n => negb (existsb (String.eqb (n_id n)) selectedNodeIds))
                  (nodes st);
       edges := List.filter
                  (fun e => negb (existsb (String.eqb (e_id e)) selectedEdgeIds)
                            && negb (existsb (String.eqb (e_source e)) selectedNodeIds)
                            && negb (existsb (String.eqb (e_target e)) selectedNodeIds))
                  (edges st) |}.

(** [duplicateNode]; [newNodeId] is the answer of [crypto.randomUUID()]. *)
Definition duplicateNode (newNodeId nodeId : string) (st : Store) : Store :=
  match findNode (nodes st) nodeId with
  | None => st
  | Some nodeToCopy =>
      let newNode :=
        {| n_id := newNodeId;
           n_type := n_type nodeToCopy;
           n_position := {| pos_x := (pos_x (n_position nodeToCopy) + 40)%Q;
                            pos_y := (pos_y (n_position nodeToCopy) + 40)%Q |};
           n_selected := false;
           n_data := {[ "status" := JStr "idle"; "progress" := JNum 0;
                        "statusMsg" := JUndefined ]} ∪ n_data nodeToCopy |} in
      {| nodes := nodes st ++ [newNode]; edges := edges st |}
  end.

(** ** Projects *)

Record Viewport := { view_x : Q; view_y : Q; view_zoom : Q }.

Definition defaultViewport : Viewport := {| view_x := 0; view_y := 0; view_zoom := 1 |}.

(** A project; [p_viewport = None] is a project without the field, as an
    imported file may be. *)
Record Project := {
  p_id : string;
  p_name : string;
  p_nodes : list Node;
  p_edges : list Edge;
  p_viewport : option Viewport
}.

(** The graph with the project fields of [WorkflowState]. The functions
    below give the state that [set] leaves; [saveProject], [importProject]
    and [deleteProject] then write the project list to [localStorage], which
    is not part of the model: when that write throws, the state is already
    the one given here. *)
Record Workspace := {
  ws_store : Store;
  ws_projects : list Project;
  ws_currentProjectId : option string;
  ws_viewport : Viewport
}.

(** The node as [saveProject] writes it: a running node becomes idle, the
    progress is 0 and the status message is dropped. *)
Definition cleanedNode (node : Node) : Node :=
  with_data node
    ({[ "status" := match n_data node !! "status" with
                    | Some (JStr s) => if String.eqb s "loading" then JStr "idle"
                                       else JStr s
                    | Some v => v
                    | None => JUndefined
                    end;
        "progress" := JNum 0;
        "statusMsg" := JUndefined ]} ∪ n_data node).

Definition withoutProject (projectId : string) (ps : list Project) : list Project :=
  List.filter (fun p => negb (String.eqb (p_id p) projectId)) ps.

(** [saveProject(name)]; [freshId] is the answer of [crypto.randomUUID()],
    used when no project is current. The result is the new state and the id
    the function returns once the project list is written. *)
Definition saveProject (freshId name : string) (ws : Workspace) : Workspace * string :=
  let projectId := opt_or (ws_currentProjectId ws) freshId in
  let cleanedNodes := List.map cleanedNode (nodes (ws_store ws)) in
  let newProject :=
    {| p_id := projectId; p_name := name; p_nodes := cleanedNodes;
       p_edges := edges (ws_store ws); p_viewport := Some (ws_viewport ws) |} in
  let updatedProjects := withoutProject projectId (ws_projects ws) ++ [newProject] in
  ({| ws_store := ws_store ws; ws_projects := updatedProjects;
      ws_currentProjectId := Some projectId; ws_viewport := ws_viewport ws |},
   projectId).

Definition importProject (projectData : Project) (ws : Workspace) : Workspace :=
  let viewport := default defaultViewport (p_viewport projectData) in
  let projectWithViewport :=
    {| p_id := p_id projectData; p_name := p_name projectData;
       p_nodes := p_nodes projectData; p_edges := p_edges projectData;
       p_viewport := Some viewport |} in
  let updatedProjects :=
    withoutProject (p_id projectData) (ws_projects ws) ++ [projectWithViewport] in
  {| ws_store := {| nodes := p_nodes projectData; edges := p_edges projectData |};
     ws_projects := updatedProjects;
     ws_currentProjectId := Some (p_id projectData);
     ws_viewport := viewport |}.

Definition loadProject (projectId : string) (ws : Workspace) : Workspace :=
  match List.find (fun p => String.eqb (p_id p) projectId) (ws_projects ws) with
  | Some project =>
      {| ws_store := {| nodes := p_nodes project; edges := p_edges project |};
         ws_projects := ws_projects ws;
         ws_currentProjectId := Some projectId;
         ws_viewport := default defaultViewport (p_viewport project) |}
  | None => ws
  end.

Definition newProject (ws : Workspace) : Workspace :=
  {| ws_store := {| nodes := []; edges := [] |};
     ws_projects := ws_projects ws;
     ws_currentProjectId := None;
     ws_viewport := defaultViewport |}.

Definition deleteProject (projectId : string) (ws : Workspace) : Workspace :=
  let updated := withoutProject projectId (ws_projects ws) in
  {| ws_store := ws_store ws;
     ws_projects := updated;
     ws_currentProjectId :=
       if bool_decide (ws_currentProjectId ws = Some projectId) then None
       else ws_currentProjectId ws;
     ws_viewport := ws_viewport ws |}.

(** ** Connecting nodes: [onConnect] of the flow container *)

(** [needsOrder]: the handle is "image" or "sequence". *)
Definition needsOrder (targetHandle : option string) : bool :=
  bool_decide (targetHandle = Some "image") || bool_decide (targetHandle = Some "sequence").

(** The edges of the collection with the connection's target and handle. *)
Definition sameTargetEdges (target : string) (targetHandle : option string)
    (es : list Edge) : list Edge :=
  List.filter (fun e => String.eqb (e_target e) target
                        && bool_decide (e_targetHandle e = targetHandle)) es.

(** [storeOnConnect({ ...params, source, data: { order, targetHandle } })] *)
Definition connectWith (source target : string) (sourceHandle targetHandle : option string)
    (ord : option Z) (st : Store) : Store :=
  onConnect {| c_id := None; c_source := source; c_target := target;
               c_sourceHandle := sourceHandle; c_targetHandle := targetHandle;
               c_data := Some {| order := ord; ed_targetHandle := targetHandle |} |} st.

(** The body of [sortedSelectedNodes.forEach]: the state is the store and
    [baseOrder]. *)
Definition connectSelected (target : string) (sourceHandle targetHandle : option string)
    (acc : Store * Z) (node : Node) : Store * Z :=
  let '(st, baseOrder) := acc in
  if String.eqb (n_id node) target then acc
  else if needsOrder targetHandle then
    (connectWith (n_id node) target sourceHandle targetHandle (Some (baseOrder + 1)%Z) st,
     (baseOrder + 1)%Z)
  else (connectWith (n_id node) target sourceHandle targetHandle None st, baseOrder).

(** [(a, b) => a.position.y - b.position.y], as the sign of the difference. *)
Definition byPositionY (a b : Node) : Z :=
  Qnum (pos_y (n_position a) - pos_y (n_position b)).

(** [onConnect(params)] of [FlowContainer]; [st] is the state read at its
    start. *)
Definition App_onConnect (source target : string) (sourceHandle targetHandle : option string)
    (st : Store) : Store :=
  let selectedNodes := List.filter n_selected (nodes st) in
  let isSourceSelected := existsb (fun n => String.eqb (n_id n) source) selectedNodes in
  if isSourceSelected && Nat.ltb 1 (length selectedNodes) then
    let sortedSelectedNodes := js_sort byPositionY selectedNodes in
    let baseOrder :=
      Z.of_nat (length (sameTargetEdges target targetHandle (edges st))) in
    fst (fold_left (connectSelected target sourceHandle targetHandle)
           sortedSelectedNodes (st, baseOrder))
  else
    let targetEdges := sameTargetEdges target targetHandle (edges st) in
    let ord := if needsOrder targetHandle
               then Some (Z.of_nat (length targetEdges) + 1)%Z else None in
    connectWith source target sourceHandle targetHandle ord st.

(** ** More of [src/services/apiService.ts] *)

(** The table [sizes] of [mapToComflySize], with its own keys. *)
Definition comflySizes : list (string * list (string * string)) :=
  [ ("1:1",  [ ("1K", "1024x1024"); ("2K", "1536x1536"); ("4K", "2048x2048") ]);
    ("16:9", [ ("1K", "1280x720");  ("2K", "1920x1080"); ("4K", "2560x1440") ]);
    ("9:16", [ ("1K", "720x1280");  ("2K", "1080x1920"); ("4K", "1440x2560") ]);
    ("4:3",  [ ("1K", "1024x768");  ("2K", "1440x1080"); ("4K", "2048x1536") ]);
    ("3:4",  [ ("1K", "768x1024");  ("2K", "1080x1440"); ("4K", "1536x2048") ]) ].

(** [obj[key]] on a table of own keys. *)
Fixpoint assoc {A : Type} (key : string) (l : list (string * A)) : option A :=
  match l with
  | [] => None
  | (k, v) :: l' => if String.eqb k key then Some v else assoc key l'
  end.

(** The property names a plain object inherits from [Object.prototype]
    (the language's own, in a page that adds none). *)
Definition objectPrototypeKeys : list string :=
  [ "constructor"; "hasOwnProperty"; "isPrototypeOf"; "propertyIsEnumerable";
    "toLocaleString"; "toString"; "valueOf"; "__proto__";
    "__defineGetter__"; "__defineSetter__"; "__lookupGetter__";
    "__lookupSetter__" ].

Definition inherited (key : string) : bool :=
  bool_decide (key ∈ objectPrototypeKeys).

(** What [mapToComflySize] returns. [Inherited]: the lookup has left the
    table through a key that objects inherit; what is returned then (a
    function, an object, one of their properties, or the square when the
    second key finds nothing) depends on the inherited value, which the model
    does not describe. *)
Inductive SizeValue : Type :=
  | Size (size : string)
  | Inherited.

(** [mapToComflySize(ratio, level = '1K')]: [sizes[ratio]?.[level] || sizes['1:1']['1K']];
    [level = None] is the argument [undefined]. The table and its rows are
    plain objects: a key that is not their own is looked up in
    [Object.prototype], and gives [undefined] when it is not there either. *)
Definition mapToComflySize (ratio : string) (level : option string) : SizeValue :=
  let level := default "1K" level in
  match assoc ratio comflySizes with
  | Some row =>
      match assoc level row with
      | Some size => Size (opt_or (Some size) "1024x1024")
      | None => if inherited level then Inherited else Size "1024x1024"
      end
  | None => if inherited ratio then Inherited else Size "1024x1024"
  end.

(** The JSON body of [comflyDraw]; [None] is [undefined]. *)
Record ComflyDrawPayload := {
  cdp_model : string;
  cdp_prompt : string;
  cdp_size : SizeValue;
  cdp_n : Z;
  cdp_image : option string
}.

Definition comflyDrawPayload (params : DrawParams) : ComflyDrawPayload :=
  {| cdp_model := dp_model params;
     cdp_prompt := dp_prompt params;
     cdp_size := mapToComflySize (dp_aspectRatio params) (dp_imageSize params);
     cdp_n := 1;
     cdp_image := if Nat.ltb 0 (length (dp_urls params)) then head (dp_urls params)
                  else None |}.

(** The request of [comflyDrawTask]: the endpoint, and the form fields or the
    JSON body. With input images the first one is fetched and sent as a file. *)
Record ComflyTaskRequest := {
  ctr_endpoint : string;
  ctr_prompt : string;
  ctr_model : string;
  ctr_size : SizeValue;
  ctr_image : option string
}.

Definition comflyDrawTaskRequest (params : DrawParams) : ComflyTaskRequest :=
  let hasImages := Nat.ltb 0 (length (dp_urls params)) in
  {| ctr_endpoint := (if hasImages then "/v1/images/edits" else "/v1/images/generations")
                       +:+ "?async=true";
     ctr_prompt := dp_prompt params;
     ctr_model := dp_model params;
     ctr_size := mapToComflySize (dp_aspectRatio params) (dp_imageSize params);
     ctr_image := if hasImages then head (dp_urls params) else None |}.

(** The width and the height written in a size ["WxH"]. *)
Definition sizeDims (size : string) : option (Z * Z) :=
  match split_char "x" EmptyString size with
  | [w; h] => w' ← parseInt10 w; h' ← parseInt10 h; Some (w', h')
  | _ => None
  end.

(** The two numbers written in an aspect ratio ["W:H"]. *)
Definition ratioDims (ratio : string) : option (Z * Z) :=
  match split_char ":" EmptyString ratio with
  | [w; h] => w' ← parseInt10 w; h' ← parseInt10 h; Some (w', h')
  | _ => None
  end.

(** The aspect ratios and the levels the table of sizes knows. *)
Definition knownRatios : list string := ["1:1"; "16:9"; "9:16"; "4:3"; "3:4"].

Definition knownLevels : list (option string) :=
  [None; Some "1K"; Some "2K"; Some "4K"].

(** The size for a ratio and a level is a size of the table, of positive
    pixel numbers in exactly that ratio. *)
Definition sizeHasRatio (ratio : string) (level : option string) : bool :=
  match ratioDims ratio, mapToComflySize ratio level with
  | Some (a, b), Size size =>
      match sizeDims size with
      | Some (width, height) =>
          (width * b =? height * a)%Z && (0 <? width)%Z && (0 <? height)%Z
      | None => false
      end
  | _, _ => false
  end.

(** ** Dropping an image file on the canvas, and arranging nodes *)

Section Canvas.
Variable env : Env.
Variable settings : AppSettings.

(** The body of [onDrop] for one image file; [file] is the file as the
    argument of the upload, and [position] the drop position. *)
Definition onDropFile (file : UploadSource) (position : Position) : Run unit :=
  newNodeId ← ask (randomUUID env);
  modifyStore (addNode
    {| n_id := newNodeId; n_type := "inputImage"; n_position := position;
       n_selected := false;
       n_data := {[ "status" := JStr "loading"; "statusMsg" := JStr "Uploading..." ]} |});;
  tryCatch
    ('(url, mediumUrl) ← uploadToImgBB env file (imgbbKey settings) None;
     modifyStore (updateNodeData newNodeId
       {[ "url" := JStr url; "mediumUrl" := JStr mediumUrl;
          "status" := JStr "success"; "statusMsg" := JStr "Done" ]}))
    (fun message =>
       modifyStore (updateNodeData newNodeId
         {[ "status" := JStr "error"; "statusMsg" := message ]})).
End Canvas.

(** [Math.round(x)]: the integer nearest to the double [x], a half going
    up. *)
Definition Math_round (x : Q) : Z := Qfloor (x + (1 # 2)).

(** [(a, b) => a.position.x - b.position.x], as the sign of the difference. *)
Definition byPositionX (a b : Node) : Z :=
  Qnum (pos_x (n_position a) - pos_x (n_position b)).

(** [arr.findIndex(pred)]; [None] is -1. *)
Fixpoint findIndex {A : Type} (pred : A → bool) (l : list A) : option nat :=
  match l with
  | [] => None
  | x :: l' => if pred x then Some 0%nat else S <$> findIndex pred l'
  end.

Definition with_position (node : Node) (p : Position) : Node :=
  {| n_id := n_id node; n_type := n_type node; n_position := p;
     n_selected := n_selected node; n_data := n_data node |}.

(** [autoArrangeSelected]: the selected nodes in a row, 400 apart, from the
    leftmost one, on the grid of 20. Without a selected node nothing changes
    (an alert is shown). Every sum, product and quotient is the double
    nearest to the exact result. *)
Definition autoArrangeSelected (st : Store) : Store :=
  let selectedNodes := List.filter n_selected (nodes st) in
  match js_sort byPositionX selectedNodes with
  | [] => st
  | (first :: _) as sortedNodes =>
      let startX := pos_x (n_position first) in
      let startY := pos_y (n_position first) in
      let newNodes :=
        List.map (fun node =>
          if n_selected node then
            let index :=
              match findIndex (fun n => String.eqb (n_id n) (n_id node)) sortedNodes with
              | Some i => Z.of_nat i
              | None => (-1)%Z
              end in
            let targetX := binary64 (startX + binary64 (inject_Z index * 400))%Q in
            let targetY := startY in
            with_position node
              {| pos_x := binary64
                   (inject_Z (Math_round (binary64 (targetX / 20))) * 20)%Q;
                 pos_y := binary64
                   (inject_Z (Math_round (binary64 (targetY / 20))) * 20)%Q |}
          else node) (nodes st) in
      setNodes newNodes st
  end.

(** [n'] is [n] at another place; an unselected node is where it was. *)
Definition movedOnly (n n' : Node) : Prop :=
  n_id n' = n_id n ∧ n_type n' = n_type n ∧ n_data n' = n_data n ∧
  n_selected n' = n_selected n ∧ (n_selected n = false → n' = n).


(** ** The image list of the image-processing node *)

(** [getInputImages] of [ImageProcessingNode]: the image edges into the node
    sorted by order, each mapped to its source's URL, the falsy ones dropped. *)
Definition getInputImages (state : Store) (nodeId : string) : list string :=
  let incomingEdges :=
    List.filter (fun e => String.eqb (e_target e) nodeId
                          && bool_decide (e_targetHandle e = Some "image"))
      (edges state) in
  omap id
    (List.map (fun edge => truthy_str (n ← findNode (nodes state) (e_source edge);
                                       n_data n !! "url"))
       (js_sort byOrder incomingEdges)).

(** The text of an edge's source node, as the resolver reads it. *)
Definition sourceContent (st : Store) (e : Edge) : option string :=
  n ← findNode (nodes st) (e_source e); truthy_str (n_data n !! "content").

(** [e'] is [e] up to its data, where the order is kept. *)
Definition sameButOrder (e e' : Edge) : Prop :=
  e_id e' = e_id e ∧ e_source e' = e_source e ∧ e_target e' = e_target e ∧
  e_sourceHandle e' = e_sourceHandle e ∧ e_targetHandle e' = e_targetHandle e.

(** ** Notions used in the statements on connections *)

(** The edge the flow container's [onConnect] adds from [source]. *)
Definition orderedEdge (target : string) (sourceHandle targetHandle : option string)
    (ord : option Z) (source : string) : Edge :=
  {| e_id := getEdgeId {| c_id := None; c_source := source; c_target := target;
                          c_sourceHandle := sourceHandle;
                          c_targetHandle := targetHandle; c_data := None |};
     e_source := source; e_target := target;
     e_sourceHandle := sourceHandle; e_targetHandle := targetHandle;
     e_data := Some {| order := ord; ed_targetHandle := targetHandle |} |}.

(** The image edges from the nodes [ns] other than the target, numbered from
    [baseOrder + 1] on. *)
Fixpoint orderedEdges (target : string) (sourceHandle : option string)
    (ns : list Node) (baseOrder : Z) : list Edge :=
  match ns with
  | [] => []
  | n :: ns' =>
      if String.eqb (n_id n) target then orderedEdges target sourceHandle ns' baseOrder
      else orderedEdge target sourceHandle (Some "image") (Some (baseOrder + 1)%Z) (n_id n)
             :: orderedEdges target sourceHandle ns' (baseOrder + 1)
  end.

(** The artifact URL of a node, as the resolver reads it. *)
Definition urlOf (n : Node) : option string := truthy_str (n_data n !! "url").

(** [a] is not below [b] on the canvas. *)
Definition notBelow (a b : Node) : Prop :=
  (pos_y (n_position a) <= pos_y (n_position b))%Q.

(** Three image inputs, the lower two selected, and an expert node fed by
    the first. *)
Definition selectionStore : Store :=
  {| nodes := [ mkNode "img1" "inputImage" {[ "url" := JStr "u1" ]};
                {| n_id := "img2"; n_type := "inputImage";
                   n_position := {| pos_x := 0; pos_y := 300 |};
                   n_selected := true; n_data := {[ "url" := JStr "u2" ]} |};
                {| n_id := "img3"; n_type := "inputImage";
                   n_position := {| pos_x := 0; pos_y := 100 |};
                   n_selected := true; n_data := {[ "url" := JStr "u3" ]} |};
                mkNode "x" "aiExpert" ∅ ];
     edges := [ imageEdge "e1" "img1" "x" 1 ] |}.

(** Two selected nodes, the left one at x = 9.999999999999998, which is a
    double. *)
Definition fractionStore : Store :=
  {| nodes := [ {| n_id := "a"; n_type := "inputText";
                   n_position := {| pos_x := 5629499534213119 # 562949953421312;
                                    pos_y := 0 |};
                   n_selected := true; n_data := ∅ |};
                {| n_id := "b"; n_type := "inputText";
                   n_position := {| pos_x := 500; pos_y := 40 |};
                   n_selected := true; n_data := ∅ |} ];
     edges := [] |}.

(** ** Relations between two states of the graph *)

(** [n'] is [n] up to its data, and is [n] when [n] is not the node [nodeId]. *)
Definition sameButData (nodeId : string) (n n' : Node) : Prop :=
  n_id n' = n_id n ∧ n_type n' = n_type n ∧ n_position n' = n_position n ∧
  n_selected n' = n_selected n ∧ (n_id n ≠ nodeId → n' = n).

(** Only the data of the nodes with id [nodeId] may differ. *)
Definition touchesOnly (nodeId : string) (st st' : Store) : Prop :=
  edges st' = edges st ∧ Forall2 (sameButData nodeId) (nodes st) (nodes st').

(** Nodes and edges may be appended besides. *)
Definition grows (nodeId : string) (st st' : Store) : Prop :=
  ∃ (kept added : list Node) (newEdges : list Edge),
    nodes st' = kept ++ added ∧
    Forall2 (sameButData nodeId) (nodes st) kept ∧
    edges st' = edges st ++ newEdges.

Definition touchesOnlyW (nodeId : string) (w w' : World) : Prop :=
  touchesOnly nodeId (store w) (store w').

Definition growsW (nodeId : string) (w w' : World) : Prop :=
  grows nodeId (store w) (store w').

(** A computation that never throws. *)
Definition NoThrow {A : Type} (m : Run A) : Prop :=
  ∀ (w w' : World) (o : outcome A), m w = (w', o) → ∃ a, o = Returned a.

(** A computation that appends at most to the graph, and has changed only the
    data of [nodeId] when it throws. *)
Definition Isolated (nodeId : string) {A : Type} (m : Run A) : Prop :=
  ∀ (w w' : World) (o : outcome A), m w = (w', o) →
    growsW nodeId w w' ∧ (∀ message, o = Thrown message → touchesOnlyW nodeId w w').





(** An outside world whose expert answers with twenty outputs. *)
Definition twentyOutputsEnv : Env :=
  {| Date_now := Date_now sampleEnv; randomUUID := randomUUID sampleEnv;
     image_onload := image_onload sampleEnv;
     canvas_getContext := canvas_getContext sampleEnv;
     imgbb_fetch := imgbb_fetch sampleEnv; fetch_blob := fetch_blob sampleEnv;
     fetchImageAsBase64 := fetchImageAsBase64 sampleEnv;
     geminiTextExpert := fun _ _ _ _ =>
       Returned {| er_displaySummary := JStr "summary";
                   er_outputs := Some (replicate 20
                                         {| eo_title := "t"; eo_prompt := "p" |}) |};
     geminiNativeImageGen := geminiNativeImageGen sampleEnv;
     grsaiDraw := grsaiDraw sampleEnv;
     comflyDrawTask := comflyDrawTask sampleEnv;
     comflyDraw := comflyDraw sampleEnv;
     grsai_video_fetch := grsai_video_fetch sampleEnv;
     comfly_video_fetch := comfly_video_fetch sampleEnv;
     pollGrsaiResult := pollGrsaiResult sampleEnv;
     pollComflyImageResult := pollComflyImageResult sampleEnv;
     pollComflyResult := pollComflyResult sampleEnv |}.

(** Every edge of the graph starts and ends at a node of the graph. *)
Definition noDangling (st : Store) : Prop :=
  ∀ e : Edge, In e (edges st) →
    (∃ n, In n (nodes st) ∧ n_id n = e_source e) ∧
    (∃ n, In n (nodes st) ∧ n_id n = e_target e).

(** No two projects of the list have the same id. *)
Definition uniqueProjectIds (ps : list Project) : Prop := NoDup (List.map p_id ps).

(** A workspace that shows the graph [st], with the projects [ps]. *)
Definition workspaceOf (st : Store) (ps : list Project) (current : option string)
    : Workspace :=
  {| ws_store := st; ws_projects := ps; ws_currentProjectId := current;
     ws_viewport := defaultViewport |}.

(** A project of the given id and name, without a graph. *)
Definition emptyProject (projectId name : string) : Project :=
  {| p_id := projectId; p_name := name; p_nodes := []; p_edges := [];
     p_viewport := None |}.

(** The status fields of a node as a saved project holds them, for the node
    [n] of the graph: a running node is idle, any other status is kept, the
    progress is 0 and the status message is cleared; the rest of the node is
    as it was. *)
Definition savedAs (n n' : Node) : Prop :=
  n_id n' = n_id n ∧ n_type n' = n_type n ∧ n_position n' = n_position n ∧
  n_selected n' = n_selected n ∧
  (n_data n !! "status" = Some (JStr "loading") →
   n_data n' !! "status" = Some (JStr "idle")) ∧
  (n_data n !! "status" ≠ Some (JStr "loading") →
   n_data n' !! "status" = Some (default JUndefined (n_data n !! "status"))) ∧
  n_data n' !! "progress" = Some (JNum 0) ∧
  n_data n' !! "statusMsg" = Some JUndefined ∧
  ∀ k : string, k ≠ "status" → k ≠ "progress" → k ≠ "statusMsg" →
    n_data n' !! k = n_data n !! k.

(** A graph with a running node and a finished one. *)
Definition runningStore : Store :=
  {| nodes := [ mkNode "a" "aiImageGen"
                  {[ "status" := JStr "loading"; "progress" := JNum 40;
                     "statusMsg" := JStr "Running..."; "model" := JStr "nano-banana" ]};
                mkNode "b" "aiImageGen"
                  {[ "status" := JStr "success"; "progress" := JNum 100;
                     "statusMsg" := JStr "Done"; "url" := JStr "u" ]} ];
     edges := [] |}.

(** * Properties *)

(** ** The string functions and the sort on samples *)

Example split_plain : split_commas_spaces "2,5,11" = ["2"; "5"; "11"].
Proof. reflexivity. Qed.

Example split_runs : split_commas_spaces ", 2 ,,5 " = [""; "2"; "5"; ""].
Proof. reflexivity. Qed.

Example parseInt10_samples :
  List.map parseInt10 ["2"; "-5"; "11x"; "x"; ""; "+7"; " 08"]
  = [Some 2; Some (-5); Some 11; None; None; Some 7; Some 8]%Z.
Proof. reflexivity. Qed.

Example trim_sample : trim "  0  " = "0".
Proof. reflexivity. Qed.

Example trim_wide :
  trim (bytes [227; 128; 128] +:+ " a b " +:+ bytes [194; 160]) = "a b".
Proof. reflexivity. Qed.

Example split_wide :
  split_commas_spaces ("2" +:+ bytes [227; 128; 128] +:+ ",5" +:+ bytes [194; 160])
  = ["2"; "5"; ""].
Proof. reflexivity. Qed.

Example toUpperCase_sample : toUpperCase "failed" = "FAILED".
Proof. reflexivity. Qed.

Example split_char_sample :
  split_char (ascii_of_nat 10) "" ("a" +:+ LF +:+ LF +:+ "b") = ["a"; ""; "b"].
Proof. reflexivity. Qed.

Example js_sort_sample :
  js_sort (fun a b : Z * Z => (fst a - fst b)%Z)
    [(2, 0); (1, 1); (2, 2); (0, 3); (1, 4)]%Z
  = [(0, 3); (1, 1); (1, 4); (2, 0); (2, 2)]%Z.
Proof. reflexivity. Qed.

(** ** Doubles on samples *)

Example binary64_tenth : binary64 (1 # 10) = 3602879701896397 # 36028797018963968.
Proof. by vm_compute. Qed.

Example binary64_sum :
  binary64 (binary64 (1 # 10) + binary64 (2 # 10))
  = 1351079888211149 # 4503599627370496.
Proof. by vm_compute. Qed.

(** A run of 350 ms is shown as 0.3 s: the double next to 0.35 is below it. *)
Example duration_350ms : toFixed1 (binary64 (350 # 1000)) = 3 # 10.
Proof. by vm_compute. Qed.

(** 29 cells of 100 done are shown as 28 percent. *)
Example progress_29_of_100 :
  Qfloor (binary64 (binary64 (29 # 100) * 100)) = 28%Z.
Proof. by vm_compute. Qed.
(** ** Properties of the store *)

Section StoreFacts.
Implicit Types (st : Store) (node : Node) (patch : gmap string jsval).

Lemma updateNodeData_edges nodeId patch st :
  edges (updateNodeData nodeId patch st) = edges st.
Proof. reflexivity. Qed.

Lemma updateNodeData_length nodeId patch st :
  length (nodes (updateNodeData nodeId patch st)) = length (nodes st).
Proof. unfold updateNodeData; simpl. apply length_map. Qed.

Lemma updateNodeData_lookup nodeId patch st (i : nat) :
  nodes (updateNodeData nodeId patch st) !! i =
  (fun node => if decide (n_id node = nodeId)
               then with_data node (patch ∪ n_data node) else node)
    <$> nodes st !! i.
Proof. unfold updateNodeData; simpl. apply list_lookup_fmap. Qed.

Lemma patched_data_lookup patch (d : gmap string jsval) (k : string) :
  (patch ∪ d) !! k = match patch !! k with Some v => Some v | None => d !! k end.
Proof.
  destruct (patch !! k) as [v|] eqn:Hk.
  - by apply lookup_union_Some_l.
  - by rewrite lookup_union_r.
Qed.
End StoreFacts.

(** C10. [updateNodeData nodeId patch] leaves the edge collection and every
    node with another id as they were; on a node with that id it keeps the id,
    type, position and selection, gives each data field named in the patch the
    patch's value, and keeps every data field the patch does not name. *)
Theorem updateNodeData_frame (nodeId : string) (patch : gmap string jsval)
    (st : Store) :
  edges (updateNodeData nodeId patch st) = edges st ∧
  length (nodes (updateNodeData nodeId patch st)) = length (nodes st) ∧
  ∀ (i : nat) (node : Node), nodes st !! i = Some node →
    ∃ node', nodes (updateNodeData nodeId patch st) !! i = Some node' ∧
      (n_id node ≠ nodeId → node' = node) ∧
      n_id node' = n_id node ∧ n_type node' = n_type node ∧
      n_position node' = n_position node ∧ n_selected node' = n_selected node ∧
      (∀ k v, patch !! k = Some v → n_id node = nodeId →
              n_data node' !! k = Some v) ∧
      (∀ k, patch !! k = None → n_data node' !! k = n_data node !! k).
Proof.
  split; [apply updateNodeData_edges|].
  split; [apply updateNodeData_length|].
  intros i node Hi. rewrite updateNodeData_lookup, Hi. simpl.
  destruct (decide (n_id node = nodeId)) as [He|Hne].
  - eexists; split; [reflexivity|]. simpl.
    repeat split; try congruence.
    + intros k v Hk _. rewrite patched_data_lookup. by rewrite Hk.
    + intros k Hk. rewrite patched_data_lookup. by rewrite Hk.
  - exists node. repeat split; try done.
Qed.

Lemma updateNodeData_frame_witness :
  let st' := updateNodeData "s" {[ "progress" := JNum 50 ]} splitStore in
  splitStore.(nodes) !! 1%nat = Some splitNode ∧
  ∃ node', nodes st' !! 1%nat = Some node' ∧
    n_data node' !! "progress" = Some (JNum 50) ∧
    n_data node' !! "gridTrim" = n_data splitNode !! "gridTrim".
Proof.
  intros st'.
  assert (Hi : nodes splitStore !! 1%nat = Some splitNode) by reflexivity.
  split; [exact Hi|].
  destruct (updateNodeData_frame "s" {[ "progress" := JNum 50 ]} splitStore)
    as (_ & _ & Hnodes).
  destruct (Hnodes 1%nat splitNode Hi) as (node' & Hn' & _ & _ & _ & _ & _ & Hset & Hkeep).
  exists node'. split; [exact Hn'|]. split.
  - apply (Hset "progress" (JNum 50)); reflexivity.
  - apply Hkeep. reflexivity.
Defined.

(** ** The prompt merger's shot sequence *)






(** The two examples of the specification. *)
Example activeShots_padding :
  activeShotsOf ["A"; "B"] "3x3" = ["A"; "B"; "B"; "B"; "B"; "B"; "B"; "B"; "B"].
Proof. reflexivity. Qed.

Example activeShots_truncation :
  activeShotsOf ["A"; "B"; "C"; "D"; "E"] "2x2" = ["A"; "B"; "C"; "D"].
Proof. reflexivity. Qed.

(** ** The input resolver *)

Section SortFacts.
Context {A : Type} (key : A → Z).
Let cmp (a b : A) : Z := (key a - key b)%Z.
Let le_key (a b : A) : Prop := (key a <= key b)%Z.

Lemma sort_insert_perm (x : A) (l : list A) :
  Permutation (sort_insert cmp x l) (x :: l).
Proof.
  induction l as [|y l IH]; simpl; [done|].
  destruct (cmp x y <=? 0)%Z; [done|].
  rewrite IH. apply perm_swap.
Qed.

Lemma js_sort_perm (l : list A) : Permutation (js_sort cmp l) l.
Proof.
  induction l as [|x l IH]; simpl; [done|].
  unfold js_sort in *. simpl. rewrite sort_insert_perm. by constructor.
Qed.

Lemma sort_insert_sorted (x : A) (l : list A) :
  StronglySorted le_key l → StronglySorted le_key (sort_insert cmp x l).
Proof.
  induction l as [|y l IH]; simpl; intros Hs.
  - repeat constructor.
  - inversion Hs as [|? ? Hl Hy]; subst.
    destruct (cmp x y <=? 0)%Z eqn:Hc.
    + apply Z.leb_le in Hc. unfold cmp in Hc.
      constructor; [done|]. constructor; [unfold le_key; lia|].
      eapply Forall_impl; [exact Hy|]. unfold le_key. intros; lia.
    + apply Z.leb_gt in Hc. unfold cmp in Hc.
      constructor; [by apply IH|].
      rewrite (sort_insert_perm x l). constructor; [unfold le_key; lia|done].
Qed.

Lemma js_sort_sorted (l : list A) : StronglySorted le_key (js_sort cmp l).
Proof.
  induction l as [|x l IH]; [constructor|].
  unfold js_sort in *. simpl. by apply sort_insert_sorted.
Qed.

Lemma sort_insert_stable (k : Z) (x : A) (l : list A) :
  List.filter (fun a => (key a =? k)%Z) (sort_insert cmp x l) =
  List.filter (fun a => (key a =? k)%Z) (x :: l).
Proof.
  induction l as [|y l IH]; [done|].
  simpl. destruct (cmp x y <=? 0)%Z eqn:Hc; [done|].
  apply Z.leb_gt in Hc. unfold cmp in Hc.
  simpl in *. rewrite IH.
  destruct (key x =? k)%Z eqn:Hx; [|done].
  apply Z.eqb_eq in Hx.
  destruct (key y =? k)%Z eqn:Hy; [|done].
  apply Z.eqb_eq in Hy. lia.
Qed.

Lemma js_sort_stable (k : Z) (l : list A) :
  List.filter (fun a => (key a =? k)%Z) (js_sort cmp l) =
  List.filter (fun a => (key a =? k)%Z) l.
Proof.
  induction l as [|x l IH]; [done|].
  unfold js_sort in *. simpl foldr. rewrite sort_insert_stable.
  simpl. by rewrite IH.
Qed.
End SortFacts.

Section ResolverFacts.
Variable st : Store.

Lemma pushImage_images (data : IncomingData) (e : Edge) :
  images (pushImage st data e) = images data ++ option_list (sourceUrl st e).
Proof.
  unfold pushImage, sourceUrl.
  destruct (findNode (nodes st) (e_source e)) as [n|]; simpl; [|by rewrite app_nil_r].
  destruct (truthy_str (n_data n !! "url")); simpl; [|by rewrite app_nil_r].
  by destruct (truthy_str (n_data n !! "remark")).
Qed.

Lemma fold_pushImage_images (es : list Edge) (data : IncomingData) :
  images (fold_left (pushImage st) es data) = images data ++ omap (sourceUrl st) es.
Proof.
  revert data. induction es as [|e es IH]; intros data; simpl.
  - by rewrite app_nil_r.
  - rewrite IH, pushImage_images, <- app_assoc. f_equal.
    by destruct (sourceUrl st e).
Qed.

Lemma pushText_images (data : IncomingData) (e : Edge) :
  images (pushText st data e) = images data.
Proof.
  unfold pushText. destruct (findNode _ _) as [n|]; [|done].
  by destruct (truthy_str _).
Qed.

Lemma fold_pushText_images (es : list Edge) (data : IncomingData) :
  images (fold_left (pushText st) es data) = images data.
Proof.
  revert data. induction es as [|e es IH]; intros data; simpl; [done|].
  by rewrite IH, pushText_images.
Qed.

Lemma imageEdgesOf_filter (t : string) :
  List.filter (handleIs "image") (incomingEdgesOf st t) = imageEdgesOf st t.
Proof.
  unfold incomingEdgesOf, imageEdgesOf, handleIs.
  induction (edges st) as [|e es IH]; [done|]. simpl.
  destruct (bool_decide (e_target e = t)) eqn:Ht; simpl.
  - apply bool_decide_eq_true in Ht.
    destruct (bool_decide (e_targetHandle e = Some "image")) eqn:Hh.
    + apply bool_decide_eq_true in Hh. rewrite bool_decide_eq_true_2 by done.
      by rewrite IH.
    + apply bool_decide_eq_false in Hh. rewrite bool_decide_eq_false_2 by tauto. done.
  - apply bool_decide_eq_false in Ht. rewrite bool_decide_eq_false_2 by tauto. done.
Qed.

Lemma getIncomingData_images (t : string) :
  images (getIncomingData st t) =
  omap (sourceUrl st) (js_sort byOrder (imageEdgesOf st t)).
Proof.
  unfold getIncomingData. rewrite fold_pushImage_images, fold_pushText_images.
  simpl. by rewrite imageEdgesOf_filter.
Qed.
End ResolverFacts.

(** The remark list: the remarks of the resolved images that have one, in the
    order of the images, with no place kept for an image without remark. *)
Lemma getIncomingData_imageRemarks (st : Store) (t : string) :
  imageRemarks (getIncomingData st t) =
  omap (fun e => sourceUrl st e ≫= fun _ => sourceRemark st e)
    (js_sort byOrder (imageEdgesOf st t)).
Proof.
  unfold getIncomingData. rewrite imageEdgesOf_filter.
  assert (Htext : ∀ es data, imageRemarks (fold_left (pushText st) es data)
                             = imageRemarks data).
  { induction es as [|e es IH]; intros data; [done|]. cbn [fold_left].
    rewrite IH. unfold pushText. destruct (findNode _ _) as [n|]; [|done].
    by destruct (truthy_str _). }
  assert (Himg : ∀ es data, imageRemarks (fold_left (pushImage st) es data)
                 = imageRemarks data
                   ++ omap (fun e => sourceUrl st e ≫= fun _ => sourceRemark st e) es).
  { induction es as [|e es IH]; intros data; cbn [fold_left].
    - by rewrite app_nil_r.
    - rewrite IH. unfold pushImage, sourceUrl, sourceRemark. cbn [omap list_omap].
      destruct (findNode (nodes st) (e_source e)) as [n|]; cbn; [|done].
      destruct (truthy_str (n_data n !! "url")); cbn; [|done].
      destruct (truthy_str (n_data n !! "remark")); cbn; [|done].
      by rewrite <- app_assoc. }
  by rewrite Himg, Htext.
Qed.

Lemma orderOf_default (e : Edge) : orderOf e = default 0%Z (e_data e ≫= order).
Proof.
  unfold orderOf. destruct (e_data e) as [d|]; simpl; [|done].
  destruct (order d) as [o|]; simpl; [|done].
  destruct (o =? 0)%Z eqn:Ho; [|done]. apply Z.eqb_eq in Ho. by subst.
Qed.

(** C4. The image URLs the input resolver returns for a target node are the
    artifact URLs of the sources of its incoming "image" edges, taken in an
    order [sorted] of these edges in which the order values never decrease,
    edges of equal order value stand as in the edge collection (the sort is
    stable), and a missing order value counts as 0. *)
Theorem resolver_images_sorted (st : Store) (targetNodeId : string) :
  ∃ sorted : list Edge,
    Permutation sorted (imageEdgesOf st targetNodeId) ∧
    StronglySorted (fun a b => (orderOf a <= orderOf b)%Z) sorted ∧
    (∀ k : Z, List.filter (fun e => (orderOf e =? k)%Z) sorted =
              List.filter (fun e => (orderOf e =? k)%Z) (imageEdgesOf st targetNodeId)) ∧
    images (getIncomingData st targetNodeId) = omap (sourceUrl st) sorted ∧
    (∀ e : Edge, orderOf e = default 0%Z (e_data e ≫= order)).
Proof.
  exists (js_sort byOrder (imageEdgesOf st targetNodeId)).
  split; [apply (js_sort_perm orderOf)|].
  split; [apply (js_sort_sorted orderOf)|].
  split; [intros k; apply (js_sort_stable orderOf)|].
  split; [apply getIncomingData_images|apply orderOf_default].
Qed.

(** C8 (the code departs from the claim). With two connected images of which
    only the second has a remark, the resolver returns that remark at
    position 0 of the remark list, not at the position 1 of its image, and
    the prompt presents it as the information of image 1. *)
Theorem imageRemarks_not_aligned :
  let data := getIncomingData remarkStore "x" in
  images data = ["u1"; "u2"] ∧
  sourceRemark remarkStore (imageEdge "e1" "img1" "x" 1) = None ∧
  sourceRemark remarkStore (imageEdge "e2" "img2" "x" 2) = Some "r2" ∧
  imageRemarks data = ["r2"] ∧
  imageRemarks data !! 1%nat = None ∧
  imageRemarks data !! 0%nat = Some "r2" ∧
  String.index 0 "[图片1参考信息]: r2" (remarksPrompt "" (imageRemarks data)) ≠ None.
Proof. vm_compute. repeat split; discriminate. Qed.
(** ** Doubles *)

Section DoubleFacts.
Local Open Scope Q_scope.

Lemma pow2_pos (e : Z) : 0 < pow2 e.
Proof. by apply Qpower_0_lt. Qed.

Lemma pow2_le (i j : Z) : (i <= j)%Z → pow2 i <= pow2 j.
Proof. intros H. by apply Qpower_le_compat_l. Qed.

Lemma pow2_lt_inv (i j : Z) : pow2 i < pow2 j → (i < j)%Z.
Proof. intros H. by apply (Qpower_lt_compat_l_inv 2). Qed.

Lemma pow2_plus (i j : Z) : pow2 (i + j) == pow2 i * pow2 j.
Proof. by apply Qpower_plus. Qed.

Lemma pow2_Z (n : Z) : (0 <= n)%Z → pow2 n == inject_Z (2 ^ n).
Proof. intros H. unfold pow2. by rewrite Zpower_Qpower. Qed.

Lemma Qabs_make (q : Q) : Qabs q = (Z.abs (Qnum q) # Qden q).
Proof. by destruct q. Qed.

(** The exponent is not above the number. *)
Lemma exponentOf_le (q : Q) : ¬ q == 0 → pow2 (exponentOf q) <= Qabs q.
Proof.
  intros Hq. unfold exponentOf.
  set (a := Z.log2 (Z.abs (Qnum q))). set (b := Z.log2 (Z.pos (Qden q))).
  destruct (Qle_bool (pow2 (a - b)) (Qabs q)) eqn:Ht; [by apply Qle_bool_iff|].
  assert (Hn : (0 < Z.abs (Qnum q))%Z).
  { destruct q as [n d]. unfold Qeq in Hq. simpl in *. lia. }
  pose proof (Z.log2_spec _ Hn) as [Ha _]. fold a in Ha.
  pose proof (Z.log2_spec (Z.pos (Qden q)) ltac:(lia)) as [_ Hb]. fold b in Hb.
  pose proof (Z.log2_nonneg (Z.abs (Qnum q))) as Ha0. fold a in Ha0.
  pose proof (Z.log2_nonneg (Z.pos (Qden q))) as Hb0. fold b in Hb0.
  replace (a - b - 1)%Z with (a + - (b + 1))%Z by lia.
  rewrite pow2_plus. unfold pow2 at 2. rewrite Qpower_opp.
  fold (pow2 (b + 1)). rewrite !pow2_Z by lia. rewrite Qabs_make.
  assert (H2 : (0 < 2 ^ (b + 1))%Z) by (apply Z.pow_pos_nonneg; lia).
  assert (H1 : (0 < 2 ^ a)%Z) by (apply Z.pow_pos_nonneg; lia).
  apply Qle_shift_div_r; [rewrite <- (Zlt_Qlt 0); exact H2|].
  unfold Qle, Qmult, inject_Z. simpl. nia.
Qed.

Lemma roundEven_near (t : Q) : Qabs (inject_Z (roundEven t) - t) <= 1 # 2.
Proof.
  unfold roundEven. pose proof (Qfloor_le t) as Hl. pose proof (Qlt_floor t) as Hu.
  rewrite inject_Z_plus in Hu. change (inject_Z 1) with 1 in Hu.
  apply Qabs_Qle_condition.
  destruct (t - inject_Z (Qfloor t) ?= 1 # 2) eqn:Hc.
  - apply Qeq_alt in Hc. destruct (Z.even (Qfloor t));
      rewrite ?inject_Z_plus; change (inject_Z 1) with 1; split; lra.
  - change (t - inject_Z (Qfloor t) < 1 # 2) in Hc. split; lra.
  - apply Qgt_alt in Hc. rewrite inject_Z_plus. change (inject_Z 1) with 1.
    split; lra.
Qed.

Lemma roundEven_Z (t : Q) (m : Z) : t == inject_Z m → roundEven t = m.
Proof.
  intros Ht. unfold roundEven.
  assert (Hf : Qfloor t = m) by (by rewrite (Qfloor_comp _ _ Ht), Qfloor_Z).
  rewrite Hf. assert (Hc : (t - inject_Z m ?= 1 # 2) = Lt).
  { change (t - inject_Z m < 1 # 2). lra. }
  by rewrite Hc.
Qed.

Lemma binary64_zero (q : Q) : q == 0 → binary64 q = 0.
Proof. intros Hq. unfold binary64. apply Qeq_bool_iff in Hq. by rewrite Hq. Qed.

(** A number that is not zero is rounded on the grid of its exponent. *)
Lemma binary64_grid (q : Q) :
  ¬ q == 0 →
  let j := (Z.max (exponentOf q) (-1022) - 52)%Z in
  binary64 q = Qred (inject_Z (roundEven (q / pow2 j)) * pow2 j).
Proof.
  intros Hq j. unfold binary64.
  destruct (Qeq_bool q 0) eqn:He; [by apply Qeq_bool_iff in He|done].
Qed.

(** Below 2^36 the grid is 2^-17 or finer. *)
Lemma grid_fine (q : Q) :
  ¬ q == 0 → Qabs q < pow2 36 → (Z.max (exponentOf q) (-1022) - 52 <= -17)%Z.
Proof.
  intros Hq Hb. pose proof (exponentOf_le q Hq) as He.
  assert (exponentOf q < 36)%Z by (apply pow2_lt_inv; lra). lia.
Qed.

(** The multiples of 2^-17 below 2^36 are doubles. *)
Lemma binary64_exact (q : Q) (a : Z) :
  q * pow2 17 == inject_Z a → Qabs q < pow2 36 → binary64 q == q.
Proof.
  intros Ha Hb. destruct (Qeq_dec q 0) as [Hq|Hq].
  { rewrite (binary64_zero q Hq). by rewrite Hq. }
  rewrite (binary64_grid q Hq). cbv zeta.
  pose proof (grid_fine q Hq Hb) as Hj.
  set (j := (Z.max (exponentOf q) (-1022) - 52)%Z) in *.
  rewrite Qred_correct.
  pose proof (pow2_pos j) as Hp.
  assert (Hinv : / pow2 j == pow2 17 * pow2 (- j - 17)).
  { rewrite <- pow2_plus. replace (17 + (- j - 17))%Z with (- j)%Z by lia.
    unfold pow2. by rewrite Qpower_opp. }
  assert (Ht : q / pow2 j == inject_Z (a * 2 ^ (- j - 17))).
  { unfold Qdiv. rewrite Hinv, Qmult_assoc, Ha, inject_Z_mult.
    by rewrite pow2_Z by lia. }
  rewrite (roundEven_Z _ _ Ht), <- Ht. field. lra.
Qed.

Lemma Qred_inject_Z (z : Z) : Qred (inject_Z z) = inject_Z z.
Proof.
  unfold Qred, inject_Z.
  generalize (Z.ggcd_gcd z 1) (Z.ggcd_correct_divisors z 1).
  destruct (Z.ggcd z 1) as [g [a b]]. simpl. intros Hg [Ha Hb].
  rewrite Z.gcd_1_r in Hg. subst g.
  assert (Ha' : a = z) by lia. assert (Hb' : b = 1%Z) by lia.
  rewrite Ha', Hb'. reflexivity.
Qed.

Lemma binary64_Z (q : Q) (z : Z) :
  q == inject_Z z → (Z.abs z < 2 ^ 36)%Z → binary64 q = inject_Z z.
Proof.
  intros Hq Hz.
  assert (He : binary64 q == inject_Z z).
  { rewrite <- Hq. apply (binary64_exact q (z * 2 ^ 17)).
    - rewrite Hq, inject_Z_mult. by rewrite pow2_Z by lia.
    - rewrite Hq, pow2_Z by lia.
      change (Qabs (inject_Z z)) with (inject_Z (Z.abs z)). by rewrite <- Zlt_Qlt. }
  assert (Hred : Qred (binary64 q) = binary64 q).
  { unfold binary64. destruct (Qeq_bool q 0); [done|].
    apply Qred_complete, Qred_correct. }
  rewrite <- Hred. rewrite (Qred_complete _ _ He). apply Qred_inject_Z.
Qed.

Lemma binary64_near (q : Q) :
  Qabs q < pow2 36 → Qabs (binary64 q - q) <= pow2 (-18).
Proof.
  intros Hb. destruct (Qeq_dec q 0) as [Hq|Hq].
  { rewrite (binary64_zero q Hq), Hq. by vm_compute. }
  rewrite (binary64_grid q Hq). cbv zeta.
  pose proof (grid_fine q Hq Hb) as Hj.
  set (j := (Z.max (exponentOf q) (-1022) - 52)%Z) in *.
  rewrite Qred_correct.
  pose proof (pow2_pos j) as Hp.
  pose proof (roundEven_near (q / pow2 j)) as Hn.
  apply Qabs_Qle_condition in Hn as [Hn1 Hn2].
  assert (Hu : pow2 j <= pow2 (-17)) by (by apply pow2_le).
  assert (H18 : pow2 (-18) == pow2 (-17) * (1 # 2)) by (by vm_compute).
  set (m := inject_Z (roundEven (q / pow2 j))) in *.
  assert (Hq' : q == q / pow2 j * pow2 j) by (field; lra).
  set (t := q / pow2 j) in *.
  assert (H17 : 0 < pow2 (-17)) by apply pow2_pos.
  set (u := pow2 j) in *. set (c := pow2 (-17)) in *.
  assert (H1 : (m - t) * u <= (1 # 2) * c) by nra.
  assert (H2 : - ((1 # 2) * c) <= (m - t) * u) by nra.
  apply Qabs_Qle_condition. rewrite H18. split; nra.
Qed.
End DoubleFacts.
(** ** Trimming and splitting, against their description *)

Section StringFacts.
Lemma append_cons (x : ascii) (a b : string) :
  String x a +:+ b = String x (a +:+ b).
Proof. reflexivity. Qed.

Lemma append_nil_l (a : string) : "" +:+ a = a.
Proof. reflexivity. Qed.

Lemma prefix_append (p s : string) : String.prefix p (p +:+ s) = true.
Proof.
  induction p as [|a p IH]; [by destruct s|].
  rewrite append_cons. simpl. by destruct (ascii_dec a a).
Qed.

Lemma prefix_inv (p s : string) :
  String.prefix p s = true → ∃ rest : string, s = p +:+ rest.
Proof.
  revert s. induction p as [|a p IH]; intros s.
  - intros _. by exists s.
  - destruct s as [|b s]; [done|]. simpl.
    destruct (ascii_dec a b) as [->|]; [|done].
    intros H. destruct (IH s H) as [rest ->]. exists rest. by rewrite append_cons.
Qed.

Lemma append_assoc (a b c : string) : (a +:+ b) +:+ c = a +:+ (b +:+ c).
Proof. induction a as [|x a IH]; [done|]. rewrite !append_cons. by f_equal. Qed.

Lemma append_nil_r (a : string) : a +:+ "" = a.
Proof. induction a as [|x a IH]; [done|]. rewrite append_cons. by f_equal. Qed.

Lemma append_length (a b : string) :
  String.length (a +:+ b) = (String.length a + String.length b)%nat.
Proof.
  induction a as [|x a IH]; [done|]. rewrite append_cons. simpl. by f_equal.
Qed.

(** *** The character at the start of a string *)

Lemma lead_width_found (pats : list string) (s : string) (k : nat) :
  lead_width pats s = S k →
  ∃ p rest : string, In p pats ∧ s = p +:+ rest ∧ String.length p = S k.
Proof.
  unfold lead_width.
  destruct (List.find _ pats) as [p|] eqn:Hf; [|done].
  apply List.find_some in Hf as [Hin Hp]. intros Hl.
  destruct (prefix_inv _ _ Hp) as [rest ->]. by exists p, rest.
Qed.

Lemma lead_width_none (pats : list string) (s : string) :
  (∀ p : string, In p pats → p ≠ "") →
  lead_width pats s = 0%nat →
  ∀ p rest : string, In p pats → s ≠ p +:+ rest.
Proof.
  intros Hne. unfold lead_width.
  destruct (List.find _ pats) as [q|] eqn:Hf.
  - apply List.find_some in Hf as [Hin _]. intros Hl.
    destruct q; [by destruct (Hne "" Hin)|done].
  - intros _ p rest Hin ->.
    pose proof (List.find_none _ _ Hf p Hin) as Hp. cbv beta in Hp.
    by rewrite prefix_append in Hp.
Qed.

Lemma separators_not_empty (p : string) : In p separators → p ≠ "".
Proof.
  intros Hin ->. vm_compute in Hin.
  repeat (destruct Hin as [Hin|Hin]; [discriminate|]). done.
Qed.

Lemma whiteSpace_separators (p : string) : In p whiteSpace → In p separators.
Proof. intros H. by right. Qed.

Lemma sep_width_append (p s : string) :
  In p separators → sep_width (p +:+ s) = String.length p.
Proof.
  intros Hin. vm_compute in Hin.
  repeat (destruct Hin as [<-|Hin]; [by destruct s|]). done.
Qed.

Lemma space_width_append (p s : string) :
  In p whiteSpace → space_width (p +:+ s) = String.length p.
Proof.
  intros Hin. vm_compute in Hin.
  repeat (destruct Hin as [<-|Hin]; [by destruct s|]). done.
Qed.
End StringFacts.

(** *** [trim] *)

Section TrimFacts.
Lemma whiteSpace_not_empty (p : string) : In p whiteSpace → p ≠ "".
Proof. intros Hin. by apply separators_not_empty, whiteSpace_separators. Qed.

Lemma trimStart_from_skip (x s : string) :
  trimStart_from (String.length x) (x +:+ s) = trimStart_from 0 s.
Proof.
  induction x as [|a x IH]; [done|]. rewrite append_cons. exact IH.
Qed.

Lemma trimStart_space (p s : string) :
  In p whiteSpace → trimStart (p +:+ s) = trimStart s.
Proof.
  intros Hin. pose proof (space_width_append p s Hin) as Hw.
  destruct p as [|a p]; [by destruct (whiteSpace_not_empty "" Hin)|].
  unfold trimStart. rewrite append_cons in Hw |- *.
  cbn [trimStart_from]. rewrite Hw. cbn [String.length].
  apply trimStart_from_skip.
Qed.

Lemma trimStart_fixed (s : string) : space_width s = 0%nat → trimStart s = s.
Proof.
  intros Hw. destruct s as [|a s]; [done|].
  unfold trimStart. cbn [trimStart_from]. by rewrite Hw.
Qed.

Lemma trimStart_White (l s : string) : White l → trimStart (l +:+ s) = trimStart s.
Proof.
  induction 1 as [|c l Hc Hl IH]; [done|].
  by rewrite append_assoc, trimStart_space.
Qed.

Lemma trimStart_split (s : string) : ∃ l : string, White l ∧ s = l +:+ trimStart s.
Proof.
  remember (String.length s) as n eqn:Hn.
  revert s Hn. induction (lt_wf n) as [n _ IH]. intros s ->.
  destruct (space_width s) as [|k] eqn:Hw.
  - exists "". split; [constructor|]. by rewrite trimStart_fixed.
  - destruct (lead_width_found _ _ _ Hw) as (p & rest & Hin & -> & Hlen).
    destruct (IH (String.length rest)) with (s := rest) as (l & Hl & Hrest);
      [rewrite append_length; lia|done|].
    exists (p +:+ l). split; [by constructor|].
    rewrite trimStart_space by done. by rewrite append_assoc, <- Hrest.
Qed.

Lemma White_trimStart (r : string) : White r ↔ trimStart r = "".
Proof.
  split.
  - intros Hr. rewrite <- (append_nil_r r). by rewrite trimStart_White.
  - intros He. destruct (trimStart_split r) as (l & Hl & Hr).
    rewrite He, append_nil_r in Hr. by subst.
Qed.

Lemma trimEnd_White (r : string) : White r → trimEnd r = "".
Proof.
  intros Hr. destruct r as [|c r]; [done|].
  cbn [trimEnd]. apply White_trimStart in Hr. by rewrite Hr.
Qed.

Lemma trimEnd_split (t : string) : ∃ r : string, White r ∧ t = trimEnd t +:+ r.
Proof.
  induction t as [|c t IH]; [exists ""; split; [constructor|done]|].
  cbn [trimEnd].
  destruct (String.eqb_spec (trimStart (String c t)) "") as [He|Hne].
  - exists (String c t). split; [by apply White_trimStart|done].
  - destruct IH as (r & Hr & Ht). exists r. split; [done|].
    rewrite append_cons. by f_equal.
Qed.

(** The string trims to "0" exactly when it is a 0 between white space. *)
Lemma trimsToZero_trim (s : string) : trimsToZero s ↔ trim s = "0".
Proof.
  unfold trim. split.
  - intros (l & r & Hl & Hr & ->).
    rewrite trimStart_White by done.
    rewrite (trimStart_fixed ("0" +:+ r)) by reflexivity.
    rewrite append_cons. cbn [trimEnd].
    rewrite <- append_cons, (trimStart_fixed ("0" +:+ r)) by reflexivity.
    rewrite append_cons. cbn [String.eqb Ascii.eqb]. simpl.
    by rewrite trimEnd_White.
  - intros Ht. destruct (trimStart_split s) as (l & Hl & Hs).
    destruct (trimEnd_split (trimStart s)) as (r & Hr & Hts).
    rewrite Ht in Hts. exists l, r. split; [done|]. split; [done|].
    by rewrite <- Hts.
Qed.
End TrimFacts.

(** *** [split] on commas and white space *)

Section SplitSepFacts.
Lemma split_seps_skip (x s : string) (b : bool) (cur : string) :
  split_seps (String.length x) b cur (x +:+ s) = split_seps 0 b cur s.
Proof.
  induction x as [|a x IH]; [done|]. rewrite append_cons. exact IH.
Qed.

Lemma split_seps_sep (p s : string) (b : bool) (cur : string) :
  In p separators →
  split_seps 0 b cur (p +:+ s) = (if b then [] else [cur]) ++ split_seps 0 true "" s.
Proof.
  intros Hin. pose proof (sep_width_append p s Hin) as Hw.
  destruct p as [|a p]; [by destruct (separators_not_empty "" Hin)|].
  rewrite append_cons in Hw |- *. cbn [split_seps]. rewrite Hw.
  cbn [String.length]. rewrite split_seps_skip. by destruct b.
Qed.

Lemma split_seps_plain (c : ascii) (s : string) (b : bool) (cur : string) :
  sep_width (String c s) = 0%nat →
  split_seps 0 b cur (String c s) = split_seps 0 false (cur +:+ String c "") s.
Proof. intros Hw. cbn [split_seps]. by rewrite Hw. Qed.

Lemma startsWithSeparator_width (s : string) :
  startsWithSeparator s ↔ sep_width s ≠ 0%nat.
Proof.
  split.
  - intros (p & rest & Hin & ->). rewrite sep_width_append by done.
    destruct p; [by destruct (separators_not_empty "" Hin)|done].
  - intros Hw. destruct (sep_width s) as [|k] eqn:Hk; [done|].
    destruct (lead_width_found _ _ _ Hk) as (p & rest & Hin & -> & _).
    by exists p, rest.
Qed.

Lemma NoSep_cons (c : ascii) (f rest : string) :
  NoSep (String c f) rest ↔
  sep_width (String c f +:+ rest) = 0%nat ∧ NoSep f rest.
Proof.
  split.
  - intros H. split.
    + destruct (sep_width (String c f +:+ rest)) eqn:Hw; [done|].
      destruct (H "" (String c f)); [done|done|].
      apply startsWithSeparator_width. by rewrite Hw.
    + intros a b -> Hb. apply (H (String c a) b); [done|done].
  - intros [Hw H] a b Hab Hb. destruct a as [|x a].
    + rewrite append_nil_l in Hab. subst b.
      intros Hs. apply startsWithSeparator_width in Hs. by rewrite Hw in Hs.
    + rewrite append_cons in Hab. injection Hab as _ ->. by apply (H a b).
Qed.

Lemma noSeparatorIn_NoSep (f rest : string) :
  noSeparatorIn f rest = true ↔ NoSep f rest.
Proof.
  induction f as [|c f IH].
  - split; [|done]. intros _ a b Hab Hb. by destruct a, b.
  - cbn [noSeparatorIn]. rewrite NoSep_cons, andb_true_iff, Nat.eqb_eq.
    by rewrite IH.
Qed.

Lemma split_seps_field (f rest : string) (b : bool) (cur : string) :
  NoSep f rest → f ≠ "" →
  split_seps 0 b cur (f +:+ rest) = split_seps 0 false (cur +:+ f) rest.
Proof.
  revert b cur. induction f as [|c f IH]; intros b cur Hno Hne; [done|].
  apply NoSep_cons in Hno as [Hw Hno]. rewrite append_cons in Hw |- *.
  rewrite split_seps_plain by done.
  destruct f as [|c' f]; [done|].
  rewrite IH by done. by rewrite append_assoc.
Qed.

Lemma split_seps_inRun (s : string) (b : bool) :
  List.filter nonEmpty (split_seps 0 b "" s) =
  List.filter nonEmpty (split_seps 0 true "" s).
Proof.
  destruct s as [|c s]; [done|]. cbn [split_seps].
  destruct (sep_width (String c s)); [done|]. by destruct b.
Qed.

Lemma split_seps_gap (g s : string) (b : bool) :
  Gap g →
  List.filter nonEmpty (split_seps 0 b "" (g +:+ s)) =
  List.filter nonEmpty (split_seps 0 true "" s).
Proof.
  intros Hg. revert b. induction Hg as [|p g Hp Hg IH]; intros b.
  - apply split_seps_inRun.
  - rewrite append_assoc, split_seps_sep by done.
    rewrite List.filter_app, IH. by destruct b.
Qed.

Lemma Fields_empty (fs : list string) : Fields "" fs → fs = [].
Proof.
  inversion 1 as [|g f rest fs' Hg [Hf _] Hrest Hfs Heq]; [done|].
  destruct g; [|done]. by destruct f.
Qed.

(** The fields are the tokens of the split that are not empty. *)
Lemma Fields_split (s : string) (fs : list string) :
  Fields s fs →
  ∀ b : bool, List.filter nonEmpty (split_seps 0 b "" s) = fs.
Proof.
  induction 1 as [g Hg|g f rest fs Hg [Hne Hno] Hrest Hfs IH]; intros b.
  - rewrite <- (append_nil_r g), split_seps_gap by done. reflexivity.
  - rewrite split_seps_gap by done.
    rewrite split_seps_field by done. rewrite append_nil_l.
    assert (Hf : nonEmpty f = true) by (by destruct f).
    destruct Hrest as [->|(p & rest' & Hp & ->)].
    + apply Fields_empty in Hfs as ->. cbn [split_seps List.filter].
      by rewrite Hf.
    + rewrite split_seps_sep by done. cbn [app List.filter]. rewrite Hf.
      f_equal. rewrite <- (IH true), split_seps_sep by done. reflexivity.
Qed.

Lemma Fields_sep (p s : string) (fs : list string) :
  In p separators → Fields s fs → Fields (p +:+ s) fs.
Proof.
  intros Hp. inversion 1 as [g Hg|g f rest fs' Hg Hf Hrest Hfs]; subst.
  - constructor. by constructor.
  - rewrite <- append_assoc. constructor; [by constructor|done..].
Qed.

Lemma longest_field (s : string) :
  ∃ f rest : string, s = f +:+ rest ∧ NoSep f rest ∧
    (rest = "" ∨ startsWithSeparator rest).
Proof.
  induction s as [|c s (f & rest & Hs & Hno & Hrest)].
  - exists "", "". split; [done|]. split; [|by left].
    intros a b Hab Hb. by destruct a, b.
  - destruct (sep_width (String c s)) as [|k] eqn:Hw.
    + exists (String c f), rest. rewrite append_cons, <- Hs.
      split; [done|]. split; [|done]. apply NoSep_cons.
      by rewrite append_cons, <- Hs.
    + exists "", (String c s). split; [done|]. split.
      * intros a b Hab Hb. by destruct a, b.
      * right. apply startsWithSeparator_width. by rewrite Hw.
Qed.

(** Every string has its fields. *)
Lemma Fields_total (s : string) : ∃ fs : list string, Fields s fs.
Proof.
  remember (String.length s) as n eqn:Hn.
  revert s Hn. induction (lt_wf n) as [n _ IH]. intros s ->.
  destruct (longest_field s) as (f & rest & -> & Hno & Hrest).
  destruct f as [|c f].
  - rewrite append_nil_l. destruct Hrest as [->|(p & rest' & Hp & ->)].
    + exists []. constructor. constructor.
    + destruct (IH (String.length rest')) with (s := rest') as [fs Hfs];
        [|done|].
      * rewrite append_nil_l, append_length.
        destruct p; [by destruct (separators_not_empty "" Hp)|simpl; lia].
      * exists fs. by apply Fields_sep.
  - destruct (IH (String.length rest)) with (s := rest) as [fs Hfs];
      [rewrite append_length; simpl; lia|done|].
    exists (String c f :: fs).
    rewrite <- (append_nil_l (String c f +:+ rest)).
    constructor; [constructor|by split|done|done].
Qed.

Lemma Fields_Forall (s : string) (fs : list string) :
  Fields s fs → Forall (fun f => ∃ rest : string, Field f rest) fs.
Proof.
  induction 1 as [|g f rest fs Hg Hf Hrest Hfs IH]; constructor; [|done].
  by exists rest.
Qed.
End SplitSepFacts.

(** *** [parseInt] *)

Section ParseFacts.
Lemma digit_of_digitValue (c : ascii) : digit_of c = digitValue c.
Proof. destruct c as [[] [] [] [] [] [] [] []]; reflexivity. Qed.

Lemma digits_prefix_decimal (s : string) (acc : option Z) :
  digits_prefix acc s =
  match leadingDigits s with
  | [] => acc
  | ds => Some (default 0 acc * 10 ^ Z.of_nat (length ds) + decimal ds)%Z
  end.
Proof.
  revert acc. induction s as [|c s IH]; intros acc; [done|].
  cbn [digits_prefix leadingDigits]. rewrite digit_of_digitValue.
  destruct (digitValue c) as [d|]; [|done].
  rewrite IH. destruct (leadingDigits s) as [|d' ds] eqn:Hds.
  - cbn. f_equal. lia.
  - cbn [decimal length default from_option id]. f_equal.
    rewrite !Nat2Z.inj_succ, !Z.pow_succ_r by lia. ring.
Qed.

Lemma digits_prefix_plus (s : string) : digits_prefix None s = signedDecimal 1 s.
Proof.
  rewrite digits_prefix_decimal. unfold signedDecimal.
  destruct (leadingDigits s); [done|]. cbn [default from_option id]. f_equal. lia.
Qed.

Lemma digits_prefix_minus (s : string) :
  Z.opp <$> digits_prefix None s = signedDecimal (-1) s.
Proof.
  rewrite digits_prefix_decimal. unfold signedDecimal.
  destruct (leadingDigits s); [done|].
  cbn [default from_option id fmap option_fmap option_map]. f_equal; lia.
Qed.

(** On a text that does not start with white space, [parseInt] reads the
    integer the text starts with. *)
Lemma parseInt10_leadingInteger (f : string) :
  trimStart f = f → parseInt10 f = leadingInteger f.
Proof.
  intros Hf. unfold parseInt10, leadingInteger. rewrite Hf.
  destruct f as [|c f]; [done|].
  destruct c as [[] [] [] [] [] [] [] []];
    first [apply digits_prefix_minus|apply digits_prefix_plus].
Qed.

Lemma Field_trimStart (f rest : string) : Field f rest → trimStart f = f.
Proof.
  intros [Hne Hno]. apply trimStart_fixed.
  destruct (space_width f) as [|k] eqn:Hw; [done|].
  destruct (lead_width_found _ _ _ Hw) as (p & r & Hin & -> & _).
  destruct (Hno "" (p +:+ r)); [done|done|].
  exists p, (r +:+ rest). split; [by apply whiteSpace_separators|].
  by rewrite append_assoc.
Qed.

Lemma omap_parseInt10_nonEmpty (tokens : list string) :
  omap parseInt10 tokens = omap parseInt10 (List.filter nonEmpty tokens).
Proof.
  induction tokens as [|t tokens IH]; [done|]. cbn [List.filter].
  destruct t as [|c t]; [exact IH|].
  change (nonEmpty (String c t)) with true. cbv iota.
  change (omap parseInt10 (String c t :: ?l))
    with (match parseInt10 (String c t) with
          | Some n => n :: omap parseInt10 l
          | None => omap parseInt10 l
          end).
  by rewrite IH.
Qed.

Lemma omap_ext_Forall {A B : Type} (f g : A → option B) (l : list A) :
  Forall (fun a => f a = g a) l → omap f l = omap g l.
Proof.
  induction 1 as [|a l Ha Hl IH]; [done|].
  change (omap f (a :: l)) with (match f a with
                                 | Some b => b :: omap f l
                                 | None => omap f l
                                 end).
  change (omap g (a :: l)) with (match g a with
                                 | Some b => b :: omap g l
                                 | None => omap g l
                                 end).
  by rewrite Ha, IH.
Qed.

(** The integers the handler parses are those of the fields. *)
Lemma parsed_fields (s : string) (fs : list string) :
  Fields s fs → omap parseInt10 (split_commas_spaces s) = parsedIntegers fs.
Proof.
  intros Hfs. rewrite omap_parseInt10_nonEmpty. unfold split_commas_spaces.
  rewrite (Fields_split s fs Hfs). apply omap_ext_Forall.
  eapply Forall_impl; [apply (Fields_Forall s fs Hfs)|].
  intros f [rest Hf]. by apply parseInt10_leadingInteger, (Field_trimStart f rest).
Qed.
End ParseFacts.

(** ** The image splitter *)

Section RunFacts.
Lemma bind_run {A B : Type} (m : Run A) (f : A → Run B) (w : World) :
  (m ≫= f) w = match m w with
               | (w', Returned a) => f a w'
               | (w', Thrown e) => (w', Thrown e)
               end.
Proof. reflexivity. Qed.
End RunFacts.

Lemma keep_parsed (total : Z) (l : list (option Z)) :
  omap id (List.filter (keepIndex total) l) =
  List.filter (fun n => (1 <=? n)%Z && (n <=? total)%Z) (omap id l).
Proof.
  induction l as [|[n|] l IH]; [done| |exact IH].
  simpl. destruct ((1 <=? n)%Z && (n <=? total)%Z); simpl.
  - f_equal. exact IH.
  - exact IH.
Qed.

Lemma omap_id_map {A B : Type} (f : A → option B) (l : list A) :
  omap id (List.map f l) = omap f l.
Proof.
  induction l as [|a l IH]; [done|]. simpl.
  destruct (f a); simpl; [f_equal|]; exact IH.
Qed.

Lemma indicesToExtractOf_all (selectStr : string) (total : Z) :
  trim selectStr = "0" → indicesToExtractOf selectStr total = seqZ 1 total.
Proof. intros H. unfold indicesToExtractOf. by rewrite H. Qed.

Lemma indicesToExtractOf_tokens (selectStr : string) (total : Z) :
  trim selectStr ≠ "0" →
  indicesToExtractOf selectStr total =
  List.filter (fun n => (1 <=? n)%Z && (n <=? total)%Z)
    (omap parseInt10 (split_commas_spaces selectStr)).
Proof.
  intros H. unfold indicesToExtractOf.
  destruct (String.eqb_spec (trim selectStr) "0") as [He|_]; [done|].
  by rewrite keep_parsed, omap_id_map.
Qed.

Section SplitFacts.
Variable env : Env.
Variable settings : AppSettings.

Lemma imageSplit_step (runStartTime : Z) (nodeId : string) (node : Node)
    (inputs : IncomingData) (w : World) (u : string) (rest : list string) :
  images inputs = u :: rest →
  imageSplit env settings runStartTime nodeId node inputs w =
  match image_onload env (clock w) u with
  | Some (width, height) =>
      splitDecoded env settings runStartTime nodeId node u
        (str_or (n_data node !! "gridType") "2x2")
        (str_or (n_data node !! "gridSelect") "0")
        (num_nullish (n_data node !! "gridTrim") 10) width height
        (decodedWorld nodeId w)
  | None => (decodedWorld nodeId w, Thrown JUndefined)
  end.
Proof.
  intros Hi. unfold imageSplit. rewrite Hi.
  change (Nat.eqb (length (u :: rest)) 0) with false. cbv iota.
  rewrite bind_run. unfold updateNode at 1, modifyStore at 1.
  rewrite bind_run. unfold ask at 1. cbn [clock nth].
  by destruct (image_onload env (clock w) u) as [[width height]|].
Qed.

Lemma imageSplit_decoded (runStartTime : Z) (nodeId : string) (node : Node)
    (inputs : IncomingData) (w : World) (width height : Z) :
  images inputs ≠ [] →
  image_onload env (clock w) (nth 0 (images inputs) "") = Some (width, height) →
  imageSplit env settings runStartTime nodeId node inputs w =
  splitDecoded env settings runStartTime nodeId node (nth 0 (images inputs) "")
    (str_or (n_data node !! "gridType") "2x2")
    (str_or (n_data node !! "gridSelect") "0")
    (num_nullish (n_data node !! "gridTrim") 10) width height
    (decodedWorld nodeId w).
Proof.
  intros Hne Himg.
  destruct (images inputs) as [|u rest] eqn:Hi; [done|].
  rewrite (imageSplit_step _ _ _ _ _ u rest Hi). cbn [nth] in Himg |- *.
  by rewrite Himg.
Qed.

Lemma splitDecoded_empty_selection (runStartTime : Z) (nodeId : string) (node : Node)
    (sourceUrl gridType selectStr : string) (trimPx : Q) (width height : Z)
    (w : World) :
  indicesToExtractOf selectStr (colsOf gridType * colsOf gridType) = [] →
  splitDecoded env settings runStartTime nodeId node sourceUrl gridType selectStr
    trimPx width height w = (w, Thrown (JStr "无有效的选择索引")).
Proof. intros Hsel. unfold splitDecoded. rewrite Hsel. reflexivity. Qed.
End SplitFacts.

(** C2. On a grid of cols x rows cells the image splitter selects all cell
    numbers 1..cols*rows when the selection string trims to "0", that is
    when it is a 0 between white space. Otherwise it selects the integers
    parsed from the string, those its fields between commas and white space
    start with, that lie between 1 and cols*rows, in their order. When the
    selection is empty the handler throws an error, which is the
    no-valid-index error once the input image is there and decoded. *)
Theorem imageSplit_selection (env : Env) (settings : AppSettings) (runStartTime : Z)
    (nodeId : string) (node : Node) (inputs : IncomingData) (w : World) :
  let selectStr := str_or (n_data node !! "gridSelect") "0" in
  let cols := colsOf (str_or (n_data node !! "gridType") "2x2") in
  let rows := cols in
  let selection := indicesToExtractOf selectStr (cols * rows) in
  (trimsToZero selectStr → selection = seqZ 1 (cols * rows)) ∧
  (∃ fields : list string, Fields selectStr fields) ∧
  (∀ fields : list string,
     Fields selectStr fields → ¬ trimsToZero selectStr →
     selection = List.filter (fun n => (1 <=? n)%Z && (n <=? cols * rows)%Z)
                   (parsedIntegers fields)) ∧
  (selection = [] →
     (∃ message : jsval,
        snd (imageSplit env settings runStartTime nodeId node inputs w) = Thrown message) ∧
     (∀ width height : Z,
        images inputs ≠ [] →
        image_onload env (clock w) (nth 0 (images inputs) "") = Some (width, height) →
        snd (imageSplit env settings runStartTime nodeId node inputs w)
        = Thrown (JStr "无有效的选择索引"))).
Proof.
  intros selectStr cols rows selection.
  split; [intros Hz; by apply indicesToExtractOf_all, trimsToZero_trim|].
  split; [apply Fields_total|].
  split.
  { intros fields Hfields Hz. unfold selection.
    rewrite indicesToExtractOf_tokens by (by rewrite <- trimsToZero_trim).
    by rewrite (parsed_fields selectStr fields). }
  intros Hsel.
  assert (Hdec : ∀ width height : Z,
            images inputs ≠ [] →
            image_onload env (clock w) (nth 0 (images inputs) "") = Some (width, height) →
            snd (imageSplit env settings runStartTime nodeId node inputs w)
            = Thrown (JStr "无有效的选择索引")).
  { intros width height Hne Himg.
    rewrite (imageSplit_decoded _ _ _ _ _ _ _ _ _ Hne Himg).
    by rewrite splitDecoded_empty_selection. }
  split; [|exact Hdec].
  destruct (images inputs) as [|u rest] eqn:Hi.
  - eexists. unfold imageSplit. rewrite Hi. reflexivity.
  - destruct (image_onload env (clock w) u) as [[width height]|] eqn:Himg.
    + eexists. by apply (Hdec width height).
    + eexists. rewrite (imageSplit_step _ _ _ _ _ _ _ u rest Hi), Himg. reflexivity.
Qed.

(** The two examples of the specification, on a 3x3 grid, and a selection
    written with an ideographic space and a no-break space. *)
Example selection_all_3x3 :
  indicesToExtractOf "0" (3 * 3) = [1; 2; 3; 4; 5; 6; 7; 8; 9]%Z.
Proof. reflexivity. Qed.

Example selection_2_5_11 : indicesToExtractOf "2,5,11" (3 * 3) = [2; 5]%Z.
Proof. reflexivity. Qed.

Example selection_wide_spaces :
  indicesToExtractOf ("0" +:+ bytes [227; 128; 128]) (2 * 2) = [1; 2; 3; 4]%Z ∧
  indicesToExtractOf ("2" +:+ bytes [227; 128; 128] +:+ "5") (3 * 3) = [2; 5]%Z ∧
  indicesToExtractOf ("1" +:+ bytes [194; 160] +:+ "2") (2 * 2) = [1; 2]%Z.
Proof. by vm_compute. Qed.

(** *** Steps that keep a relation between the worlds before and after *)

Section KeepsFacts.
Variable R : World → World → Prop.
Hypothesis R_refl : ∀ w, R w w.
Hypothesis R_trans : ∀ w1 w2 w3, R w1 w2 → R w2 w3 → R w1 w3.
Context {A B : Type}.

Lemma Keeps_ret (a : A) : Keeps R (mret a : Run A).
Proof. intros w w' o [= <- <-]. apply R_refl. Qed.

Lemma Keeps_throw (message : jsval) : Keeps R (throw message : Run A).
Proof. intros w w' o [= <- <-]. apply R_refl. Qed.


Lemma Keeps_await (o : outcome A) : Keeps R (await o).
Proof. intros w w' o' [= <- <-]. apply R_refl. Qed.

Lemma Keeps_getState : Keeps R getState.
Proof. intros w w' o [= <- <-]. apply R_refl. Qed.

Lemma Keeps_bind (m : Run A) (f : A → Run B) :
  Keeps R m → (∀ a, Keeps R (f a)) → Keeps R (m ≫= f).
Proof.
  intros Hm Hf w w' o. rewrite bind_run.
  destruct (m w) as [w1 [a|e]] eqn:Hmw.
  - intros Hfa. eapply R_trans; [by eapply Hm|by eapply Hf].
  - intros [= <- <-]. by eapply Hm.
Qed.
End KeepsFacts.





Lemma Keeps_weaken (R R' : World → World → Prop) {A : Type} (m : Run A) :
  (∀ w w', R w w' → R' w w') → Keeps R m → Keeps R' m.
Proof. intros HR Hm w w' o Hrun. apply HR. by eapply Hm. Qed.








Section SplitLoopFacts.
Variable env : Env.
Variable settings : AppSettings.
Variables (nodeId : string) (node : Node) (sourceUrl : string) (cols : Z).
Variables (cellW cellH trimPx : Q) (total : nat).






(** With an upload key and an upload service that accepts every file, a
    cell that is large enough gives its node and its edge. *)
Hypothesis key_set : imgbbKey settings ≠ "".
Hypothesis uploads_accepted :
  ∀ (t : nat) (source : UploadSource) (name : option string),
    ∃ result : ImgbbResult,
      imgbb_fetch env t (imgbbKey settings) source name = Returned result ∧
      ir_success result = true.


End SplitLoopFacts.

Section SplitHandlerFacts.
Variable env : Env.
Variable settings : AppSettings.


End SplitHandlerFacts.



(** The example of the specification: cells of 300 by 300 with a trim of 160. *)
Example imageSplit_trim_160 :
  let w' := runNode sampleEnv sampleSettings ∅ "s" (worldOf splitStore) in
  statusOf (store w') "s" = Some (JStr "error") ∧
  statusMsgOf (store w') "s" = Some trimTooLarge ∧
  canvas w' = [] ∧ length (nodes (store w')) = 2%nat.
Proof. vm_compute. repeat split. Qed.

(** C9. The image splitter reads the first resolved image only: two input
    bundles with the same first image give the same run, and how any other
    image would decode does not matter. *)
Theorem imageSplit_first_image_only (env : Env) (settings : AppSettings)
    (runStartTime : Z) (nodeId : string) (node : Node) (inputs1 inputs2 : IncomingData)
    (w : World) (u : string) (r1 r2 : list string)
    (f : nat → string → option (Z * Z)) :
  images inputs1 = u :: r1 →
  images inputs2 = u :: r2 →
  (∀ t : nat, f t u = image_onload env t u) →
  imageSplit env settings runStartTime nodeId node inputs1 w =
    imageSplit env settings runStartTime nodeId node inputs2 w ∧
  imageSplit (withImageOnload env f) settings runStartTime nodeId node inputs1 w =
    imageSplit env settings runStartTime nodeId node inputs1 w.
Proof.
  intros H1 H2 Hf. split.
  - unfold imageSplit. by rewrite H1, H2.
  - rewrite (imageSplit_step _ _ _ _ _ _ _ u r1 H1).
    rewrite (imageSplit_step _ _ _ _ _ _ _ u r1 H1).
    cbn [image_onload withImageOnload]. rewrite Hf.
    destruct (image_onload env (clock w) u) as [[width height]|]; reflexivity.
Qed.

Lemma imageSplit_selection_witness :
  let inputs := getIncomingData splitStore "s" in
  let spaced := bytes [227; 128; 128] +:+ "0" +:+ bytes [194; 160] in
  (Fields "2,5,11" ["2"; "5"; "11"] ∧ ¬ trimsToZero "2,5,11" ∧
   indicesToExtractOf "2,5,11" (3 * 3) = [2; 5]%Z) ∧
  (trimsToZero spaced ∧ indicesToExtractOf spaced (2 * 2) = [1; 2; 3; 4]%Z) ∧
  (let bare := mkNode "s" "imageSplit" ∅ in
   indicesToExtractOf (str_or (n_data bare !! "gridSelect") "0")
     (colsOf (str_or (n_data bare !! "gridType") "2x2")
      * colsOf (str_or (n_data bare !! "gridType") "2x2"))
   = [1; 2; 3; 4]%Z) ∧
  (images inputs ≠ [] ∧ indicesToExtractOf "7" (2 * 2) = [] ∧
   snd (imageSplit sampleEnv sampleSettings 0 "s" (selectNode "2x2" "7") inputs
          (worldOf splitStore)) = Thrown (JStr "无有效的选择索引")).
Proof.
  intros inputs spaced.
  assert (Hcomma : In "," separators) by (left; reflexivity).
  assert (Hf : ∀ f rest : string,
            f ≠ "" → noSeparatorIn f rest = true → Field f rest).
  { intros f rest Hne Hno. split; [exact Hne|]. by apply noSeparatorIn_NoSep. }
  assert (H11 : Fields ",11" ["11"]).
  { apply (Fields_cons "," "11" "" []).
    - apply (Gap_cons "," ""); [exact Hcomma|constructor].
    - apply Hf; [discriminate|reflexivity].
    - left; reflexivity.
    - constructor; constructor. }
  assert (H5 : Fields ",5,11" ["5"; "11"]).
  { apply (Fields_cons "," "5" ",11" ["11"]).
    - apply (Gap_cons "," ""); [exact Hcomma|constructor].
    - apply Hf; [discriminate|reflexivity].
    - right. by exists ",", "11".
    - exact H11. }
  assert (H2 : Fields "2,5,11" ["2"; "5"; "11"]).
  { apply (Fields_cons "" "2" ",5,11" ["5"; "11"]).
    - constructor.
    - apply Hf; [discriminate|reflexivity].
    - right. by exists ",", "5,11".
    - exact H5. }
  assert (Hnz : ¬ trimsToZero "2,5,11").
  { intros Hz. apply trimsToZero_trim in Hz. vm_compute in Hz. discriminate. }
  assert (Hz : trimsToZero spaced) by (apply trimsToZero_trim; reflexivity).
  assert (Hne : images inputs ≠ []) by (vm_compute; discriminate).
  split; [|split; [|split]].
  - split; [exact H2|]. split; [exact Hnz|].
    destruct (imageSplit_selection sampleEnv sampleSettings 0 "s"
                (selectNode "3x3" "2,5,11") inputs (worldOf splitStore))
      as (_ & _ & Hparsed & _).
    exact (Hparsed ["2"; "5"; "11"] H2 Hnz).
  - split; [exact Hz|].
    destruct (imageSplit_selection sampleEnv sampleSettings 0 "s"
                (selectNode "2x2" spaced) inputs (worldOf splitStore))
      as (Hall & _).
    exact (Hall Hz).
  - intros bare.
    destruct (imageSplit_selection sampleEnv sampleSettings 0 "s" bare inputs
                (worldOf splitStore)) as (Hall & _).
    exact (Hall (proj2 (trimsToZero_trim "0") eq_refl)).
  - split; [exact Hne|].
    assert (He : indicesToExtractOf "7" (2 * 2) = []) by reflexivity.
    split; [exact He|].
    destruct (imageSplit_selection sampleEnv sampleSettings 0 "s"
                (selectNode "2x2" "7") inputs (worldOf splitStore))
      as (_ & _ & _ & Hempty).
    exact (proj2 (Hempty He) 600%Z 600%Z Hne eq_refl).
Defined.

Lemma imageSplit_first_image_only_witness :
  let one := {| texts := []; images := ["u1"]; imageRemarks := [] |} in
  let two := {| texts := []; images := ["u1"; "u2"]; imageRemarks := [] |} in
  imageSplit sampleEnv sampleSettings 0 "s" splitNode two (worldOf splitStore) =
  imageSplit sampleEnv sampleSettings 0 "s" splitNode one (worldOf splitStore).
Proof.
  intros one two.
  exact (proj1 (imageSplit_first_image_only sampleEnv sampleSettings 0 "s" splitNode
                  two one (worldOf splitStore) "u1" ["u2"] []
                  (image_onload sampleEnv) eq_refl eq_refl (fun t => eq_refl))).
Defined.

(** ** The video generator's images *)

(** C5 as stated fails on the Comfly path: four resolved images are all
    submitted, not the first three. *)
Lemma comflyVideo_keeps_all_images :
  cp_images (comflyVideoPayload fourImages) = Some ["a"; "b"; "c"; "d"] ∧
  cp_images (comflyVideoPayload fourImages) ≠ Some (take 3 ["a"; "b"; "c"; "d"]).
Proof. split; [reflexivity|discriminate]. Qed.

Lemma prepareVeoPayload_veo (params : VeoParams) :
  vparams_model params ≠ "sora-2" →
  ∃ p : VeoPayload, prepareVeoPayload params = Veo p ∧
    (vp_firstFrameUrl p, vp_lastFrameUrl p, vp_urls p) =
    match vparams_urls params with
    | [] => ("", "", None)
    | [a] => (a, "", None)
    | [a; b] => (a, b, None)
    | a :: b :: c :: _ => ("", "", Some [a; b; c])
    end.
Proof.
  intros Hm. unfold prepareVeoPayload.
  destruct (String.eqb_spec (vparams_model params) "sora-2") as [He|_]; [done|].
  eexists; split; [reflexivity|].
  destruct (vparams_urls params) as [|a [|b [|c rest]]]; reflexivity.
Qed.

Lemma prepareVeoPayload_sora (params : VeoParams) :
  vparams_model params = "sora-2" →
  ∃ p : SoraPayload, prepareVeoPayload params = Sora p ∧
    sp_url p = match vparams_urls params with
               | [] => ""
               | a :: _ => if String.eqb a "" then "" else a
               end.
Proof.
  intros Hm. unfold prepareVeoPayload. rewrite Hm. simpl String.eqb. cbv iota.
  eexists; split; [reflexivity|]. unfold opt_or. simpl.
  by destruct (vparams_urls params).
Qed.

Section VideoFacts.
Variable env : Env.
Variable settings : AppSettings.

(** The video generator on the GRSAI path: the run is the answer to one
    request. *)
Lemma aiVideoGen_grsai (runStartTime : Z) (nodeId : string) (node : Node)
    (inputs : IncomingData) (fullPrompt ratio : string) (w : World) :
  let model := str_field (n_data node !! "model") in
  let actualModel := opt_or model "veo3.1-fast" in
  let payload := prepareVeoPayload
    {| vparams_model := actualModel;
       vparams_prompt := opt_or (Some fullPrompt) "Cinematic masterpiece";
       vparams_urls := images inputs;
       vparams_aspectRatio := ratio;
       vparams_resolution := str_field (n_data node !! "resolution");
       vparams_durationSeconds := str_field (n_data node !! "durationSeconds") |} in
  let endpoint := if String.eqb actualModel "sora-2" then "/v1/video/sora-video"
                  else "/v1/video/veo" in
  let w1 := {| store := updateNodeData nodeId
                          {[ "statusMsg" := JStr (modeMsgOf inputs) ]} (store w);
               canvas := canvas w; timers := timers w; clock := S (clock w) |} in
  match model with Some m => startsWith "comfly:" m = false | None => True end →
  aiVideoGen env settings runStartTime nodeId node inputs fullPrompt ratio w =
  match grsai_video_fetch env (clock w) endpoint (grsaiKey settings) payload with
  | Returned data =>
      if negb (gs_code data =? 0)%Z then (w1, Thrown (JStr (default "" (gs_msg data))))
      else startPoll GrsaiVideo (gs_data_id data) runStartTime nodeId node w1
  | Thrown e => (w1, Thrown e)
  end.
Proof.
  intros model actualModel payload endpoint w1 Hpath.
  unfold aiVideoGen. fold model.
  replace (match model with Some m => startsWith "comfly:" m | None => false end)
    with false by (by destruct model as [m|]; [rewrite Hpath|]).
  cbv iota. fold actualModel.
  rewrite bind_run. unfold updateNode at 1, modifyStore at 1.
  rewrite bind_run. unfold grsaiVideo.
  cbn [gv_model gv_prompt gv_urls gv_aspectRatio gv_resolution gv_durationSeconds
       gv_apiKey default from_option id].
  fold payload endpoint.
  rewrite bind_run. unfold call at 1. rewrite bind_run. unfold ask at 1, await at 1.
  cbn [clock store canvas timers].
  destruct (grsai_video_fetch env (clock w) endpoint (grsaiKey settings) payload)
    as [data|e]; [|reflexivity].
  by destruct (negb (gs_code data =? 0)%Z).
Qed.

(** The same on the Comfly path. *)
Lemma aiVideoGen_comfly (runStartTime : Z) (nodeId : string) (node : Node)
    (inputs : IncomingData) (fullPrompt ratio : string) (w : World) (m : string) :
  let actualModel := afterColon m in
  let payload := comflyVideoPayload
    {| cparams_model := actualModel;
       cparams_prompt := opt_or (Some fullPrompt) "Cinematic masterpiece";
       cparams_urls := Some (images inputs);
       cparams_aspectRatio := ratio;
       cparams_apiKey := comflyKey settings;
       cparams_enable_upsample :=
         if bool_decide (str_field (n_data node !! "resolution") = Some "1080p")
            && String.eqb actualModel "veo3.1-fast"
         then Some true else None |} in
  let w1 := {| store := updateNodeData nodeId
                          {[ "statusMsg" := JStr (modeMsgOf inputs) ]} (store w);
               canvas := canvas w; timers := timers w; clock := S (clock w) |} in
  str_field (n_data node !! "model") = Some m →
  startsWith "comfly:" m = true →
  aiVideoGen env settings runStartTime nodeId node inputs fullPrompt ratio w =
  match comfly_video_fetch env (clock w) (comflyKey settings) payload with
  | Returned data =>
      match opt_truthy (cs_task_id data), opt_truthy (cs_data_task_id data) with
      | Some taskId, _ => startPoll ComflyVideo taskId runStartTime nodeId node w1
      | None, Some taskId => startPoll ComflyVideo taskId runStartTime nodeId node w1
      | None, None =>
          (w1, Thrown (JStr (opt_or (cs_message data) "Comfly 视频任务提交失败")))
      end
  | Thrown e => (w1, Thrown e)
  end.
Proof.
  intros actualModel payload w1 Hm Hpath.
  unfold aiVideoGen. rewrite Hm, Hpath. cbv iota.
  cbn [default from_option id]. fold actualModel.
  rewrite bind_run. unfold updateNode at 1, modifyStore at 1.
  rewrite bind_run. unfold comflyVideo. cbn [cparams_apiKey]. fold payload.
  rewrite bind_run. unfold call at 1. rewrite bind_run. unfold ask at 1, await at 1.
  cbn [clock store canvas timers].
  destruct (comfly_video_fetch env (clock w) (comflyKey settings) payload)
    as [data|e]; [|reflexivity].
  by destruct (opt_truthy (cs_task_id data)), (opt_truthy (cs_data_task_id data)).
Qed.
End VideoFacts.

(** C5, amended. What the video generator submits is read off its run: the
    run is decided by the provider's answer to one request, whose image
    fields are these. On the GRSAI path with a model other than sora-2 they
    follow the number of resolved images: none for no image, the first frame
    for one, the first and last frame for two, and the first three as the
    reference set for three or more. With the model sora-2 the request
    carries the first image only. On the Comfly path (a model that starts
    with comfly:) the request carries all resolved images, in order, and no
    image field without one. In each case an error of the request is the
    error of the run, and an accepted request starts the poll of its task. *)
Theorem video_images_submitted (env : Env) (settings : AppSettings)
    (runStartTime : Z) (nodeId : string) (node : Node) (inputs : IncomingData)
    (fullPrompt ratio : string) (w : World) :
  let imgs := images inputs in
  let model := str_field (n_data node !! "model") in
  let run := aiVideoGen env settings runStartTime nodeId node inputs fullPrompt
               ratio w in
  let started (path : PollPath) (taskId : string) : Prop :=
    snd run = Returned tt ∧
    timers (fst run) =
      timers w ++ [(0%Z, {| pt_path := path; pt_taskId := taskId;
                            pt_nodeId := nodeId; pt_node := node;
                            pt_runStartTime := runStartTime |})] in
  let onGrsai : Prop :=
    match model with Some m => startsWith "comfly:" m = false | None => True end in
  (onGrsai → opt_or model "veo3.1-fast" ≠ "sora-2" →
     ∃ p : VeoPayload,
       (vp_firstFrameUrl p, vp_lastFrameUrl p, vp_urls p) = veoImageFields imgs ∧
       ∀ answer : outcome GrsaiSubmitResponse,
         grsai_video_fetch env (clock w) "/v1/video/veo" (grsaiKey settings) (Veo p)
         = answer →
         (∀ e : jsval, answer = Thrown e → snd run = Thrown e) ∧
         (∀ data : GrsaiSubmitResponse,
            answer = Returned data → gs_code data = 0%Z →
            started GrsaiVideo (gs_data_id data))) ∧
  (onGrsai → opt_or model "veo3.1-fast" = "sora-2" →
     ∃ p : SoraPayload,
       sp_url p = match imgs with [] => "" | a :: _ => a end ∧
       ∀ answer : outcome GrsaiSubmitResponse,
         grsai_video_fetch env (clock w) "/v1/video/sora-video" (grsaiKey settings)
           (Sora p) = answer →
         (∀ e : jsval, answer = Thrown e → snd run = Thrown e) ∧
         (∀ data : GrsaiSubmitResponse,
            answer = Returned data → gs_code data = 0%Z →
            started GrsaiVideo (gs_data_id data))) ∧
  (∀ m : string, model = Some m → startsWith "comfly:" m = true →
     ∃ p : ComflyVideoPayload,
       cp_images p = match imgs with [] => None | _ :: _ => Some imgs end ∧
       ∀ answer : outcome ComflySubmitResponse,
         comfly_video_fetch env (clock w) (comflyKey settings) p = answer →
         (∀ e : jsval, answer = Thrown e → snd run = Thrown e) ∧
         (∀ (data : ComflySubmitResponse) (taskId : string),
            answer = Returned data → opt_truthy (cs_task_id data) = Some taskId →
            started ComflyVideo taskId)).
Proof.
  intros imgs model run started onGrsai. split; [|split].
  - intros Hpath Hm.
    pose proof (aiVideoGen_grsai env settings runStartTime nodeId node inputs
                  fullPrompt ratio w Hpath) as Hrun.
    fold model run in Hrun. cbv zeta in Hrun.
    match type of Hrun with context [prepareVeoPayload ?params] =>
      destruct (prepareVeoPayload_veo params Hm) as (p & Hp & Hfields);
      rewrite Hp in Hrun end.
    destruct (String.eqb_spec (opt_or model "veo3.1-fast") "sora-2") as [He|_];
      [done|].
    exists p. split; [exact Hfields|].
    intros answer Hanswer. rewrite Hanswer in Hrun. split.
    + intros e ->. by rewrite Hrun.
    + intros data -> Hcode. rewrite Hcode in Hrun. unfold started.
      rewrite Hrun. by split.
  - intros Hpath Hm.
    pose proof (aiVideoGen_grsai env settings runStartTime nodeId node inputs
                  fullPrompt ratio w Hpath) as Hrun.
    fold model run in Hrun. cbv zeta in Hrun.
    match type of Hrun with context [prepareVeoPayload ?params] =>
      destruct (prepareVeoPayload_sora params Hm) as (p & Hp & Hurl);
      rewrite Hp in Hrun end.
    rewrite Hm in Hrun. cbn [String.eqb Ascii.eqb] in Hrun. simpl in Hrun.
    exists p. split.
    { rewrite Hurl. cbn [vparams_urls]. fold imgs. destruct imgs as [|a rest]; [done|].
      by destruct (String.eqb_spec a "") as [->|]. }
    intros answer Hanswer. rewrite Hanswer in Hrun. split.
    + intros e ->. by rewrite Hrun.
    + intros data -> Hcode. rewrite Hcode in Hrun. unfold started.
      rewrite Hrun. by split.
  - intros m Hm Hpath.
    pose proof (aiVideoGen_comfly env settings runStartTime nodeId node inputs
                  fullPrompt ratio w m Hm Hpath) as Hrun.
    fold run in Hrun. cbv zeta in Hrun.
    eexists. split; [|intros answer Hanswer; rewrite Hanswer in Hrun; split].
    + cbn [comflyVideoPayload cp_images cparams_urls]. fold imgs.
      by destruct imgs.
    + intros e ->. by rewrite Hrun.
    + intros data taskId -> Hid. rewrite Hid in Hrun. unfold started.
      rewrite Hrun. by split.
Qed.

Lemma video_images_submitted_witness :
  let comfly := videoStore "comfly:veo3.1-fast" in
  let grsai := videoStore "veo3.1-fast" in
  let task (path : PollPath) (model : string) : PollTask :=
    {| pt_path := path; pt_taskId := "task-1"; pt_nodeId := "v";
       pt_node := mkNode "v" "aiVideoGen" {[ "model" := JStr model ]};
       pt_runStartTime := 0 |} in
  images (getIncomingData comfly "v") = ["a"; "b"; "c"; "d"] ∧
  (∃ p : ComflyVideoPayload,
     cp_images p = Some ["a"; "b"; "c"; "d"] ∧
     comfly_video_fetch sampleEnv 0 "c" p
     = Returned {| cs_task_id := Some "task-1"; cs_data_task_id := None;
                   cs_message := None |} ∧
     timers (fst (aiVideoGen sampleEnv sampleSettings 0 "v"
                    (mkNode "v" "aiVideoGen" {[ "model" := JStr "comfly:veo3.1-fast" ]})
                    (getIncomingData comfly "v") "p" "16:9" (worldOf comfly)))
     = [(0%Z, task ComflyVideo "comfly:veo3.1-fast")]) ∧
  (∃ p : VeoPayload,
     (vp_firstFrameUrl p, vp_lastFrameUrl p, vp_urls p)
     = ("", "", Some ["a"; "b"; "c"]) ∧
     timers (fst (aiVideoGen sampleEnv sampleSettings 0 "v"
                    (mkNode "v" "aiVideoGen" {[ "model" := JStr "veo3.1-fast" ]})
                    (getIncomingData grsai "v") "p" "16:9" (worldOf grsai)))
     = [(0%Z, task GrsaiVideo "veo3.1-fast")]).
Proof.
  intros comfly grsai task. split; [reflexivity|]. split.
  - destruct (video_images_submitted sampleEnv sampleSettings 0 "v"
                (mkNode "v" "aiVideoGen" {[ "model" := JStr "comfly:veo3.1-fast" ]})
                (getIncomingData comfly "v") "p" "16:9" (worldOf comfly))
      as (_ & _ & Hcomfly).
    destruct (Hcomfly "comfly:veo3.1-fast" eq_refl eq_refl) as (p & Himgs & Hrun).
    exists p. split; [exact Himgs|]. split; [reflexivity|].
    destruct (Hrun _ eq_refl) as (_ & Hstart).
    exact (proj2 (Hstart _ "task-1" eq_refl eq_refl)).
  - destruct (video_images_submitted sampleEnv sampleSettings 0 "v"
                (mkNode "v" "aiVideoGen" {[ "model" := JStr "veo3.1-fast" ]})
                (getIncomingData grsai "v") "p" "16:9" (worldOf grsai))
      as (Hveo & _).
    destruct (Hveo eq_refl ltac:(discriminate)) as (p & Hfields & Hrun).
    exists p. split; [exact Hfields|].
    destruct (Hrun _ eq_refl) as (_ & Hstart).
    exact (proj2 (Hstart _ eq_refl eq_refl)).
Defined.

(** ** Polling *)

Section PollFacts.
Variable env : Env.
Variable settings : AppSettings.

Lemma call_run {A : Type} (answer : nat → outcome A) (w : World) :
  call answer w = (tick w, answer (clock w)).
Proof. reflexivity. Qed.

Lemma finalizeNode_run (runStartTime : Z) (nodeId status : string)
    (additionalData : gmap string jsval) (w : World) :
  finalizeNode env runStartTime nodeId status additionalData w =
  ({| store := updateNodeData nodeId
                 (additionalData ∪
                  {[ "status" := JStr status;
                     "duration" :=
                       JNum (binary64 (toFixed1 (binary64
                               (inject_Z (Date_now env (clock w) - runStartTime)
                                / 1000)))) ]})
                 (store w);
      canvas := canvas w; timers := timers w; clock := S (clock w) |},
   Returned tt).
Proof. reflexivity. Qed.

Lemma findNode_updateNodeData (nodeId : string) (patch : gmap string jsval)
    (st : Store) (nid : string) :
  findNode (nodes (updateNodeData nodeId patch st)) nid =
  (fun node => if decide (n_id node = nodeId)
               then with_data node (patch ∪ n_data node) else node)
    <$> findNode (nodes st) nid.
Proof.
  unfold findNode, updateNodeData. cbn [nodes].
  induction (nodes st) as [|n ns IH]; [done|]. cbn [List.map List.find].
  replace (n_id (if decide (n_id n = nodeId)
                 then with_data n (patch ∪ n_data n) else n)) with (n_id n)
    by (by destruct (decide _)).
  destruct (bool_decide (n_id n = nid)); [done|exact IH].
Qed.

Lemma status_after_finalize_val (runStartTime : Z) (nodeId status : string)
    (message : jsval) (w : World) (n : Node) :
  findNode (nodes (store w)) nodeId = Some n →
  let w' := fst (finalizeNode env runStartTime nodeId status
                   {[ "statusMsg" := message ]} w) in
  statusOf (store w') nodeId = Some (JStr status) ∧
  statusMsgOf (store w') nodeId = Some message ∧
  timers w' = timers w.
Proof.
  intros Hn. rewrite finalizeNode_run. cbn [fst store timers].
  unfold statusOf, statusMsgOf. rewrite findNode_updateNodeData, Hn.
  assert (n_id n = nodeId) as Hid.
  { unfold findNode in Hn. apply find_some in Hn as [_ Hn].
    by apply bool_decide_eq_true in Hn. }
  cbn [fmap option_fmap option_map mbind option_bind].
  rewrite decide_True by done. cbn [with_data n_data].
  split; [|split; [|done]].
  - apply lookup_union_Some_l. rewrite lookup_union_r by done.
    by rewrite lookup_insert_eq.
  - apply lookup_union_Some_l. by apply lookup_union_Some_l.
Qed.

Lemma status_after_finalize (runStartTime : Z) (nodeId status text : string)
    (w : World) (n : Node) :
  findNode (nodes (store w)) nodeId = Some n →
  let w' := fst (finalizeNode env runStartTime nodeId status
                   {[ "statusMsg" := JStr text ]} w) in
  statusOf (store w') nodeId = Some (JStr status) ∧
  statusMsgOf (store w') nodeId = Some (JStr text) ∧
  timers w' = timers w.
Proof. apply status_after_finalize_val. Qed.

(** A reported failure on each of the four paths. *)
Lemma pollComflyImage_failed (task : PollTask) (w : World) (n : Node)
    (resObj : ComflyImageResObj) :
  findNode (nodes (store w)) (pt_nodeId task) = Some n →
  pollComflyImageResult env (clock w) (pt_taskId task) (comflyKey settings)
    = Returned resObj →
  rawStatusOf (cit_status (taskInfoOf resObj)) (cit_state (taskInfoOf resObj))
    ∈ ["FAILED"; "ERROR"; "FAILURE"] →
  let w' := fst (pollComflyImage env settings task w) in
  statusOf (store w') (pt_nodeId task) = Some (JStr "error") ∧
  statusMsgOf (store w') (pt_nodeId task)
    = Some (JStr (opt_or (cit_fail_reason (taskInfoOf resObj)) "Generation Failed")) ∧
  timers w' = timers w.
Proof.
  intros Hn Hres Hfail. unfold pollComflyImage.
  rewrite bind_run, call_run, Hres. cbv zeta.
  rewrite (bool_decide_eq_true_2 _ Hfail). cbv iota.
  by apply (status_after_finalize _ _ _ _ (tick w) n).
Qed.

Lemma pollComflyVideo_failed (task : PollTask) (w : World) (n : Node)
    (result : ComflyVideoResult) :
  findNode (nodes (store w)) (pt_nodeId task) = Some n →
  pollComflyResult env (clock w) (pt_taskId task) (comflyKey settings)
    = Returned result →
  rawStatusOf (cv_status result) (cv_state result) ∈ ["FAILURE"; "FAILED"] →
  let w' := fst (pollComflyVideo env settings task w) in
  statusOf (store w') (pt_nodeId task) = Some (JStr "error") ∧
  statusMsgOf (store w') (pt_nodeId task)
    = Some (JStr (opt_or (cv_fail_reason result) "Generation Failed")) ∧
  timers w' = timers w.
Proof.
  intros Hn Hres Hfail. unfold pollComflyVideo.
  rewrite bind_run, call_run, Hres. cbv zeta.
  assert (String.eqb (rawStatusOf (cv_status result) (cv_state result)) "FAILURE"
          || String.eqb (rawStatusOf (cv_status result) (cv_state result)) "FAILED"
          = true) as ->.
  { apply orb_true_iff. rewrite !String.eqb_eq.
    apply elem_of_cons in Hfail as [H|H]; [by left|right].
    by apply list_elem_of_singleton in H. }
  cbv iota. by apply (status_after_finalize _ _ _ _ (tick w) n).
Qed.

Lemma pollGrsai_failed (task : PollTask) (w : World) (n : Node)
    (result : GrsaiResult) :
  findNode (nodes (store w)) (pt_nodeId task) = Some n →
  pollGrsaiResult env (clock w) (pt_taskId task) (grsaiKey settings)
    = Returned result →
  gr_status result = Some "failed" →
  (let w' := fst (pollGrsaiImage env settings task w) in
   statusOf (store w') (pt_nodeId task) = Some (JStr "error") ∧
   statusMsgOf (store w') (pt_nodeId task) = Some (JStr "Violated/Failed") ∧
   timers w' = timers w) ∧
  (let w' := fst (pollGrsaiVideo env settings task w) in
   statusOf (store w') (pt_nodeId task) = Some (JStr "error") ∧
   statusMsgOf (store w') (pt_nodeId task) = Some (JStr "Generation Failed") ∧
   timers w' = timers w).
Proof.
  intros Hn Hres Hfail. unfold pollGrsaiImage, pollGrsaiVideo.
  rewrite !bind_run, !call_run, Hres. cbv zeta.
  rewrite !(bool_decide_eq_true_2 _ Hfail). cbv iota.
  split; by apply (status_after_finalize _ _ _ _ (tick w) n).
Qed.
End PollFacts.

Lemma opt_or_Some (r fallback : string) : r ≠ "" → opt_or (Some r) fallback = r.
Proof. intros Hr. unfold opt_or. by destruct (String.eqb_spec r ""). Qed.

(** C7 as stated fails: on the Comfly path a failure reported without a
    reason gets the engine's own fallback text, and on the GRSAI path the
    message is a fixed text whatever reason the provider reports. *)
Lemma failure_reason_not_surfaced :
  (∃ result : ComflyVideoResult,
     pollComflyResult sampleEnv (clock (startedWorld "v")) "task-1" "c" = Returned result ∧
     cv_status result = Some "FAILURE" ∧ cv_fail_reason result = None) ∧
  statusMsgOf (store (fireTimer sampleEnv sampleSettings (startedWorld "v"))) "v"
    = Some (JStr "Generation Failed") ∧
  (∃ result : GrsaiResult,
     pollGrsaiResult sampleEnv (clock (startedWorld "g")) "task-1" "g" = Returned result ∧
     gr_status result = Some "failed" ∧
     gr_failure_reason result = Some "content policy violation") ∧
  statusMsgOf (store (fireTimer sampleEnv sampleSettings (startedWorld "g"))) "g"
    = Some (JStr "Violated/Failed").
Proof.
  split; [eexists; repeat split|].
  split; [vm_compute; reflexivity|].
  split; [eexists; repeat split|].
  vm_compute; reflexivity.
Qed.

(** C7, amended. When a poll answer reports an explicit failure status, the
    polled node's status becomes error and the poll is not scheduled again.
    The status message is, on the two Comfly paths, the provider's
    [fail_reason] when it is a non-empty text and "Generation Failed"
    otherwise; on the GRSAI image path it is "Violated/Failed" and on the
    GRSAI video path "Generation Failed". The failure statuses are FAILED,
    ERROR, FAILURE for Comfly images, FAILURE, FAILED for Comfly videos (any
    letter case) and failed for GRSAI. *)
Theorem poll_reported_failure (env : Env) (settings : AppSettings) (task : PollTask)
    (w : World) (n : Node) :
  findNode (nodes (store w)) (pt_nodeId task) = Some n →
  let nodeId := pt_nodeId task in
  let w' := fst (poll env settings task w) in
  let failed (text : string) :=
    statusOf (store w') nodeId = Some (JStr "error") ∧
    statusMsgOf (store w') nodeId = Some (JStr text) ∧
    timers w' = timers w in
  (∀ resObj : ComflyImageResObj,
     pt_path task = ComflyImage →
     pollComflyImageResult env (clock w) (pt_taskId task) (comflyKey settings)
       = Returned resObj →
     rawStatusOf (cit_status (taskInfoOf resObj)) (cit_state (taskInfoOf resObj))
       ∈ ["FAILED"; "ERROR"; "FAILURE"] →
     failed (opt_or (cit_fail_reason (taskInfoOf resObj)) "Generation Failed")) ∧
  (∀ result : ComflyVideoResult,
     pt_path task = ComflyVideo →
     pollComflyResult env (clock w) (pt_taskId task) (comflyKey settings)
       = Returned result →
     rawStatusOf (cv_status result) (cv_state result) ∈ ["FAILURE"; "FAILED"] →
     failed (opt_or (cv_fail_reason result) "Generation Failed")) ∧
  (∀ result : GrsaiResult,
     pollGrsaiResult env (clock w) (pt_taskId task) (grsaiKey settings)
       = Returned result →
     gr_status result = Some "failed" →
     (pt_path task = GrsaiImage → failed "Violated/Failed") ∧
     (pt_path task = GrsaiVideo → failed "Generation Failed")).
Proof.
  intros Hn nodeId w' failed. subst w' failed. cbv beta.
  split; [|split].
  - intros resObj Hp Hres Hfail. unfold poll. rewrite Hp.
    by eapply pollComflyImage_failed.
  - intros result Hp Hres Hfail. unfold poll. rewrite Hp.
    by eapply pollComflyVideo_failed.
  - intros result Hres Hfail.
    destruct (pollGrsai_failed env settings task w n result Hn Hres Hfail)
      as [Hi Hv].
    split; intros Hp; unfold poll; rewrite Hp; [exact Hi|exact Hv].
Qed.

Lemma poll_reported_failure_witness :
  let w := worldOf generatorStore in
  findNode (nodes (store w)) "g" = Some (pt_node grsaiImageTask) ∧
  statusOf (store (fst (poll sampleEnv sampleSettings grsaiImageTask w))) "g"
    = Some (JStr "error") ∧
  statusMsgOf (store (fst (poll sampleEnv sampleSettings grsaiImageTask w))) "g"
    = Some (JStr "Violated/Failed") ∧
  timers (fst (poll sampleEnv sampleSettings grsaiImageTask w)) = timers w.
Proof.
  intros w.
  assert (Hn : findNode (nodes (store w)) (pt_nodeId grsaiImageTask)
               = Some (pt_node grsaiImageTask)) by reflexivity.
  split; [exact Hn|].
  destruct (poll_reported_failure sampleEnv sampleSettings grsaiImageTask w _ Hn)
    as (_ & _ & Hg).
  exact (proj1 (Hg _ eq_refl eq_refl) eq_refl).
Defined.

(** ** The failure boundary of [executeNode] *)

Section BoundaryFacts.
Variable env : Env.
Variable settings : AppSettings.

Lemma tryCatch_thrown {A : Type} (body : Run A) (handler : jsval → Run A)
    (w w1 : World) (message : jsval) :
  body w = (w1, Thrown message) → tryCatch body handler w = handler message w1.
Proof. intros H. unfold tryCatch. by rewrite H. Qed.

(** A [poll] whose request throws ends with the error and has touched
    neither the store nor the timers: nothing catches the error. *)
Lemma poll_request_throws (task : PollTask) (w : World) (message : jsval) :
  match pt_path task with
  | ComflyImage =>
      pollComflyImageResult env (clock w) (pt_taskId task) (comflyKey settings)
      = Thrown message
  | ComflyVideo =>
      pollComflyResult env (clock w) (pt_taskId task) (comflyKey settings)
      = Thrown message
  | GrsaiImage | GrsaiVideo =>
      pollGrsaiResult env (clock w) (pt_taskId task) (grsaiKey settings)
      = Thrown message
  end →
  poll env settings task w = (tick w, Thrown message).
Proof.
  unfold poll, pollComflyImage, pollGrsaiImage, pollComflyVideo, pollGrsaiVideo.
  destruct (pt_path task); intros H; by rewrite bind_run, call_run, H.
Qed.

(** What [executeNode] does for a node it runs: the first update, then the
    block under [try] with its [catch]. *)
Lemma executeNode_run (EXPERT_INSTRUCTIONS : gmap string string) (nodeId : string)
    (w : World) (node : Node) :
  findNode (nodes (store w)) nodeId = Some node →
  n_type node ∉ ["inputText"; "inputImage"; "outputResult"; "imageProcessing"] →
  let runStartTime := Date_now env (clock w) in
  let inputs := getIncomingData (store w) nodeId in
  executeNode env settings EXPERT_INSTRUCTIONS nodeId w =
  tryCatch
    (executeBody env settings EXPERT_INSTRUCTIONS runStartTime nodeId node inputs
       (fullPromptOf node inputs)
       (str_or (n_data node !! "aspectRatio") (aspectRatio settings)))
    (fun message =>
       finalizeNode env runStartTime nodeId "error" {[ "statusMsg" := message ]})
    {| store := updateNodeData nodeId (runningPatch runStartTime) (store w);
       canvas := canvas w; timers := timers w; clock := S (clock w) |}.
Proof.
  intros Hn Ht. unfold executeNode. rewrite bind_run. unfold getState at 1.
  rewrite Hn, (bool_decide_eq_false_2 _ Ht). reflexivity.
Qed.

(** An error thrown under the [try] is caught: the node, when it is still in
    the graph, gets the status error and the error's message, and every node
    with another id is as the block left it. *)
Lemma executeNode_catches (EXPERT_INSTRUCTIONS : gmap string string) (nodeId : string)
    (w w1 : World) (node n1 : Node) (message : jsval) :
  findNode (nodes (store w)) nodeId = Some node →
  n_type node ∉ ["inputText"; "inputImage"; "outputResult"; "imageProcessing"] →
  let runStartTime := Date_now env (clock w) in
  let inputs := getIncomingData (store w) nodeId in
  executeBody env settings EXPERT_INSTRUCTIONS runStartTime nodeId node inputs
    (fullPromptOf node inputs)
    (str_or (n_data node !! "aspectRatio") (aspectRatio settings))
    {| store := updateNodeData nodeId (runningPatch runStartTime) (store w);
       canvas := canvas w; timers := timers w; clock := S (clock w) |}
  = (w1, Thrown message) →
  findNode (nodes (store w1)) nodeId = Some n1 →
  let w' := runNode env settings EXPERT_INSTRUCTIONS nodeId w in
  statusOf (store w') nodeId = Some (JStr "error") ∧
  statusMsgOf (store w') nodeId = Some message ∧
  timers w' = timers w1 ∧
  edges (store w') = edges (store w1) ∧
  ∀ (i : nat) (n : Node), nodes (store w1) !! i = Some n → n_id n ≠ nodeId →
    nodes (store w') !! i = Some n.
Proof.
  intros Hn Ht runStartTime inputs Hbody Hn1 w'. subst w'. unfold runNode.
  rewrite (executeNode_run _ _ _ _ Hn Ht).
  rewrite (tryCatch_thrown _ _ _ _ _ Hbody).
  destruct (status_after_finalize_val env runStartTime nodeId "error" message w1 n1 Hn1)
    as (Hs & Hm & Htm).
  split; [exact Hs|]. split; [exact Hm|]. split; [exact Htm|].
  rewrite finalizeNode_run. cbn [fst store].
  split; [apply updateNodeData_edges|].
  intros i n Hi Hid. rewrite updateNodeData_lookup, Hi. cbn.
  by rewrite decide_False.
Qed.

Lemma fireTimers_idle (k : nat) (w : World) :
  timers w = [] → fireTimers env settings k w = w.
Proof.
  intros Hw. induction k as [|k IH]; [done|].
  cbn [fireTimers]. unfold fireTimer. by rewrite Hw.
Qed.
End BoundaryFacts.

(** The same network failure on the synchronous Comfly path happens under the
    [try] of [executeNode] and is caught: the node gets the status error and
    the error's text, and the other nodes keep their data. *)
Example body_error_caught :
  let w' := startedWorld "d" in
  statusOf (store w') "d" = Some (JStr "error") ∧
  statusMsgOf (store w') "d" = Some (JStr "Failed to fetch") ∧
  timers w' = [] ∧
  List.filter (fun n => negb (String.eqb (n_id n) "d")) (nodes (store w'))
  = List.filter (fun n => negb (String.eqb (n_id n) "d")) (nodes generatorStore).
Proof. by vm_compute. Qed.

(** C6 (the code departs from the claim). An image generator on the
    asynchronous Comfly path is started and its task is accepted; the first
    poll request then fails at the network level. The error is thrown inside
    [poll], which [executeNode] called without awaiting it, so the [catch] of
    [executeNode] does not see it: the node keeps the status loading and the
    message of the queueing step, no poll is scheduled any more, and the node
    stays so for ever. *)
Theorem poll_error_not_caught :
  let w1 := startedWorld "c" in
  let w2 := fireTimer sampleEnv sampleSettings w1 in
  statusOf (store w1) "c" = Some (JStr "loading") ∧
  List.map (fun t => pt_path (snd t)) (timers w1) = [ComflyImage] ∧
  pollComflyImageResult sampleEnv (clock w1) "task-1" "c"
    = Thrown (JStr "Failed to fetch") ∧
  store w2 = store w1 ∧
  statusOf (store w2) "c" = Some (JStr "loading") ∧
  statusMsgOf (store w2) "c" = Some (JStr "Queueing Task...") ∧
  timers w2 = [] ∧
  ∀ k : nat, fireTimers sampleEnv sampleSettings k w2 = w2.
Proof.
  intros w1 w2.
  assert (Ht : timers w2 = []) by (vm_compute; reflexivity).
  split; [vm_compute; reflexivity|].
  split; [vm_compute; reflexivity|].
  split; [vm_compute; reflexivity|].
  split; [vm_compute; reflexivity|].
  split; [vm_compute; reflexivity|].
  split; [vm_compute; reflexivity|].
  split; [exact Ht|].
  intros k. by apply fireTimers_idle.
Qed.

(** ** Deleting, duplicating and patching nodes *)

Section GraphFacts.
Implicit Types (st : Store) (n : Node) (e : Edge).

Lemma existsb_eqb_In (s : string) (l : list string) :
  existsb (String.eqb s) l = true ↔ In s l.
Proof.
  rewrite existsb_exists. split.
  - intros (x & Hx & He). apply String.eqb_eq in He. by subst.
  - intros H. exists s. split; [done|]. apply String.eqb_refl.
Qed.

Lemma existsb_eqb_not_In (s : string) (l : list string) :
  existsb (String.eqb s) l = false ↔ ¬ In s l.
Proof.
  rewrite <- existsb_eqb_In. destruct (existsb _ l); split; congruence.
Qed.

Lemma eqb_neq_negb (a b : string) : negb (String.eqb a b) = true ↔ a ≠ b.
Proof. rewrite negb_true_iff. apply String.eqb_neq. Qed.

Lemma filter_all {A : Type} (f : A → bool) (l : list A) :
  (∀ x, In x l → f x = true) → List.filter f l = l.
Proof.
  induction l as [|x l IH]; intros H; [done|]. simpl.
  rewrite (H x) by (by left). f_equal. apply IH. intros y Hy. apply H. by right.
Qed.

Lemma filter_app_last {A : Type} (f : A → bool) (l : list A) (x : A) :
  List.filter f (l ++ [x]) = List.filter f l ++ (if f x then [x] else []).
Proof. rewrite List.filter_app. simpl. by destruct (f x). Qed.

Lemma findNode_app_fresh (ns : list Node) (n : Node) (nid : string) :
  findNode (ns ++ [n]) nid =
  match findNode ns nid with
  | Some m => Some m
  | None => if bool_decide (n_id n = nid) then Some n else None
  end.
Proof.
  unfold findNode. induction ns as [|m ns IH]; simpl; [done|].
  by destruct (bool_decide (n_id m = nid)).
Qed.

Lemma findNode_Some (ns : list Node) (nid : string) (n : Node) :
  findNode ns nid = Some n → In n ns ∧ n_id n = nid.
Proof.
  unfold findNode. intros H. apply find_some in H as [Hin Hb].
  split; [done|]. by apply bool_decide_eq_true in Hb.
Qed.

Lemma findNode_None (ns : list Node) (nid : string) :
  findNode ns nid = None ↔ ∀ n, In n ns → n_id n ≠ nid.
Proof.
  unfold findNode. split.
  - intros H n Hin. eapply find_none in H; [|exact Hin].
    by apply bool_decide_eq_false in H.
  - intros H. induction ns as [|m ns IH]; simpl; [done|].
    rewrite bool_decide_eq_false_2 by (apply H; by left).
    apply IH. intros n Hn. apply H. by right.
Qed.
End GraphFacts.

Lemma remarkStore_noDangling : noDangling remarkStore.
Proof.
  intros e He. simpl in He.
  destruct He as [<-|[<-|[]]]; split; eexists;
    first [ solve [split; [left; reflexivity|reflexivity]]
          | solve [split; [right; left; reflexivity|reflexivity]]
          | solve [split; [right; right; left; reflexivity|reflexivity]] ].
Qed.

(** X1. Deleting a node leaves no edge behind that starts or ends at it: a
    graph without dangling edges stays one, no node with the id is left, the
    nodes with another id all stay, and the edges that stay are those that do
    not touch the id. *)
Theorem deleteNode_no_dangling (nodeId : string) (st : Store) :
  noDangling st →
  noDangling (deleteNode nodeId st) ∧
  findNode (nodes (deleteNode nodeId st)) nodeId = None ∧
  (∀ n, In n (nodes st) → n_id n ≠ nodeId → In n (nodes (deleteNode nodeId st))) ∧
  (∀ e, In e (edges (deleteNode nodeId st)) ↔
        In e (edges st) ∧ e_source e ≠ nodeId ∧ e_target e ≠ nodeId).
Proof.
  intros Hnd.
  assert (Hedges : ∀ e, In e (edges (deleteNode nodeId st)) ↔
                        In e (edges st) ∧ e_source e ≠ nodeId ∧ e_target e ≠ nodeId).
  { intros e. unfold deleteNode; simpl. rewrite filter_In, andb_true_iff.
    by rewrite !eqb_neq_negb. }
  assert (Hnodes : ∀ n, In n (nodes st) → n_id n ≠ nodeId →
                        In n (nodes (deleteNode nodeId st))).
  { intros n Hin Hne. unfold deleteNode; simpl. apply filter_In.
    split; [done|]. by apply eqb_neq_negb. }
  split; [|split; [|split]]; try done.
  - intros e He. apply Hedges in He as (He & Hs & Ht).
    destruct (Hnd e He) as [(n & Hn & Hns) (m & Hm & Hmt)].
    split.
    + exists n. split; [|done]. apply Hnodes; [done|congruence].
    + exists m. split; [|done]. apply Hnodes; [done|congruence].
  - apply findNode_None. intros n Hn. unfold deleteNode in Hn; simpl in Hn.
    apply filter_In in Hn as [_ Hn]. by apply eqb_neq_negb in Hn.
Qed.

Lemma deleteNode_no_dangling_witness :
  noDangling (deleteNode "img1" remarkStore) ∧
  findNode (nodes (deleteNode "img1" remarkStore)) "img1" = None.
Proof.
  pose proof remarkStore_noDangling as H.
  split; [exact (proj1 (deleteNode_no_dangling "img1" remarkStore H))|].
  exact (proj1 (proj2 (deleteNode_no_dangling "img1" remarkStore H))).
Defined.

(** X2. After [deleteSelected] no selected node and no selected edge is
    left, a graph without dangling edges stays one, and a node stays when no
    selected node has its id. *)
Theorem deleteSelected_no_dangling (edgeSelected : Edge → bool) (st : Store) :
  noDangling st →
  noDangling (deleteSelected edgeSelected st) ∧
  (∀ n, In n (nodes (deleteSelected edgeSelected st)) → n_selected n = false) ∧
  (∀ e, In e (edges (deleteSelected edgeSelected st)) → edgeSelected e = false) ∧
  (∀ n, In n (nodes st) →
        (∀ m, In m (nodes st) → n_selected m = true → n_id m ≠ n_id n) →
        In n (nodes (deleteSelected edgeSelected st))).
Proof.
  intros Hnd. unfold deleteSelected.
  set (selN := List.map n_id (List.filter n_selected (nodes st))).
  set (selE := List.map e_id (List.filter edgeSelected (edges st))).
  assert (HselN : ∀ n, In n (nodes st) → n_selected n = true → In (n_id n) selN).
  { intros n Hin Hs. apply in_map. by apply filter_In. }
  assert (HselE : ∀ e, In e (edges st) → edgeSelected e = true → In (e_id e) selE).
  { intros e Hin Hs. apply in_map. by apply filter_In. }
  assert (HnotN : ∀ n, In n (nodes st) →
             (∀ m, In m (nodes st) → n_selected m = true → n_id m ≠ n_id n) →
             ¬ In (n_id n) selN).
  { intros n Hin Hfree Hsel. apply in_map_iff in Hsel as (m & Hid & Hm).
    apply filter_In in Hm as [Hm Hms]. by apply (Hfree m). }
  destruct (Nat.eqb (length selN) 0 && Nat.eqb (length selE) 0) eqn:Hnone.
  - apply andb_true_iff in Hnone as [HN HE].
    apply Nat.eqb_eq in HN, HE.
    destruct selN eqn:EN; [|done]. destruct selE eqn:EE; [|done].
    split; [done|]. split; [|split]; [| |done].
    + intros n Hin. destruct (n_selected n) eqn:Hs; [|done].
      by destruct (HselN n Hin Hs).
    + intros e Hin. destruct (edgeSelected e) eqn:Hs; [|done].
      by destruct (HselE e Hin Hs).
  - simpl.
    assert (Hkeep : ∀ n, In n (nodes st) → ¬ In (n_id n) selN →
              In n (List.filter (fun n => negb (existsb (String.eqb (n_id n)) selN))
                      (nodes st))).
    { intros n Hin Hno. apply filter_In. split; [done|].
      apply negb_true_iff. by apply existsb_eqb_not_In. }
    split; [|split; [|split]].
    + intros e He. simpl in He. apply filter_In in He as [He Hb].
      apply andb_true_iff in Hb as [Hb Ht]. apply andb_true_iff in Hb as [_ Hs].
      apply negb_true_iff, existsb_eqb_not_In in Hs, Ht.
      destruct (Hnd e He) as [(n & Hn & Hns) (m & Hm & Hmt)]. simpl.
      split.
      * exists n. split; [|done]. apply Hkeep; [done|]. by rewrite Hns.
      * exists m. split; [|done]. apply Hkeep; [done|]. by rewrite Hmt.
    + intros n Hn. apply filter_In in Hn as [Hin Hb].
      apply negb_true_iff, existsb_eqb_not_In in Hb.
      destruct (n_selected n) eqn:Hs; [|done]. by destruct Hb; apply HselN.
    + intros e He. apply filter_In in He as [Hin Hb].
      apply andb_true_iff in Hb as [Hb _]. apply andb_true_iff in Hb as [Hb _].
      apply negb_true_iff, existsb_eqb_not_In in Hb.
      destruct (edgeSelected e) eqn:Hs; [|done]. by destruct Hb; apply HselE.
    + intros n Hin Hfree. apply Hkeep; [done|]. by apply HnotN.
Qed.

Lemma deleteSelected_no_dangling_witness :
  noDangling (deleteSelected (fun e => String.eqb (e_id e) "e1") remarkStore).
Proof.
  pose proof remarkStore_noDangling as H.
  exact (proj1 (deleteSelected_no_dangling _ remarkStore H)).
Defined.

(** X3. A duplicate made under an id that is new to the graph can be taken
    back: deleting the copy gives the graph as it was. Until then the graph
    finds the copy under the new id, idle and with progress 0, and it still
    finds the original under its own id. *)
Theorem duplicateNode_deleteNode (newNodeId nodeId : string) (st : Store) :
  (∀ n, In n (nodes st) → n_id n ≠ newNodeId) →
  (∀ e, In e (edges st) → e_source e ≠ newNodeId ∧ e_target e ≠ newNodeId) →
  deleteNode newNodeId (duplicateNode newNodeId nodeId st) = st ∧
  findNode (nodes (duplicateNode newNodeId nodeId st)) nodeId = findNode (nodes st) nodeId ∧
  (∀ nodeToCopy, findNode (nodes st) nodeId = Some nodeToCopy →
     ∃ copy, findNode (nodes (duplicateNode newNodeId nodeId st)) newNodeId = Some copy ∧
       n_type copy = n_type nodeToCopy ∧
       n_data copy !! "status" = Some (JStr "idle") ∧
       n_data copy !! "progress" = Some (JNum 0) ∧
       ∀ k, k ≠ "status" → k ≠ "progress" → k ≠ "statusMsg" →
            n_data copy !! k = n_data nodeToCopy !! k).
Proof.
  intros Hn He.
  assert (Hdel : deleteNode newNodeId st = st).
  { unfold deleteNode. destruct st as [ns es]; simpl in *. f_equal.
    - apply filter_all. intros n Hin. apply eqb_neq_negb. by apply Hn.
    - apply filter_all. intros e Hin. destruct (He e Hin).
      apply andb_true_iff. by rewrite !eqb_neq_negb. }
  assert (Hfresh : findNode (nodes st) newNodeId = None) by by apply findNode_None.
  unfold duplicateNode.
  destruct (findNode (nodes st) nodeId) as [nodeToCopy|] eqn:Hfind.
  - split; [|split].
    + unfold deleteNode in *; simpl. destruct st as [ns es]; simpl in *.
      injection Hdel as Hns Hes. f_equal; [|done].
      rewrite filter_app_last; simpl. rewrite String.eqb_refl; simpl.
      by rewrite Hns, app_nil_r.
    + simpl. by rewrite findNode_app_fresh, Hfind.
    + intros ? [= <-]. eexists. split.
      { simpl. rewrite findNode_app_fresh, Hfresh; simpl.
        by rewrite bool_decide_eq_true_2. }
      simpl. split; [done|].
      split; [apply lookup_union_Some_l; by simplify_map_eq|].
      split; [apply lookup_union_Some_l; by simplify_map_eq|].
      intros k Hs Hp Hm. apply lookup_union_r.
      by simplify_map_eq.
  - split; [done|]. split; [done|]. intros ? [=].
Qed.

Lemma duplicateNode_deleteNode_witness :
  deleteNode "copy" (duplicateNode "copy" "img2" remarkStore) = remarkStore.
Proof.
  refine (proj1 (duplicateNode_deleteNode "copy" "img2" remarkStore _ _)).
  - intros n Hin. simpl in Hin. destruct Hin as [<-|[<-|[<-|[]]]]; done.
  - intros e Hin. simpl in Hin. destruct Hin as [<-|[<-|[]]]; done.
Defined.

(** X4. Two patches of the same node, one after the other, are one patch:
    the later one wins on the fields both name. *)
Theorem updateNodeData_twice (nodeId : string) (p1 p2 : gmap string jsval) (st : Store) :
  updateNodeData nodeId p2 (updateNodeData nodeId p1 st) =
  updateNodeData nodeId (p2 ∪ p1) st.
Proof.
  unfold updateNodeData; simpl. f_equal.
  rewrite map_map. apply map_ext. intros n.
  destruct (decide (n_id n = nodeId)) as [Heq|Hne]; simpl.
  - rewrite decide_True by done. unfold with_data; simpl. f_equal.
    by rewrite (assoc_L (∪)).
  - by rewrite decide_False.
Qed.

(** X5. Patches of two different nodes do not see each other: they can be
    made in either order. *)
Theorem updateNodeData_commute (a b : string) (p q : gmap string jsval) (st : Store) :
  a ≠ b →
  updateNodeData a p (updateNodeData b q st) =
  updateNodeData b q (updateNodeData a p st).
Proof.
  intros Hab. unfold updateNodeData; simpl. f_equal.
  rewrite !map_map. apply map_ext. intros [i t pos s d]; simpl.
  destruct (decide (i = b)) as [Hb|Hb], (decide (i = a)) as [Ha|Ha]; simpl.
  - congruence.
  - by rewrite decide_False, decide_True.
  - by rewrite decide_True, decide_False.
  - by rewrite !decide_False.
Qed.

Lemma updateNodeData_commute_witness :
  updateNodeData "img1" {[ "status" := JStr "success" ]}
    (updateNodeData "x" {[ "progress" := JNum 10 ]} remarkStore) =
  updateNodeData "x" {[ "progress" := JNum 10 ]}
    (updateNodeData "img1" {[ "status" := JStr "success" ]} remarkStore).
Proof. apply updateNodeData_commute. discriminate. Defined.

(** ** Projects *)

Section ProjectFacts.
Implicit Types (ps : list Project) (p : Project).

Lemma find_withoutProject (projectId : string) ps :
  List.find (fun p => String.eqb (p_id p) projectId) (withoutProject projectId ps) = None.
Proof.
  unfold withoutProject. induction ps as [|p ps IH]; simpl; [done|].
  destruct (String.eqb (p_id p) projectId) eqn:He; simpl; [done|].
  by rewrite He.
Qed.

Lemma find_app_None {A : Type} (f : A → bool) (l k : list A) :
  List.find f l = None → List.find f (l ++ k) = List.find f k.
Proof.
  induction l as [|x l IH]; simpl; [done|].
  destruct (f x); [done|]. exact IH.
Qed.

Lemma find_replaced (projectId : string) ps p :
  p_id p = projectId →
  List.find (fun q => String.eqb (p_id q) projectId) (withoutProject projectId ps ++ [p])
  = Some p.
Proof.
  intros Hp. rewrite find_app_None by apply find_withoutProject.
  simpl. by rewrite Hp, String.eqb_refl.
Qed.

Lemma withoutProject_In (projectId : string) ps p :
  In p (withoutProject projectId ps) ↔ In p ps ∧ p_id p ≠ projectId.
Proof.
  unfold withoutProject. rewrite filter_In, negb_true_iff.
  by rewrite String.eqb_neq.
Qed.

Lemma withoutProject_unique (projectId : string) ps :
  uniqueProjectIds ps → uniqueProjectIds (withoutProject projectId ps).
Proof.
  unfold uniqueProjectIds, withoutProject.
  induction ps as [|p ps IH]; simpl; [done|].
  intros Hnd. apply NoDup_cons in Hnd as [Hp Hps].
  destruct (negb (String.eqb (p_id p) projectId)); simpl; [|by apply IH].
  apply NoDup_cons. split; [|by apply IH].
  intros Hin. apply Hp. apply list_elem_of_In, in_map_iff in Hin as (q & Hq & Hin).
  apply filter_In in Hin as [Hin _]. apply list_elem_of_In, in_map_iff. by exists q.
Qed.

Lemma replaced_unique (projectId : string) ps p :
  p_id p = projectId → uniqueProjectIds ps →
  uniqueProjectIds (withoutProject projectId ps ++ [p]).
Proof.
  intros Hp Hu. unfold uniqueProjectIds. rewrite map_app. simpl.
  apply NoDup_app. split; [by apply withoutProject_unique|]. split.
  - intros x Hx Hx'. apply list_elem_of_singleton in Hx'. subst x.
    apply list_elem_of_In, in_map_iff in Hx as (q & Hq & Hin).
    apply withoutProject_In in Hin as [_ Hne]. congruence.
  - apply NoDup_singleton.
Qed.
End ProjectFacts.

Lemma cleanedNode_savedAs (n : Node) : savedAs n (cleanedNode n).
Proof.
  unfold savedAs, cleanedNode. cbn [with_data n_id n_type n_position n_selected n_data].
  split; [done|]. split; [done|]. split; [done|]. split; [done|].
  split; [|split; [|split; [|split]]].
  - intros Hs. rewrite Hs. apply lookup_union_Some_l. by simplify_map_eq.
  - intros Hs. erewrite lookup_union_Some_l by (by simplify_map_eq). f_equal.
    destruct (n_data n !! "status") as [[| |q|s]|]; try done.
    destruct (String.eqb_spec s "loading") as [->|]; [done|done].
  - apply lookup_union_Some_l. by simplify_map_eq.
  - apply lookup_union_Some_l. by simplify_map_eq.
  - intros k Hs Hp Hm. apply lookup_union_r. by simplify_map_eq.
Qed.

Lemma withoutProject_idem (projectId : string) (ps : list Project) :
  withoutProject projectId (withoutProject projectId ps) = withoutProject projectId ps.
Proof.
  unfold withoutProject. induction ps as [|p ps IH]; [done|]. simpl.
  destruct (negb (String.eqb (p_id p) projectId)) eqn:He; [|exact IH].
  simpl. rewrite He. by f_equal.
Qed.

Lemma withoutProject_replaced (projectId : string) (ps : list Project) (p : Project) :
  p_id p = projectId →
  withoutProject projectId (withoutProject projectId ps ++ [p])
  = withoutProject projectId ps.
Proof.
  intros Hp. unfold withoutProject at 1. rewrite List.filter_app.
  fold (withoutProject projectId (withoutProject projectId ps)).
  rewrite withoutProject_idem. simpl. rewrite Hp, String.eqb_refl. simpl.
  apply app_nil_r.
Qed.

(** X6. Saving a project and loading it again shows the same edges and
    viewport, and node by node the saved graph: a node that was running is
    idle, any other status is kept, the progress is 0, the status message is
    cleared, and the rest of the node (id, type, position, selection, every
    other data field) is as it was. The save itself leaves the shown graph
    as it is. *)
Theorem saveProject_loadProject (freshId name : string) (ws : Workspace) :
  let ws' := fst (saveProject freshId name ws) in
  let projectId := snd (saveProject freshId name ws) in
  let loaded := loadProject projectId ws' in
  ws_store ws' = ws_store ws ∧
  edges (ws_store loaded) = edges (ws_store ws) ∧
  Forall2 savedAs (nodes (ws_store ws)) (nodes (ws_store loaded)) ∧
  ws_viewport loaded = ws_viewport ws ∧
  ws_currentProjectId loaded = Some projectId ∧
  ws_projects loaded = ws_projects ws'.
Proof.
  simpl. unfold loadProject. simpl.
  rewrite find_replaced by reflexivity. simpl.
  split; [done|]. split; [done|]. split; [|done].
  induction (nodes (ws_store ws)) as [|n ns IH]; constructor; [|exact IH].
  apply cleanedNode_savedAs.
Qed.

Lemma saveProject_loadProject_witness :
  let ws := workspaceOf runningStore [] None in
  let loaded := loadProject "p1" (fst (saveProject "p1" "first" ws)) in
  Forall2 savedAs (nodes runningStore) (nodes (ws_store loaded)) ∧
  List.map (fun n => (n_id n, n_data n !! "status", n_data n !! "progress",
                      n_data n !! "statusMsg", n_data n !! "model", n_data n !! "url"))
    (nodes (ws_store loaded))
  = [ ("a", Some (JStr "idle"), Some (JNum 0), Some JUndefined,
       Some (JStr "nano-banana"), None);
      ("b", Some (JStr "success"), Some (JNum 0), Some JUndefined,
       None, Some (JStr "u")) ].
Proof.
  intros ws loaded.
  destruct (saveProject_loadProject "p1" "first" ws) as (_ & _ & Hnodes & _).
  split; [exact Hnodes|]. vm_compute. reflexivity.
Defined.

(** X7. Every project operation keeps the project list free of double ids.
    A saved project is in the list under its id, with the given name and the
    shown edges, in the place of the project that had the id before; the
    other projects stay, in their order. *)
Theorem workspace_consistent (ws : Workspace) (freshId name projectId : string)
    (projectData : Project) :
  uniqueProjectIds (ws_projects ws) →
  (uniqueProjectIds (ws_projects (fst (saveProject freshId name ws))) ∧
   uniqueProjectIds (ws_projects (importProject projectData ws)) ∧
   uniqueProjectIds (ws_projects (loadProject projectId ws)) ∧
   uniqueProjectIds (ws_projects (newProject ws)) ∧
   uniqueProjectIds (ws_projects (deleteProject projectId ws))) ∧
  (let saved := fst (saveProject freshId name ws) in
   let savedId := snd (saveProject freshId name ws) in
   savedId = opt_or (ws_currentProjectId ws) freshId ∧
   withoutProject savedId (ws_projects saved) = withoutProject savedId (ws_projects ws) ∧
   ∃ p : Project,
     List.find (fun q => String.eqb (p_id q) savedId) (ws_projects saved) = Some p ∧
     List.last (ws_projects saved) p = p ∧
     p_name p = name ∧ p_edges p = edges (ws_store ws)).
Proof.
  intros Hu. split.
  - split; [|split; [|split; [|split]]]; simpl.
    + by apply replaced_unique.
    + by apply replaced_unique.
    + unfold loadProject. by destruct (List.find _ _).
    + done.
    + by apply withoutProject_unique.
  - simpl. split; [done|]. split; [by apply withoutProject_replaced|].
    eexists. split; [by apply find_replaced|]. split; [by rewrite last_last|done].
Qed.

Lemma workspace_consistent_witness :
  let ws := workspaceOf remarkStore
              [emptyProject "p1" "first"; emptyProject "p2" "second"] (Some "p1") in
  uniqueProjectIds (ws_projects ws) ∧
  List.map (fun p => (p_id p, p_name p))
    (ws_projects (fst (saveProject "fresh" "renamed" ws)))
  = [("p2", "second"); ("p1", "renamed")] ∧
  uniqueProjectIds (ws_projects (fst (saveProject "fresh" "renamed" ws))).
Proof.
  intros ws.
  assert (Hu : uniqueProjectIds (ws_projects ws)).
  { apply NoDup_cons. split; [by intros [=]%list_elem_of_singleton|].
    apply NoDup_singleton. }
  split; [exact Hu|]. split; [reflexivity|].
  exact (proj1 (proj1 (workspace_consistent ws "fresh" "renamed" "p2"
                         (emptyProject "p3" "third") Hu))).
Defined.

(** X8. A deleted project cannot be loaded any more: loading its id changes
    nothing. The deletion leaves the shown graph on the canvas, is never the
    current project afterwards, and keeps every other project. *)
Theorem deleteProject_loadProject (projectId : string) (ws : Workspace) :
  loadProject projectId (deleteProject projectId ws) = deleteProject projectId ws ∧
  ws_store (deleteProject projectId ws) = ws_store ws ∧
  ws_currentProjectId (deleteProject projectId ws) ≠ Some projectId ∧
  (∀ p, p_id p ≠ projectId →
        (In p (ws_projects (deleteProject projectId ws)) ↔ In p (ws_projects ws))).
Proof.
  split; [|split; [done|split]].
  - unfold loadProject. simpl. by rewrite find_withoutProject.
  - simpl. case_bool_decide; [done|]. done.
  - intros p Hp. simpl. rewrite withoutProject_In. tauto.
Qed.


(** ** Connecting nodes *)

Section ConnectFacts.
Implicit Types (st : Store) (e : Edge) (es : list Edge).

Lemma sort_insert_snoc {A : Type} (cmp : A → A → Z) (x last : A) (l : list A) :
  (cmp x last <= 0)%Z →
  sort_insert cmp x (l ++ [last]) = sort_insert cmp x l ++ [last].
Proof.
  intros Hx. induction l as [|y l IH]; simpl.
  - by rewrite (proj2 (Z.leb_le _ _) Hx).
  - destruct (cmp x y <=? 0)%Z; [done|]. by rewrite IH.
Qed.

Lemma js_sort_snoc {A : Type} (cmp : A → A → Z) (last : A) (l : list A) :
  (∀ x, In x l → (cmp x last <= 0)%Z) →
  js_sort cmp (l ++ [last]) = js_sort cmp l ++ [last].
Proof.
  unfold js_sort. induction l as [|x l IH]; intros H; simpl; [done|].
  rewrite IH by (intros y Hy; apply H; by right).
  apply sort_insert_snoc. apply H. by left.
Qed.

Lemma sameTargetEdges_image st (target : string) :
  sameTargetEdges target (Some "image") (edges st) = imageEdgesOf st target.
Proof.
  unfold sameTargetEdges, imageEdgesOf.
  induction (edges st) as [|e es IH]; simpl; [done|].
  rewrite IH.
  destruct (String.eqb (e_target e) target) eqn:Ht; simpl.
  - apply String.eqb_eq in Ht. case_bool_decide as Hh.
    + by rewrite bool_decide_eq_true_2.
    + rewrite bool_decide_eq_false_2; [done|]. tauto.
  - apply String.eqb_neq in Ht. rewrite bool_decide_eq_false_2; [done|]. tauto.
Qed.

Lemma getIncomingData_ext st st' (t : string) :
  nodes st' = nodes st →
  incomingEdgesOf st' t = incomingEdgesOf st t →
  getIncomingData st' t = getIncomingData st t.
Proof.
  intros Hn He. unfold getIncomingData. rewrite He.
  assert (Ht : ∀ d e, pushText st' d e = pushText st d e).
  { intros d e. unfold pushText. by rewrite Hn. }
  assert (Hi : ∀ d e, pushImage st' d e = pushImage st d e).
  { intros d e. unfold pushImage. by rewrite Hn. }
  assert (Hfold : ∀ (f g : IncomingData → Edge → IncomingData) es d,
            (∀ d e, f d e = g d e) → fold_left f es d = fold_left g es d).
  { intros f g es. induction es as [|e es IH]; intros d Hfg; simpl; [done|].
    rewrite Hfg. by apply IH. }
  rewrite (Hfold _ _ _ _ Ht). by apply Hfold.
Qed.

Lemma addEdge_new (c : Connection) es :
  c_source c ≠ "" → c_target c ≠ "" →
  (∀ e, In e es → ¬ (e_source e = c_source c ∧ e_target e = c_target c)) →
  addEdge c es =
  es ++ [ {| e_id := default (getEdgeId c) (c_id c);
             e_source := c_source c; e_target := c_target c;
             e_sourceHandle := c_sourceHandle c; e_targetHandle := c_targetHandle c;
             e_data := c_data c |} ].
Proof.
  intros Hs Ht Hnew. unfold addEdge.
  rewrite (proj2 (String.eqb_neq _ _) Hs), (proj2 (String.eqb_neq _ _) Ht). simpl.
  destruct (connectionExists _ es) eqn:Hex; [|done].
  unfold connectionExists in Hex. apply existsb_exists in Hex as (el & Hin & Hb).
  simpl in Hb. rewrite !andb_true_iff in Hb. destruct Hb as [[[Hb1 Hb2] _] _].
  apply String.eqb_eq in Hb1, Hb2. destruct (Hnew el Hin). done.
Qed.
End ConnectFacts.

(** X10. A newly connected image is resolved last. When at most one node is
    selected, the two nodes are not connected yet, and no image edge into the
    target has an order above the number of those edges plus one, then after
    [onConnect] on the handle "image" the target's images are the images it
    had, followed by the new source's artifact URL when it has one; what
    every other node resolves is as before. *)
Theorem connect_image_resolved_last (source target : string)
    (sourceHandle : option string) (st : Store) :
  (length (List.filter n_selected (nodes st)) ≤ 1)%nat →
  source ≠ "" → target ≠ "" →
  (∀ e, In e (edges st) → ¬ (e_source e = source ∧ e_target e = target)) →
  (∀ e, In e (imageEdgesOf st target) →
        (orderOf e <= Z.of_nat (length (imageEdgesOf st target)) + 1)%Z) →
  let st' := App_onConnect source target sourceHandle (Some "image") st in
  images (getIncomingData st' target) =
    images (getIncomingData st target)
    ++ option_list (n ← findNode (nodes st) source; truthy_str (n_data n !! "url")) ∧
  nodes st' = nodes st ∧
  ∀ other, other ≠ target → getIncomingData st' other = getIncomingData st other.
Proof.
  intros Hsel Hs Ht Hnew Hdense st'.
  set (count := Z.of_nat (length (imageEdgesOf st target))) in *.
  set (edge := {| e_id := getEdgeId {| c_id := None; c_source := source;
                            c_target := target; c_sourceHandle := sourceHandle;
                            c_targetHandle := Some "image";
                            c_data := Some {| order := Some (count + 1)%Z;
                                              ed_targetHandle := Some "image" |} |};
                  e_source := source; e_target := target;
                  e_sourceHandle := sourceHandle; e_targetHandle := Some "image";
                  e_data := Some {| order := Some (count + 1)%Z;
                                    ed_targetHandle := Some "image" |} |}).
  assert (Hst' : st' = setEdges (edges st ++ [edge]) st).
  { unfold st', App_onConnect.
    replace (_ && Nat.ltb 1 _) with false.
    2:{ symmetry. apply andb_false_iff. right. apply Nat.ltb_ge. exact Hsel. }
    simpl. rewrite sameTargetEdges_image. unfold connectWith, onConnect.
    rewrite addEdge_new by (simpl; done). reflexivity. }
  rewrite Hst'. split; [|split; [done|]].
  - rewrite !getIncomingData_images.
    assert (Hie : imageEdgesOf (setEdges (edges st ++ [edge]) st) target
                  = imageEdgesOf st target ++ [edge]).
    { unfold imageEdgesOf. simpl. rewrite filter_app_last. simpl.
      by rewrite bool_decide_eq_true_2. }
    rewrite Hie, js_sort_snoc.
    + rewrite omap_app. f_equal.
    + intros x Hx. unfold byOrder. specialize (Hdense x Hx).
      assert (orderOf edge = (count + 1)%Z) as ->; [|lia].
      unfold orderOf. simpl. destruct (count + 1 =? 0)%Z eqn:Hz; [|done].
      apply Z.eqb_eq in Hz. unfold count in Hz. lia.
  - intros other Hother. apply getIncomingData_ext; [done|].
    unfold incomingEdgesOf. simpl. rewrite filter_app_last. simpl.
    rewrite bool_decide_eq_false_2 by congruence. apply app_nil_r.
Qed.

Lemma connect_image_resolved_last_witness :
  images (getIncomingData
            (App_onConnect "img2" "x" (Some "image") (Some "image")
               (setEdges [imageEdge "e1" "img1" "x" 1] remarkStore)) "x")
  = ["u1"; "u2"].
Proof.
  refine (proj1 (connect_image_resolved_last "img2" "x" (Some "image")
                   (setEdges [imageEdge "e1" "img1" "x" 1] remarkStore) _ _ _ _ _)).
  - simpl. lia.
  - discriminate.
  - discriminate.
  - intros e [<-|[]] [H _]. discriminate H.
  - intros e [<-|[]]. vm_compute. discriminate.
Defined.

Section SortByComparator.
Context {A : Type} (cmp : A → A → Z).

Lemma sort_insert_perm_cmp (x : A) (l : list A) :
  Permutation (sort_insert cmp x l) (x :: l).
Proof.
  induction l as [|y l IH]; simpl; [done|].
  destruct (cmp x y <=? 0)%Z; [done|].
  rewrite IH. apply perm_swap.
Qed.

Lemma js_sort_perm_cmp (l : list A) : Permutation (js_sort cmp l) l.
Proof.
  induction l as [|x l IH]; simpl; [done|].
  unfold js_sort in *. simpl. rewrite sort_insert_perm_cmp. by constructor.
Qed.

Lemma sort_insert_head (x : A) (l : list A) :
  (∀ y, In y l → (cmp x y <= 0)%Z) → sort_insert cmp x l = x :: l.
Proof.
  destruct l as [|y l]; intros H; simpl; [done|].
  by rewrite (proj2 (Z.leb_le _ _) (H y (or_introl eq_refl))).
Qed.

Lemma sort_insert_app (x : A) (l k : list A) :
  (∀ y, In y k → (cmp x y <= 0)%Z) →
  sort_insert cmp x (l ++ k) = sort_insert cmp x l ++ k.
Proof.
  intros Hk. induction l as [|y l IH]; simpl.
  - by apply sort_insert_head.
  - destruct (cmp x y <=? 0)%Z; [done|]. by rewrite IH.
Qed.

Lemma js_sort_sorted_id (k : list A) :
  StronglySorted (fun a b => (cmp a b <= 0)%Z) k → js_sort cmp k = k.
Proof.
  unfold js_sort. induction 1 as [|y k Hs IH Hy]; simpl; [done|].
  rewrite IH. apply sort_insert_head. intros z Hz.
  rewrite Forall_forall in Hy. apply Hy. by apply list_elem_of_In.
Qed.

Lemma js_sort_app_sorted (l k : list A) :
  StronglySorted (fun a b => (cmp a b <= 0)%Z) k →
  (∀ x y, In x l → In y k → (cmp x y <= 0)%Z) →
  js_sort cmp (l ++ k) = js_sort cmp l ++ k.
Proof.
  intros Hs. induction l as [|x l IH]; intros H.
  - by apply js_sort_sorted_id.
  - unfold js_sort in *. simpl. rewrite IH by (intros; apply H; [by right|done]).
    apply sort_insert_app. intros y Hy. apply H; [by left|done].
Qed.

(** The sort puts the elements in the order of a comparator that compares
    any two elements and is transitive. *)
Hypothesis cmp_total : ∀ a b, (cmp a b <= 0)%Z ∨ (cmp b a <= 0)%Z.
Hypothesis cmp_trans : ∀ a b c, (cmp a b <= 0)%Z → (cmp b c <= 0)%Z → (cmp a c <= 0)%Z.

Lemma sort_insert_sorted_cmp (x : A) (l : list A) :
  StronglySorted (fun a b => (cmp a b <= 0)%Z) l →
  StronglySorted (fun a b => (cmp a b <= 0)%Z) (sort_insert cmp x l).
Proof.
  induction l as [|y l IH]; simpl; intros Hs.
  - repeat constructor.
  - inversion Hs as [|? ? Hl Hy]; subst.
    destruct (cmp x y <=? 0)%Z eqn:Hc.
    + apply Z.leb_le in Hc.
      constructor; [done|]. constructor; [done|].
      eapply Forall_impl; [exact Hy|]. intros z Hz. by eapply cmp_trans.
    + apply Z.leb_gt in Hc.
      constructor; [by apply IH|].
      rewrite (sort_insert_perm_cmp x l). constructor; [|done].
      destruct (cmp_total y x); [done|lia].
Qed.

Lemma js_sort_sorted_cmp (l : list A) :
  StronglySorted (fun a b => (cmp a b <= 0)%Z) (js_sort cmp l).
Proof.
  induction l as [|x l IH]; [constructor|].
  unfold js_sort in *. simpl. by apply sort_insert_sorted_cmp.
Qed.
End SortByComparator.

Lemma StronglySorted_mono {A : Type} (R R' : A → A → Prop) (l : list A) :
  (∀ a b, R a b → R' a b) → StronglySorted R l → StronglySorted R' l.
Proof.
  intros H. induction 1 as [|x l Hs IH Hx]; constructor; [done|].
  eapply Forall_impl; [exact Hx|]. intros y Hy. by apply H.
Qed.

Lemma byPositionY_le (a b : Node) : (byPositionY a b <= 0)%Z ↔ notBelow a b.
Proof.
  unfold byPositionY, notBelow, Qle, Qminus, Qplus, Qopp. simpl. lia.
Qed.

Lemma NoDup_map_filter {A B : Type} (f : A → B) (p : A → bool) (l : list A) :
  NoDup (List.map f l) → NoDup (List.map f (List.filter p l)).
Proof.
  induction l as [|x l IH]; simpl; [done|].
  intros Hnd. apply NoDup_cons in Hnd as [Hx Hl].
  destruct (p x); simpl; [|by apply IH].
  apply NoDup_cons. split; [|by apply IH].
  intros Hin. apply Hx. apply list_elem_of_In, in_map_iff in Hin as (y & Hy & Hin).
  apply filter_In in Hin as [Hin _]. apply list_elem_of_In, in_map_iff. by exists y.
Qed.

Lemma findNode_NoDup (ns : list Node) (n : Node) :
  NoDup (List.map n_id ns) → In n ns → findNode ns (n_id n) = Some n.
Proof.
  unfold findNode. induction ns as [|m ns IH]; simpl; [done|].
  intros Hnd Hin. apply NoDup_cons in Hnd as [Hm Hns].
  destruct Hin as [->|Hin].
  - by rewrite bool_decide_eq_true_2.
  - rewrite bool_decide_eq_false_2; [by apply IH|].
    intros Heq. apply Hm. rewrite Heq. apply list_elem_of_In. by apply in_map.
Qed.

Section ConnectSelected.
Variables (target : string) (sourceHandle : option string).

Lemma fold_connectSelected (ns : list Node) (s : Store) (b : Z) :
  target ≠ "" →
  (∀ n, In n ns → n_id n ≠ "") →
  NoDup (List.map n_id ns) →
  (∀ n e, In n ns → In e (edges s) → ¬ (e_source e = n_id n ∧ e_target e = target)) →
  fst (fold_left (connectSelected target sourceHandle (Some "image")) ns (s, b))
  = setEdges (edges s ++ orderedEdges target sourceHandle ns b) s.
Proof.
  intros Ht. revert s b. induction ns as [|n ns IH]; intros s b Hid Hnd Hnew.
  - simpl. rewrite app_nil_r. by destruct s.
  - apply NoDup_cons in Hnd as [Hn Hns]. simpl.
    destruct (String.eqb (n_id n) target) eqn:Heq.
    + apply IH; [|done|]; intros; [apply Hid|eapply Hnew]; try done; by right.
    + simpl. unfold connectWith, onConnect.
      rewrite addEdge_new; simpl.
      * rewrite IH; simpl.
        -- unfold setEdges; simpl. by rewrite <- app_assoc.
        -- intros; apply Hid; by right.
        -- done.
        -- intros m e Hm He [Hs Htg]. apply in_app_iff in He as [He|[<-|[]]].
           ++ by apply (Hnew m e); [right| |].
           ++ simpl in Hs. apply Hn. rewrite Hs.
              apply list_elem_of_In. by apply in_map.
      * apply Hid. by left.
      * done.
      * intros e He. apply Hnew; [by left|done].
Qed.

Lemma orderedEdges_order (ns : list Node) (b : Z) (e : Edge) :
  (0 <= b)%Z → In e (orderedEdges target sourceHandle ns b) → (b + 1 <= orderOf e)%Z.
Proof.
  revert b. induction ns as [|n ns IH]; intros b Hb; simpl; [done|].
  destruct (String.eqb (n_id n) target); [by apply IH|].
  intros [<-|Hin].
  - unfold orderOf; simpl. destruct (b + 1 =? 0)%Z eqn:Hz; [|lia].
    apply Z.eqb_eq in Hz. lia.
  - apply IH in Hin; lia.
Qed.

Lemma orderedEdges_first_order (n : Node) (b : Z) :
  (0 <= b)%Z →
  orderOf (orderedEdge target sourceHandle (Some "image") (Some (b + 1)%Z) (n_id n))
  = (b + 1)%Z.
Proof.
  intros Hb. unfold orderOf; simpl. destruct (b + 1 =? 0)%Z eqn:Hz; [|done].
  apply Z.eqb_eq in Hz. lia.
Qed.

Lemma orderedEdges_sorted (ns : list Node) (b : Z) :
  (0 <= b)%Z →
  StronglySorted (fun x y => (byOrder x y <= 0)%Z) (orderedEdges target sourceHandle ns b).
Proof.
  revert b. induction ns as [|n ns IH]; intros b Hb; simpl; [constructor|].
  destruct (String.eqb (n_id n) target); [by apply IH|].
  constructor; [apply IH; lia|].
  apply Forall_forall. intros e He. apply list_elem_of_In in He.
  apply orderedEdges_order in He; [|lia].
  unfold byOrder. rewrite orderedEdges_first_order by done. lia.
Qed.

Lemma orderedEdges_image (ns : list Node) (b : Z) (e : Edge) :
  In e (orderedEdges target sourceHandle ns b) →
  e_target e = target ∧ e_targetHandle e = Some "image".
Proof.
  revert b. induction ns as [|n ns IH]; intros b; simpl; [done|].
  destruct (String.eqb (n_id n) target); [by apply IH|].
  intros [<-|Hin]; [done|]. by eapply IH.
Qed.

Lemma orderedEdges_urls (st : Store) (ns : list Node) (b : Z) :
  (∀ n, In n ns → findNode (nodes st) (n_id n) = Some n) →
  omap (sourceUrl st) (orderedEdges target sourceHandle ns b)
  = omap urlOf (List.filter (fun n => negb (String.eqb (n_id n) target)) ns).
Proof.
  revert b. induction ns as [|n ns IH]; intros b Hfind; simpl; [done|].
  destruct (String.eqb (n_id n) target); simpl.
  - apply IH. intros; apply Hfind; by right.
  - unfold sourceUrl at 1. simpl. rewrite (Hfind n) by (by left). simpl.
    fold (urlOf n). destruct (urlOf n); simpl.
    + f_equal. apply IH. intros; apply Hfind; by right.
    + apply IH. intros; apply Hfind; by right.
Qed.
End ConnectSelected.

(** X11. Connecting a selection connects it from top to bottom. When the
    nodes have distinct ids, more than one is selected and the source of the
    connection is among them, none of the selected nodes is connected to the
    target yet and no image edge into the target has an order above the
    number of those edges plus one, then after [onConnect] on the handle
    "image" the target's images are the images it had, followed by the
    artifact URLs of the selected nodes other than the target, in the order
    of their vertical position. *)
Theorem connect_selection_top_to_bottom (source target : string)
    (sourceHandle : option string) (st : Store) :
  let selectedNodes := List.filter n_selected (nodes st) in
  let sortedSelectedNodes := js_sort byPositionY selectedNodes in
  (1 < length selectedNodes)%nat →
  (∃ n, In n selectedNodes ∧ n_id n = source) →
  NoDup (List.map n_id (nodes st)) →
  target ≠ "" → (∀ n, In n selectedNodes → n_id n ≠ "") →
  (∀ n e, In n selectedNodes → In e (edges st) →
          ¬ (e_source e = n_id n ∧ e_target e = target)) →
  (∀ e, In e (imageEdgesOf st target) →
        (orderOf e <= Z.of_nat (length (imageEdgesOf st target)) + 1)%Z) →
  images (getIncomingData
            (App_onConnect source target sourceHandle (Some "image") st) target)
  = images (getIncomingData st target)
    ++ omap urlOf (List.filter (fun n => negb (String.eqb (n_id n) target))
                     sortedSelectedNodes) ∧
  StronglySorted notBelow sortedSelectedNodes ∧
  Permutation sortedSelectedNodes selectedNodes.
Proof.
  intros selectedNodes sortedSelectedNodes Hlen (src & Hsrc & Hsid) Hnd Ht Hid Hnew Hdense.
  assert (Hperm : Permutation sortedSelectedNodes selectedNodes)
    by apply js_sort_perm_cmp.
  split; [|split; [|done]].
  2:{ eapply StronglySorted_mono; [|apply js_sort_sorted_cmp].
      - intros a b. apply byPositionY_le.
      - intros a b. rewrite !byPositionY_le. unfold notBelow.
        destruct (Qlt_le_dec (pos_y (n_position b)) (pos_y (n_position a))) as [H|H];
          [right; by apply Qlt_le_weak|by left].
      - intros a b c. rewrite !byPositionY_le. unfold notBelow. apply Qle_trans. }
  assert (Hin : ∀ n, In n sortedSelectedNodes → In n selectedNodes).
  { intros n Hn. apply list_elem_of_In. rewrite <- Hperm. by apply list_elem_of_In. }
  unfold App_onConnect. fold selectedNodes. fold sortedSelectedNodes.
  replace (existsb _ selectedNodes && Nat.ltb 1 (length selectedNodes)) with true.
  2:{ symmetry. apply andb_true_iff. split; [|by apply Nat.ltb_lt].
      apply existsb_exists. exists src. split; [done|]. by apply String.eqb_eq. }
  rewrite sameTargetEdges_image.
  set (count := Z.of_nat (length (imageEdgesOf st target))) in *.
  rewrite fold_connectSelected; try done.
  - set (new := orderedEdges target sourceHandle sortedSelectedNodes count).
    rewrite !getIncomingData_images.
    assert (Hie : imageEdgesOf (setEdges (edges st ++ new) st) target
                  = imageEdgesOf st target ++ new).
    { unfold imageEdgesOf. simpl. rewrite List.filter_app. f_equal.
      apply filter_all. intros e He. apply orderedEdges_image in He as [H1 H2].
      by apply bool_decide_eq_true_2. }
    rewrite Hie, js_sort_app_sorted.
    + rewrite omap_app. f_equal.
      apply (orderedEdges_urls target sourceHandle st).
      intros n Hn. apply findNode_NoDup; [done|].
      apply Hin in Hn. by apply filter_In in Hn as [Hn _].
    + apply orderedEdges_sorted. unfold count. lia.
    + intros x y Hx Hy. apply orderedEdges_order in Hy; [|unfold count; lia].
      specialize (Hdense x Hx). unfold byOrder. lia.
  - intros n Hn. apply Hid. by apply Hin.
  - assert (Hnd' : NoDup (List.map n_id selectedNodes)) by by apply NoDup_map_filter.
    assert (Hp : List.map n_id sortedSelectedNodes ≡ₚ List.map n_id selectedNodes)
      by (by apply Permutation_map).
    by rewrite Hp.
  - intros n e Hn. apply Hnew. by apply Hin.
Qed.

Lemma connect_selection_top_to_bottom_witness :
  images (getIncomingData
            (App_onConnect "img2" "x" (Some "image") (Some "image") selectionStore) "x")
  = ["u1"; "u3"; "u2"].
Proof.
  refine (proj1 (connect_selection_top_to_bottom "img2" "x" (Some "image")
                   selectionStore _ _ _ _ _ _ _)).
  - simpl. lia.
  - eexists. split; [left; reflexivity|reflexivity].
  - simpl.
    repeat (apply NoDup_cons_2;
            [rewrite ?elem_of_cons, elem_of_nil; intuition discriminate|]).
    apply NoDup_nil_2.
  - discriminate.
  - intros n [<-|[<-|[]]]; discriminate.
  - intros n e [<-|[<-|[]]] [<-|[]] [H _]; discriminate H.
  - intros e [<-|[]]. vm_compute. discriminate.
Defined.

(** ** Isolation: what an execution may change in the graph *)

Section GraphRelations.
Variable nodeId : string.

Lemma sameButData_refl (n : Node) : sameButData nodeId n n.
Proof. by repeat split. Qed.

Lemma sameButData_trans (a b c : Node) :
  sameButData nodeId a b → sameButData nodeId b c → sameButData nodeId a c.
Proof.
  intros (i1 & t1 & p1 & s1 & H1) (i2 & t2 & p2 & s2 & H2).
  repeat split; try congruence.
  intros Hne. rewrite H2 by congruence. by apply H1.
Qed.

Lemma sameButData_list_refl (ns : list Node) : Forall2 (sameButData nodeId) ns ns.
Proof. induction ns; constructor; [apply sameButData_refl|done]. Qed.

Lemma sameButData_list_trans (l1 l2 l3 : list Node) :
  Forall2 (sameButData nodeId) l1 l2 → Forall2 (sameButData nodeId) l2 l3 →
  Forall2 (sameButData nodeId) l1 l3.
Proof.
  intros H. revert l3. induction H as [|a b l1 l2 Hab _ IH]; intros l3 H23.
  - by inversion H23.
  - inversion H23 as [|? c ? l3' Hbc H23']; subst. constructor.
    + by eapply sameButData_trans.
    + by apply IH.
Qed.

Lemma touchesOnly_refl (st : Store) : touchesOnly nodeId st st.
Proof. split; [done|apply sameButData_list_refl]. Qed.

Lemma touchesOnly_trans (s1 s2 s3 : Store) :
  touchesOnly nodeId s1 s2 → touchesOnly nodeId s2 s3 → touchesOnly nodeId s1 s3.
Proof.
  intros [E1 N1] [E2 N2]. split; [congruence|]. by eapply sameButData_list_trans.
Qed.

Lemma touchesOnly_grows (s1 s2 : Store) : touchesOnly nodeId s1 s2 → grows nodeId s1 s2.
Proof.
  intros [E N]. exists (nodes s2), [], []. by rewrite !app_nil_r.
Qed.

Lemma grows_refl (st : Store) : grows nodeId st st.
Proof. apply touchesOnly_grows, touchesOnly_refl. Qed.

Lemma grows_trans (s1 s2 s3 : Store) :
  grows nodeId s1 s2 → grows nodeId s2 s3 → grows nodeId s1 s3.
Proof.
  intros (k1 & a1 & e1 & N1 & F1 & E1) (k2 & a2 & e2 & N2 & F2 & E2).
  rewrite N1 in F2. apply Forall2_app_inv_l in F2 as (k2a & k2b & Fa & Fb & ->).
  exists k2a, (k2b ++ a2), (e1 ++ e2). split; [|split].
  - by rewrite N2, <- app_assoc.
  - by eapply sameButData_list_trans.
  - by rewrite E2, E1, <- app_assoc.
Qed.

Lemma touchesOnly_updateNodeData (patch : gmap string jsval) (st : Store) :
  touchesOnly nodeId st (updateNodeData nodeId patch st).
Proof.
  split; [done|]. unfold updateNodeData; simpl.
  induction (nodes st) as [|n ns IH]; simpl; constructor; [|done].
  destruct (decide (n_id n = nodeId)); [|apply sameButData_refl].
  by repeat split.
Qed.

Lemma grows_addNode (node : Node) (st : Store) : grows nodeId st (addNode node st).
Proof.
  exists (nodes st), [node], []. simpl.
  split; [done|]. split; [apply sameButData_list_refl|by rewrite app_nil_r].
Qed.

Lemma grows_onConnect (c : Connection) (st : Store) : grows nodeId st (onConnect c st).
Proof.
  exists (nodes st), []. unfold onConnect, addEdge; simpl.
  destruct (String.eqb (c_source c) "" || String.eqb (c_target c) "").
  - exists []. by rewrite !app_nil_r; split; [|split; [apply sameButData_list_refl|]].
  - destruct (connectionExists _ _).
    + exists []. by rewrite !app_nil_r; split; [|split; [apply sameButData_list_refl|]].
    + eexists. rewrite app_nil_r. split; [done|].
      split; [apply sameButData_list_refl|done].
Qed.

Lemma touchesOnlyW_refl (w : World) : touchesOnlyW nodeId w w.
Proof. apply touchesOnly_refl. Qed.

Lemma touchesOnlyW_trans (w1 w2 w3 : World) :
  touchesOnlyW nodeId w1 w2 → touchesOnlyW nodeId w2 w3 → touchesOnlyW nodeId w1 w3.
Proof. apply touchesOnly_trans. Qed.

Lemma growsW_refl (w : World) : growsW nodeId w w.
Proof. apply grows_refl. Qed.

Lemma growsW_trans (w1 w2 w3 : World) :
  growsW nodeId w1 w2 → growsW nodeId w2 w3 → growsW nodeId w1 w3.
Proof. apply grows_trans. Qed.

Lemma touchesOnlyW_growsW (w w' : World) : touchesOnlyW nodeId w w' → growsW nodeId w w'.
Proof. apply touchesOnly_grows. Qed.
End GraphRelations.

Section NoThrowFacts.
Context {A B : Type}.

Lemma NoThrow_ret (a : A) : NoThrow (mret a : Run A).
Proof. intros w w' o [= <- <-]. by eexists. Qed.

Lemma NoThrow_bind (m : Run A) (f : A → Run B) :
  NoThrow m → (∀ a, NoThrow (f a)) → NoThrow (m ≫= f).
Proof.
  intros Hm Hf w w' o. rewrite bind_run.
  destruct (m w) as [w1 [a|e]] eqn:Hmw.
  - apply Hf.
  - by destruct (Hm _ _ _ Hmw).
Qed.

Lemma NoThrow_ask (answer : nat → A) : NoThrow (ask answer).
Proof. intros w w' o [= <- <-]. by eexists. Qed.

Lemma NoThrow_tryCatch (body : Run A) (handler : jsval → Run A) :
  (∀ message, NoThrow (handler message)) → NoThrow (tryCatch body handler).
Proof.
  intros Hh w w' o. unfold tryCatch.
  destruct (body w) as [w1 [a|e]].
  - intros [= <- <-]. by eexists.
  - apply Hh.
Qed.
End NoThrowFacts.

Lemma NoThrow_modifyStore (f : Store → Store) : NoThrow (modifyStore f).
Proof. intros w w' o [= <- <-]. by eexists. Qed.

Lemma NoThrow_getState : NoThrow getState.
Proof. intros w w' o [= <- <-]. by eexists. Qed.

Lemma NoThrow_schedule (delay : Z) (task : PollTask) : NoThrow (schedule delay task).
Proof. intros w w' o [= <- <-]. by eexists. Qed.

Section IsolatedFacts.
Variable nodeId : string.
Context {A B : Type}.

Lemma Isolated_touch (m : Run A) : Keeps (touchesOnlyW nodeId) m → Isolated nodeId m.
Proof.
  intros Hm w w' o Hrun. split; [|intros; by eapply Hm].
  eapply touchesOnlyW_growsW, Hm, Hrun.
Qed.

Lemma Isolated_append (m : Run A) :
  Keeps (growsW nodeId) m → NoThrow m → Isolated nodeId m.
Proof.
  intros Hg Hn w w' o Hrun. split; [by eapply Hg|].
  intros message ->. by destruct (Hn _ _ _ Hrun).
Qed.

(** Steps that touch the node only, and then an isolated rest. *)
Lemma Isolated_bind_touch (m : Run A) (f : A → Run B) :
  Keeps (touchesOnlyW nodeId) m → (∀ a, Isolated nodeId (f a)) →
  Isolated nodeId (m ≫= f).
Proof.
  intros Hm Hf w w' o. rewrite bind_run.
  destruct (m w) as [w1 [a|e]] eqn:Hmw.
  - intros Hfa. destruct (Hf a _ _ _ Hfa) as [Hg Ht].
    pose proof (Hm _ _ _ Hmw) as Hm1. split.
    + eapply growsW_trans; [by apply touchesOnlyW_growsW|done].
    + intros message Ho. eapply touchesOnlyW_trans; [done|by eapply Ht].
  - intros [= <- <-]. pose proof (Hm _ _ _ Hmw). split; [|done].
    by apply touchesOnlyW_growsW.
Qed.

(** An isolated start, and then steps that append and never throw. *)
Lemma Isolated_bind_append (m : Run A) (f : A → Run B) :
  Isolated nodeId m → (∀ a, Keeps (growsW nodeId) (f a)) → (∀ a, NoThrow (f a)) →
  Isolated nodeId (m ≫= f).
Proof.
  intros Hm Hg Hn w w' o. rewrite bind_run.
  destruct (m w) as [w1 [a|e]] eqn:Hmw.
  - intros Hfa. destruct (Hm _ _ _ Hmw) as [Hg1 _]. split.
    + eapply growsW_trans; [done|by eapply Hg].
    + intros message ->. by destruct (Hn _ _ _ _ Hfa).
  - intros [= <- <-]. destruct (Hm _ _ _ Hmw) as [Hg1 Ht1]. split; [done|].
    intros message [= <-]. by eapply Ht1.
Qed.
End IsolatedFacts.

Section Isolation.
Variable env : Env.
Variable settings : AppSettings.
Variable EXPERT_INSTRUCTIONS : gmap string string.
Variable nodeId : string.

Local Abbreviation Touches := (Keeps (touchesOnlyW nodeId)).
Local Abbreviation Grows := (Keeps (growsW nodeId)).

Lemma Touches_bind {A B : Type} (m : Run A) (f : A → Run B) :
  Touches m → (∀ a, Touches (f a)) → Touches (m ≫= f).
Proof. apply Keeps_bind, touchesOnlyW_trans. Qed.

Lemma Grows_bind {A B : Type} (m : Run A) (f : A → Run B) :
  Grows m → (∀ a, Grows (f a)) → Grows (m ≫= f).
Proof. apply Keeps_bind, growsW_trans. Qed.

Lemma Grows_touch {A : Type} (m : Run A) : Touches m → Grows m.
Proof. apply Keeps_weaken, touchesOnlyW_growsW. Qed.

Lemma Touches_ret {A : Type} (a : A) : Touches (mret a : Run A).
Proof. apply Keeps_ret, touchesOnlyW_refl. Qed.

Lemma Touches_throw {A : Type} (message : jsval) : Touches (throw message : Run A).
Proof. apply Keeps_throw, touchesOnlyW_refl. Qed.

Lemma Touches_throwError {A : Type} (text : string) : Touches (throwError text : Run A).
Proof. apply Touches_throw. Qed.

Lemma Touches_getState : Touches getState.
Proof. apply Keeps_getState, touchesOnlyW_refl. Qed.

Lemma Touches_ask {A : Type} (answer : nat → A) : Touches (ask answer).
Proof. intros w w' o [= <- <-]. apply touchesOnly_refl. Qed.

Lemma Touches_call {A : Type} (answer : nat → outcome A) : Touches (call answer).
Proof.
  apply Touches_bind; [apply Touches_ask|]. intros o.
  apply Keeps_await, touchesOnlyW_refl.
Qed.

Lemma Touches_schedule (delay : Z) (task : PollTask) : Touches (schedule delay task).
Proof. intros w w' o [= <- <-]. apply touchesOnly_refl. Qed.

Lemma Touches_drawImage (d : DrawCall) : Touches (drawImage d).
Proof. intros w w' o [= <- <-]. apply touchesOnly_refl. Qed.

Lemma Touches_updateNode (patch : gmap string jsval) : Touches (updateNode nodeId patch).
Proof. intros w w' o [= <- <-]. apply touchesOnly_updateNodeData. Qed.

Lemma NoThrow_updateNode (nid : string) (patch : gmap string jsval) :
  NoThrow (updateNode nid patch).
Proof. apply NoThrow_modifyStore. Qed.

Lemma Touches_finalizeNode (runStartTime : Z) (status : string)
    (additionalData : gmap string jsval) :
  Touches (finalizeNode env runStartTime nodeId status additionalData).
Proof.
  apply Touches_bind; [apply Touches_ask|]. intros now. apply Touches_updateNode.
Qed.

Lemma NoThrow_finalizeNode (runStartTime : Z) (nid status : string)
    (additionalData : gmap string jsval) :
  NoThrow (finalizeNode env runStartTime nid status additionalData).
Proof.
  apply NoThrow_bind; [apply NoThrow_ask|]. intros now. apply NoThrow_updateNode.
Qed.

Lemma Touches_uploadToImgBB (src : UploadSource) (apiKey : string) (name : option string) :
  Touches (uploadToImgBB env src apiKey name).
Proof.
  unfold uploadToImgBB. destruct (String.eqb apiKey ""); [apply Touches_throwError|].
  apply Touches_bind; [apply Touches_call|]. intros result.
  destruct (negb (ir_success result)); [apply Touches_throwError|apply Touches_ret].
Qed.

Lemma Touches_rehost (remoteUrl : option string) : Touches (rehost env settings remoteUrl).
Proof.
  unfold rehost. apply Touches_bind; [apply Touches_call|]. intros _.
  apply Touches_uploadToImgBB.
Qed.

Lemma Touches_comflyVideo (params : ComflyVideoParams) : Touches (comflyVideo env params).
Proof.
  unfold comflyVideo. apply Touches_bind; [apply Touches_call|]. intros data.
  destruct (opt_truthy (cs_task_id data)); [apply Touches_ret|].
  destruct (opt_truthy (cs_data_task_id data)); [apply Touches_ret|].
  apply Touches_throwError.
Qed.

Lemma Touches_grsaiVideo (params : GrsaiVideoParams) : Touches (grsaiVideo env params).
Proof.
  unfold grsaiVideo. apply Touches_bind; [apply Touches_call|]. intros data.
  destruct (negb _); [apply Touches_throwError|apply Touches_ret].
Qed.

Lemma Touches_awaitAll {A C : Type} (f : A → Run C) (l : list A) :
  (∀ x, Touches (f x)) → Touches (awaitAll f l).
Proof.
  intros Hf. induction l as [|x l IH]; simpl; [apply Touches_ret|].
  apply Touches_bind; [apply Hf|]. intros y.
  apply Touches_bind; [apply IH|]. intros ys. apply Touches_ret.
Qed.

Lemma Touches_startPoll (path : PollPath) (taskId : string) (runStartTime : Z)
    (node : Node) : Touches (startPoll path taskId runStartTime nodeId node).
Proof. apply Touches_schedule. Qed.

Lemma Touches_expertLoop (node : Node) (total : nat) (outs : list ExpertOutput) :
  ∀ (index : nat) (accN : list Node) (accE : list Edge),
    Touches (expertLoop env nodeId node total index outs accN accE).
Proof.
  induction outs as [|out outs IH]; intros index accN accE; simpl.
  - apply Touches_ret.
  - apply Touches_bind; [apply Touches_ask|]. intros resultId. apply IH.
Qed.

Lemma Touches_splitCell (node : Node) (sourceUrl : string) (cols : Z)
    (cellW cellH trimPx : Q) (total i : nat) (n : Z) :
  Touches (splitCell env settings nodeId node sourceUrl cols cellW cellH trimPx total i n).
Proof.
  unfold splitCell. cbv zeta. destruct (_ || _); [apply Touches_throwError|].
  apply Touches_bind; [apply Touches_drawImage|]. intros _.
  apply Touches_bind; [apply Touches_uploadToImgBB|]. intros [url mediumUrl].
  apply Touches_bind; [apply Touches_ask|]. intros resultId.
  apply Touches_bind; [apply Touches_updateNode|]. intros _. apply Touches_ret.
Qed.

Lemma Touches_splitLoop (node : Node) (sourceUrl : string) (cols : Z)
    (cellW cellH trimPx : Q) (total : nat) (rest : list Z) :
  ∀ (i : nat) (accN : list Node) (accE : list Edge),
    Touches (splitLoop env settings nodeId node sourceUrl cols cellW cellH trimPx
               total i rest accN accE).
Proof.
  induction rest as [|n rest IH]; intros i accN accE; simpl.
  - apply Touches_ret.
  - apply Touches_bind; [apply Touches_splitCell|]. intros [newNode newEdge]. apply IH.
Qed.

(** *** Steps that append to the graph *)

Lemma Grows_addNode (node : Node) : Grows (modifyStore (addNode node)).
Proof. intros w w' o [= <- <-]. apply grows_addNode. Qed.

Lemma Grows_onConnect (c : Connection) : Grows (modifyStore (onConnect c)).
Proof. intros w w' o [= <- <-]. apply grows_onConnect. Qed.

Lemma Grows_materializeOne (node : Node) (handle : string) (data : gmap string jsval) :
  Grows (materializeOne env nodeId node handle data).
Proof.
  unfold materializeOne.
  apply Grows_bind; [apply Grows_touch, Touches_ask|]. intros resultId.
  apply Grows_bind; [apply Grows_addNode|]. intros _. apply Grows_onConnect.
Qed.

Lemma NoThrow_materializeOne (nid : string) (node : Node) (handle : string)
    (data : gmap string jsval) : NoThrow (materializeOne env nid node handle data).
Proof.
  unfold materializeOne. apply NoThrow_bind; [apply NoThrow_ask|]. intros resultId.
  apply NoThrow_bind; [apply NoThrow_modifyStore|]. intros _. apply NoThrow_modifyStore.
Qed.

(** [setNodes([...getState().nodes, ...ns]); setEdges([...getState().edges, ...es])] *)
Lemma Grows_append_results (ns : list Node) (es : list Edge) (rest : Run unit) :
  Grows rest →
  Grows (st ← getState;
         modifyStore (setNodes (nodes st ++ ns));;
         modifyStore (setEdges (edges st ++ es));; rest).
Proof.
  intros Hrest w w' o. rewrite bind_run. unfold getState at 1.
  rewrite bind_run. unfold modifyStore at 1. rewrite bind_run. unfold modifyStore at 1.
  intros Hrun. eapply growsW_trans; [|by eapply Hrest].
  exists (nodes (store w)), ns, es. simpl.
  split; [done|]. split; [apply sameButData_list_refl|done].
Qed.

Lemma NoThrow_append_results (ns : list Node) (es : list Edge) (rest : Run unit) :
  NoThrow rest →
  NoThrow (st ← getState;
           modifyStore (setNodes (nodes st ++ ns));;
           modifyStore (setEdges (edges st ++ es));; rest).
Proof.
  intros Hrest. apply NoThrow_bind; [apply NoThrow_getState|]. intros st.
  apply NoThrow_bind; [apply NoThrow_modifyStore|]. intros _.
  apply NoThrow_bind; [apply NoThrow_modifyStore|]. by intros _.
Qed.

Lemma Isolated_append_results (ns : list Node) (es : list Edge) :
  Isolated nodeId (st ← getState;
                   modifyStore (setNodes (nodes st ++ ns));;
                   modifyStore (setEdges (edges st ++ es))).
Proof.
  intros w w' o. rewrite bind_run. unfold getState at 1.
  rewrite bind_run. unfold modifyStore at 1. unfold modifyStore.
  intros [= <- <-]. split; [|done].
  exists (nodes (store w)), ns, es. simpl.
  split; [done|]. split; [apply sameButData_list_refl|done].
Qed.

(** A success with one result node: the status, then the node and its edge. *)
Lemma Isolated_success (runStartTime : Z) (node : Node) (handle : string)
    (patch data : gmap string jsval) :
  Isolated nodeId (finalizeNode env runStartTime nodeId "success" patch;;
                   materializeOne env nodeId node handle data).
Proof.
  apply Isolated_bind_touch; [apply Touches_finalizeNode|]. intros _.
  apply Isolated_append; [apply Grows_materializeOne|apply NoThrow_materializeOne].
Qed.

(** *** The handlers *)

Lemma Isolated_promptMerge (runStartTime : Z) (node : Node) :
  Isolated nodeId (promptMerge env runStartTime nodeId node).
Proof.
  unfold promptMerge. apply Isolated_bind_touch; [apply Touches_getState|]. intros st.
  cbv zeta. destruct (Nat.eqb _ 0); [apply Isolated_touch, Touches_throwError|].
  apply Isolated_bind_touch; [apply Touches_finalizeNode|]. intros _.
  apply Isolated_bind_touch; [apply Touches_ask|]. intros resultId.
  apply Isolated_append.
  - apply Grows_bind; [apply Grows_addNode|]. intros _. apply Grows_onConnect.
  - apply NoThrow_bind; [apply NoThrow_modifyStore|]. intros _. apply NoThrow_modifyStore.
Qed.

Lemma Isolated_splitDecoded (runStartTime : Z) (node : Node)
    (sourceUrl gridType selectStr : string) (trimPx : Q) (width height : Z) :
  Isolated nodeId (splitDecoded env settings runStartTime nodeId node sourceUrl gridType
                     selectStr trimPx width height).
Proof.
  unfold splitDecoded. cbv zeta.
  destruct (Nat.eqb _ 0); [apply Isolated_touch, Touches_throwError|].
  apply Isolated_bind_touch; [apply Touches_ask|]. intros ctx.
  destruct (negb ctx); [apply Isolated_touch, Touches_throwError|].
  apply Isolated_bind_touch; [apply Touches_splitLoop|]. intros [ns es].
  apply Isolated_append.
  - apply Grows_append_results, Grows_touch, Touches_finalizeNode.
  - apply NoThrow_append_results, NoThrow_finalizeNode.
Qed.

Lemma Isolated_imageSplit (runStartTime : Z) (node : Node) (inputs : IncomingData) :
  Isolated nodeId (imageSplit env settings runStartTime nodeId node inputs).
Proof.
  unfold imageSplit. destruct (Nat.eqb _ 0); [apply Isolated_touch, Touches_throwError|].
  apply Isolated_bind_touch; [apply Touches_updateNode|]. intros _. cbv zeta.
  apply Isolated_bind_touch; [apply Touches_ask|]. intros [[width height]|].
  - apply Isolated_splitDecoded.
  - apply Isolated_touch, Touches_throw.
Qed.

Lemma Isolated_expert (runStartTime : Z) (node : Node) (fullPrompt : string)
    (geminiImages : list InlineImage) :
  Isolated nodeId (expert env EXPERT_INSTRUCTIONS runStartTime nodeId node fullPrompt
                     geminiImages).
Proof.
  unfold expert. cbv zeta.
  apply Isolated_bind_touch; [apply Touches_call|]. intros result.
  apply Isolated_bind_touch; [apply Touches_finalizeNode|]. intros _.
  apply Isolated_bind_touch.
  - destruct (er_outputs result); [apply Touches_expertLoop|apply Touches_ret].
  - intros [ns es]. apply Isolated_append_results.
Qed.

Lemma Isolated_aiImageGen (runStartTime : Z) (node : Node) (inputs : IncomingData)
    (fullPrompt targetAspectRatio : string) (isGeminiNative : bool)
    (geminiImages : list InlineImage) :
  Isolated nodeId (aiImageGen env settings runStartTime nodeId node inputs fullPrompt
                     targetAspectRatio isGeminiNative geminiImages).
Proof.
  unfold aiImageGen. cbv zeta. destruct isGeminiNative.
  - apply Isolated_bind_touch; [apply Touches_call|]. intros base64Image.
    apply Isolated_bind_touch; [apply Touches_uploadToImgBB|]. intros [url mediumUrl].
    apply Isolated_success.
  - destruct (match str_field (n_data node !! "model") with
              | Some m => startsWith "comfly:" m
              | None => false
              end).
    + destruct (bool_nullish _ true).
      * apply Isolated_touch.
        apply Touches_bind; [apply Touches_updateNode|]. intros _.
        apply Touches_bind; [apply Touches_call|]. intros taskId.
        apply Touches_startPoll.
      * apply Isolated_bind_touch; [apply Touches_call|]. intros url.
        apply Isolated_bind_touch; [apply Touches_rehost|]. intros [finalUrl mediumUrl].
        apply Isolated_success.
    + apply Isolated_touch.
      apply Touches_bind; [apply Touches_call|]. intros taskId.
      apply Touches_startPoll.
Qed.

Lemma Touches_aiVideoGen (runStartTime : Z) (node : Node) (inputs : IncomingData)
    (fullPrompt targetAspectRatio : string) :
  Touches (aiVideoGen env settings runStartTime nodeId node inputs fullPrompt
             targetAspectRatio).
Proof.
  unfold aiVideoGen. cbv zeta.
  apply Touches_bind; [apply Touches_updateNode|]. intros _.
  destruct (match str_field (n_data node !! "model") with
            | Some m => startsWith "comfly:" m
            | None => false
            end).
  - apply Touches_bind; [apply Touches_comflyVideo|]. intros taskId.
    apply Touches_startPoll.
  - apply Touches_bind; [apply Touches_grsaiVideo|]. intros taskId.
    apply Touches_startPoll.
Qed.

(** An expert node is neither an image nor a video generator. *)
Lemma expert_type_exclusive (type : string) :
  startsWith "expert" type || String.eqb type "aiExpert" = true →
  String.eqb type "aiImageGen" = false ∧ String.eqb type "aiVideoGen" = false.
Proof.
  intros H. split.
  - destruct (String.eqb type "aiImageGen") eqn:He; [|done].
    apply String.eqb_eq in He. subst type. discriminate H.
  - destruct (String.eqb type "aiVideoGen") eqn:He; [|done].
    apply String.eqb_eq in He. subst type. discriminate H.
Qed.

Lemma Isolated_executeBody (runStartTime : Z) (node : Node) (inputs : IncomingData)
    (fullPrompt targetAspectRatio : string) :
  Isolated nodeId (executeBody env settings EXPERT_INSTRUCTIONS runStartTime nodeId node
                     inputs fullPrompt targetAspectRatio).
Proof.
  unfold executeBody.
  destruct (String.eqb (n_type node) "promptMerge"); [apply Isolated_promptMerge|].
  destruct (String.eqb (n_type node) "imageSplit"); [apply Isolated_imageSplit|].
  cbv zeta. apply Isolated_bind_touch.
  { destruct (_ && Nat.ltb 0 _); [|apply Touches_ret].
    apply Touches_bind; [apply Touches_updateNode|]. intros _.
    apply Touches_awaitAll. intros url. apply Touches_call. }
  intros geminiImages.
  destruct (startsWith "expert" (n_type node) || String.eqb (n_type node) "aiExpert")
    eqn:Hexpert.
  - destruct (expert_type_exclusive _ Hexpert) as [-> ->].
    apply Isolated_bind_append; [apply Isolated_expert| |].
    + intros _. apply Grows_touch.
      apply Touches_bind; [apply Touches_ret|]. intros _. apply Touches_ret.
    + intros _. apply NoThrow_bind; [apply NoThrow_ret|]. intros _. apply NoThrow_ret.
  - apply Isolated_bind_touch; [apply Touches_ret|]. intros _.
    destruct (String.eqb (n_type node) "aiImageGen") eqn:Himage.
    + apply String.eqb_eq in Himage. rewrite Himage. simpl String.eqb.
      apply Isolated_bind_append; [apply Isolated_aiImageGen| |].
      * intros _. apply Grows_touch, Touches_ret.
      * intros _. apply NoThrow_ret.
    + apply Isolated_bind_touch; [apply Touches_ret|]. intros _.
      destruct (String.eqb (n_type node) "aiVideoGen").
      * apply Isolated_touch, Touches_aiVideoGen.
      * apply Isolated_touch, Touches_ret.
Qed.

Lemma Grows_tryCatch {A : Type} (body : Run A) (handler : jsval → Run A) :
  Isolated nodeId body → (∀ message, Touches (handler message)) →
  Grows (tryCatch body handler).
Proof.
  intros Hb Hh w w' o. unfold tryCatch.
  destruct (body w) as [w1 [a|e]] eqn:Hbw.
  - intros [= <- <-]. by destruct (Hb _ _ _ Hbw).
  - intros Hrun. destruct (Hb _ _ _ Hbw) as [_ Ht].
    apply touchesOnlyW_growsW. eapply touchesOnlyW_trans; [by eapply Ht|].
    by eapply Hh.
Qed.

Lemma Touches_tryCatch_thrown {A : Type} (body : Run A) (handler : jsval → Run A)
    (w w1 w' : World) (message : jsval) (o : outcome A) :
  Isolated nodeId body → (∀ message, Touches (handler message)) →
  body w = (w1, Thrown message) → tryCatch body handler w = (w', o) →
  touchesOnlyW nodeId w w'.
Proof.
  intros Hb Hh Hbw. unfold tryCatch. rewrite Hbw. intros Hrun.
  destruct (Hb _ _ _ Hbw) as [_ Ht].
  eapply touchesOnlyW_trans; [by eapply Ht|]. by eapply Hh.
Qed.

Lemma Grows_executeNode : Grows (executeNode env settings EXPERT_INSTRUCTIONS nodeId).
Proof.
  unfold executeNode. apply Grows_bind; [apply Grows_touch, Touches_getState|].
  intros st. destruct (findNode (nodes st) nodeId) as [node|];
    [|apply Grows_touch, Touches_ret].
  destruct (bool_decide _); [apply Grows_touch, Touches_ret|]. cbv zeta.
  apply Grows_bind; [apply Grows_touch, Touches_ask|]. intros runStartTime.
  apply Grows_bind; [apply Grows_touch, Touches_updateNode|]. intros _.
  apply Grows_tryCatch; [apply Isolated_executeBody|].
  intros message. apply Touches_finalizeNode.
Qed.

Lemma NoThrow_executeNode : NoThrow (executeNode env settings EXPERT_INSTRUCTIONS nodeId).
Proof.
  unfold executeNode. apply NoThrow_bind; [apply NoThrow_getState|].
  intros st. destruct (findNode (nodes st) nodeId) as [node|]; [|apply NoThrow_ret].
  destruct (bool_decide _); [apply NoThrow_ret|]. cbv zeta.
  apply NoThrow_bind; [apply NoThrow_ask|]. intros runStartTime.
  apply NoThrow_bind; [apply NoThrow_updateNode|]. intros _.
  apply NoThrow_tryCatch. intros message. apply NoThrow_finalizeNode.
Qed.
End Isolation.

Section PollIsolation.
Variable env : Env.
Variable settings : AppSettings.

Lemma Isolated_poll (task : PollTask) :
  Isolated (pt_nodeId task) (poll env settings task).
Proof.
  unfold poll. destruct (pt_path task).
  - unfold pollComflyImage. cbv zeta.
    apply Isolated_bind_touch; [apply Touches_call|]. intros resObj.
    destruct (bool_decide (_ ∈ ["FAILED"; "ERROR"; "FAILURE"]));
      [apply Isolated_touch, Touches_finalizeNode|].
    destruct (isDoneStatus _ || _).
    + destruct (negb _); [apply Isolated_touch, Touches_finalizeNode|].
      apply Isolated_bind_touch; [apply Touches_updateNode|]. intros _.
      apply Isolated_bind_touch; [apply Touches_rehost|]. intros [finalUrl mediumUrl].
      apply Isolated_success.
    + apply Isolated_touch.
      apply Touches_bind; [apply Touches_updateNode|]. intros _. apply Touches_schedule.
  - unfold pollGrsaiImage. cbv zeta.
    apply Isolated_bind_touch; [apply Touches_call|]. intros result.
    destruct (bool_decide (_ = Some "failed"));
      [apply Isolated_touch, Touches_finalizeNode|].
    destruct (bool_decide (_ = Some "succeeded")).
    + apply Isolated_bind_touch; [apply Touches_rehost|]. intros [url mediumUrl].
      apply Isolated_success.
    + apply Isolated_touch.
      apply Touches_bind; [apply Touches_updateNode|]. intros _. apply Touches_schedule.
  - unfold pollComflyVideo. cbv zeta.
    apply Isolated_bind_touch; [apply Touches_call|]. intros result.
    destruct (String.eqb _ "FAILURE" || String.eqb _ "FAILED");
      [apply Isolated_touch, Touches_finalizeNode|].
    destruct (isDoneStatus _ || _).
    + apply Isolated_success.
    + apply Isolated_touch.
      apply Touches_bind; [apply Touches_updateNode|]. intros _. apply Touches_schedule.
  - unfold pollGrsaiVideo. cbv zeta.
    apply Isolated_bind_touch; [apply Touches_call|]. intros result.
    destruct (bool_decide (_ = Some "failed"));
      [apply Isolated_touch, Touches_finalizeNode|].
    destruct (bool_decide (_ = Some "succeeded")).
    + apply Isolated_success.
    + apply Isolated_touch.
      apply Touches_bind; [apply Touches_updateNode|]. intros _. apply Touches_schedule.
Qed.
End PollIsolation.

(** X12. An execution never throws and never reaches another node: whatever
    the outside world answers, [executeNode] returns, every node that was in
    the graph is still at its place with its id, type, position and selection,
    the nodes with another id are as they were, and nodes and edges are only
    added at the end of their collections. *)
Theorem executeNode_isolated (env : Env) (settings : AppSettings)
    (EXPERT_INSTRUCTIONS : gmap string string) (nodeId : string) (w : World) :
  ∃ w', executeNode env settings EXPERT_INSTRUCTIONS nodeId w = (w', Returned tt) ∧
        grows nodeId (store w) (store w').
Proof.
  destruct (executeNode env settings EXPERT_INSTRUCTIONS nodeId w) as [w' o] eqn:Hrun.
  exists w'. pose proof (Grows_executeNode _ _ _ _ _ _ _ Hrun) as Hg.
  destruct (NoThrow_executeNode _ _ _ _ _ _ _ Hrun) as [a Ha].
  destruct a. by rewrite Ha.
Qed.

(** X13. A failed execution leaves no partial result: when the block under
    [try] throws, no node and no edge has been added, and only the data of the
    executed node differ from the graph before; the [catch] then changes that
    node's data only. *)
Theorem executeNode_failure_atomic (env : Env) (settings : AppSettings)
    (EXPERT_INSTRUCTIONS : gmap string string) (nodeId : string) (w w1 : World)
    (node : Node) (message : jsval) :
  findNode (nodes (store w)) nodeId = Some node →
  n_type node ∉ ["inputText"; "inputImage"; "outputResult"; "imageProcessing"] →
  let runStartTime := Date_now env (clock w) in
  let inputs := getIncomingData (store w) nodeId in
  executeBody env settings EXPERT_INSTRUCTIONS runStartTime nodeId node inputs
    (fullPromptOf node inputs)
    (str_or (n_data node !! "aspectRatio") (aspectRatio settings))
    {| store := updateNodeData nodeId (runningPatch runStartTime) (store w);
       canvas := canvas w; timers := timers w; clock := S (clock w) |}
  = (w1, Thrown message) →
  let w' := runNode env settings EXPERT_INSTRUCTIONS nodeId w in
  touchesOnly nodeId (store w) (store w1) ∧
  touchesOnly nodeId (store w) (store w') ∧
  statusOf (store w') nodeId = Some (JStr "error") ∧
  statusMsgOf (store w') nodeId = Some message.
Proof.
  intros Hn Ht runStartTime inputs Hbody w'.
  assert (H1 : touchesOnly nodeId (store w) (store w1)).
  { eapply touchesOnly_trans; [apply (touchesOnly_updateNodeData nodeId (runningPatch runStartTime))|].
    destruct (Isolated_executeBody _ _ _ _ _ _ _ _ _ _ _ _ Hbody) as [_ Hth].
    by apply (Hth message). }
  split; [exact H1|].
  assert (Hn1 : ∃ n1, findNode (nodes (store w1)) nodeId = Some n1).
  { destruct H1 as [_ HF]. apply findNode_Some in Hn as [Hin Hid].
    clear -HF Hin Hid. induction HF as [|a b l1 l2 Hab HF IH]; [done|].
    unfold findNode in *. simpl.
    destruct Hab as (Hi & _).
    destruct (bool_decide (n_id b = nodeId)) eqn:Hb; [by eexists|].
    apply bool_decide_eq_false in Hb.
    destruct Hin as [->|Hin]; [congruence|]. by apply IH. }
  destruct Hn1 as [n1 Hn1].
  subst w'. unfold runNode.
  rewrite (executeNode_run _ _ _ _ _ _ Hn Ht).
  rewrite (tryCatch_thrown _ _ _ _ _ Hbody).
  destruct (status_after_finalize_val env runStartTime nodeId "error" message w1 n1 Hn1)
    as (Hs & Hm & _).
  split; [|split; [exact Hs|exact Hm]].
  eapply touchesOnly_trans; [exact H1|].
  rewrite finalizeNode_run. simpl. apply touchesOnly_updateNodeData.
Qed.

(** X14. A poll call reaches its own node only: it may append a result node
    and its edge, it changes no node with another id, and when it throws it
    has added nothing. This holds for the timer that runs it as well. *)
Theorem poll_isolated (env : Env) (settings : AppSettings) (task : PollTask)
    (w w' : World) (o : outcome unit) :
  poll env settings task w = (w', o) →
  grows (pt_nodeId task) (store w) (store w') ∧
  (∀ message, o = Thrown message → touchesOnly (pt_nodeId task) (store w) (store w')) ∧
  ∀ delay rest, timers w = (delay, task) :: rest →
    grows (pt_nodeId task) (store w) (store (fireTimer env settings w)).
Proof.
  intros Hrun. destruct (Isolated_poll env settings task _ _ _ Hrun) as [Hg Ht].
  split; [exact Hg|]. split; [exact Ht|].
  intros delay rest Htimers. unfold fireTimer. rewrite Htimers.
  match goal with
  | |- context [poll env settings task ?w0] =>
      destruct (poll env settings task w0) as [w2 o2] eqn:Hrun2
  end.
  destruct (Isolated_poll env settings task _ _ _ Hrun2) as [Hg2 _]. exact Hg2.
Qed.

Lemma executeNode_failure_atomic_witness :
  let w' := runNode sampleEnv sampleSettings ∅ "d" (worldOf generatorStore) in
  touchesOnly "d" generatorStore (store w') ∧
  statusOf (store w') "d" = Some (JStr "error").
Proof.
  intros w'.
  set (node := mkNode "d" "aiImageGen" {[ "model" := JStr "comfly:nano-banana";
                                          "comflyAsync" := JBool false ]}).
  set (w := worldOf generatorStore).
  set (runStartTime := Date_now sampleEnv (clock w)).
  set (inputs := getIncomingData (store w) "d").
  set (r := executeBody sampleEnv sampleSettings ∅ runStartTime "d" node inputs
              (fullPromptOf node inputs)
              (str_or (n_data node !! "aspectRatio") (aspectRatio sampleSettings))
              {| store := updateNodeData "d" (runningPatch runStartTime) (store w);
                 canvas := canvas w; timers := timers w; clock := S (clock w) |}).
  assert (Hsnd : snd r = Thrown (JStr "Failed to fetch")) by (vm_compute; reflexivity).
  assert (Hrun : r = (fst r, Thrown (JStr "Failed to fetch")))
    by exact (eq_trans (surjective_pairing r) (f_equal (pair (fst r)) Hsnd)).
  assert (Hfind : findNode (nodes (store w)) "d" = Some node)
    by (vm_compute; reflexivity).
  assert (Htype : n_type node ∉
            ["inputText"; "inputImage"; "outputResult"; "imageProcessing"]).
  { intros Hin. rewrite !elem_of_cons, elem_of_nil in Hin.
    simpl in Hin. intuition discriminate. }
  destruct (executeNode_failure_atomic sampleEnv sampleSettings ∅ "d" w (fst r) node
              (JStr "Failed to fetch") Hfind Htype Hrun) as (_ & Ht & Hs & _).
  split; [exact Ht|exact Hs].
Defined.

Lemma poll_isolated_witness :
  grows "g" generatorStore
    (store (fst (poll sampleEnv sampleSettings grsaiImageTask (worldOf generatorStore)))).
Proof.
  exact (proj1 (poll_isolated sampleEnv sampleSettings grsaiImageTask
                  (worldOf generatorStore) _ _ (surjective_pairing _))).
Defined.

(** ** Polling without an end *)

Section PendingFacts.
Variable env : Env.
Variable settings : AppSettings.



End PendingFacts.



(** ** Dropping an image file *)

Lemma updateNodeData_new_node (nid : string) (patch : gmap string jsval)
    (ns : list Node) (es : list Edge) (n0 : Node) :
  findNode ns nid = None → n_id n0 = nid →
  nodes (updateNodeData nid patch {| nodes := ns ++ [n0]; edges := es |})
  = ns ++ [with_data n0 (patch ∪ n_data n0)].
Proof.
  intros Hfresh Hid. unfold updateNodeData; simpl. rewrite map_app; simpl.
  rewrite decide_True by done. f_equal.
  rewrite <- (map_id ns) at 2. apply map_ext_in. intros n Hn.
  rewrite decide_False; [done|]. by apply (proj1 (findNode_None ns nid) Hfresh).
Qed.

(** X16. A dropped image file always settles. When the new id is not in the
    graph yet, [onDrop] returns without an error, the graph has one more
    node and the same edges, and the new input-image node has either the
    status success with the uploaded URL, or the status error and no URL: it
    is never left running. *)
Theorem onDropFile_settles (env : Env) (settings : AppSettings) (file : UploadSource)
    (position : Position) (w : World) :
  findNode (nodes (store w)) (randomUUID env (clock w)) = None →
  ∃ (w' : World) (n : Node),
    onDropFile env settings file position w = (w', Returned tt) ∧
    nodes (store w') = nodes (store w) ++ [n] ∧
    edges (store w') = edges (store w) ∧
    n_id n = randomUUID env (clock w) ∧ n_type n = "inputImage" ∧
    n_position n = position ∧
    ((∃ url, n_data n !! "status" = Some (JStr "success") ∧
             n_data n !! "url" = Some (JStr url)) ∨
     (n_data n !! "status" = Some (JStr "error") ∧ n_data n !! "url" = None)).
Proof.
  intros Hfresh. unfold onDropFile. rewrite bind_run. unfold ask at 1.
  rewrite bind_run. unfold modifyStore at 1. unfold tryCatch, uploadToImgBB.
  set (newNodeId := randomUUID env (clock w)) in *.
  set (n0 := {| n_id := newNodeId; n_type := "inputImage"; n_position := position;
                n_selected := false;
                n_data := {[ "status" := JStr "loading";
                             "statusMsg" := JStr "Uploading..." ]} |}).
  assert (Hfail : ∀ (message : jsval) (c : nat) (cv : list DrawCall)
                    (ts : list (Z * PollTask)),
    ∃ w' n,
      modifyStore (updateNodeData newNodeId
                     {[ "status" := JStr "error"; "statusMsg" := message ]})
        {| store := addNode n0 (store w); canvas := cv; timers := ts; clock := c |}
      = (w', Returned tt) ∧
      nodes (store w') = nodes (store w) ++ [n] ∧
      edges (store w') = edges (store w) ∧
      n_id n = newNodeId ∧ n_type n = "inputImage" ∧ n_position n = position ∧
      ((∃ url, n_data n !! "status" = Some (JStr "success") ∧
               n_data n !! "url" = Some (JStr url)) ∨
       (n_data n !! "status" = Some (JStr "error") ∧ n_data n !! "url" = None))).
  { intros message c cv ts. eexists _, _. split; [reflexivity|]. cbn [store].
    unfold addNode. rewrite updateNodeData_new_node by done.
    split; [reflexivity|]. split; [done|]. split; [done|]. split; [done|].
    split; [done|]. right. cbn [with_data n_data n0].
    split; [apply lookup_union_Some_l; by simplify_map_eq|].
    apply lookup_union_None. split; by simplify_map_eq. }
  destruct (String.eqb (imgbbKey settings) ""); [apply Hfail|].
  rewrite !bind_run, call_run.
  match goal with
  | |- context [imgbb_fetch env ?t ?k ?f ?nm] =>
      destruct (imgbb_fetch env t k f nm) as [result|message]
  end; [|apply Hfail].
  destruct (ir_success result); cbn [negb]; [|apply Hfail].
  eexists _, _. split; [reflexivity|]. cbn [store tick].
  unfold addNode. rewrite updateNodeData_new_node by done.
  split; [reflexivity|]. split; [done|]. split; [done|]. split; [done|].
  split; [done|]. left. eexists. cbn [with_data n_data n0].
  split; apply lookup_union_Some_l; by simplify_map_eq.
Qed.

Lemma onDropFile_settles_witness :
  ∃ (w' : World) (n : Node),
    onDropFile sampleEnv sampleSettings (RemoteBlob "cat.png")
      {| pos_x := 0; pos_y := 0 |} (worldOf remarkStore) = (w', Returned tt) ∧
    nodes (store w') = nodes remarkStore ++ [n].
Proof.
  destruct (onDropFile_settles sampleEnv sampleSettings (RemoteBlob "cat.png")
              {| pos_x := 0; pos_y := 0 |} (worldOf remarkStore))
    as (w' & n & Hrun & Hn & _).
  - vm_compute. reflexivity.
  - exists w', n. split; [exact Hrun|exact Hn].
Defined.

(** ** The service calls *)

(** X17. An upload touches nothing but the clock. Without an API key it
    throws before any request is made; a result it returns comes from a
    request that reported success, and its medium URL is never empty when the
    URL is not: the provider's medium URL when there is one, else the display
    URL, else the URL itself. *)
Theorem uploadToImgBB_outcome (env : Env) (imageSource : UploadSource)
    (apiKey : string) (name : option string) (w w' : World)
    (o : outcome (string * string)) :
  uploadToImgBB env imageSource apiKey name w = (w', o) →
  store w' = store w ∧ canvas w' = canvas w ∧ timers w' = timers w ∧
  (apiKey = "" → w' = w ∧ o = Thrown (JStr "缺少 imgBB API Key")) ∧
  ∀ url mediumUrl, o = Returned (url, mediumUrl) →
    apiKey ≠ "" ∧ clock w' = S (clock w) ∧
    ∃ result,
      imgbb_fetch env (clock w) apiKey imageSource name = Returned result ∧
      ir_success result = true ∧ url = ir_data_url result ∧
      (url ≠ "" → mediumUrl ≠ "") ∧
      (∀ m, ir_data_medium_url result = Some m → m ≠ "" → mediumUrl = m).
Proof.
  unfold uploadToImgBB. destruct (String.eqb apiKey "") eqn:Hkey.
  - apply String.eqb_eq in Hkey. intros [= <- <-].
    split; [done|]. split; [done|]. split; [done|]. split; [done|].
    by intros url mediumUrl [=].
  - apply String.eqb_neq in Hkey. rewrite bind_run, call_run.
    destruct (imgbb_fetch env (clock w) apiKey imageSource name) as [result|e] eqn:Hans.
    + destruct (ir_success result) eqn:Hok; simpl.
      * intros [= <- <-].
        split; [done|]. split; [done|]. split; [done|]. split; [by intros ?|].
        intros url mediumUrl [= <- <-]. split; [done|]. split; [done|].
        exists result. split; [done|]. split; [done|]. split; [done|]. split.
        -- intros Hurl. unfold opt_or.
           destruct (ir_data_medium_url result) as [m|].
           ++ destruct (String.eqb m "") eqn:Hm; [|by apply String.eqb_neq].
              destruct (ir_data_display_url result) as [d|]; [|done].
              destruct (String.eqb d "") eqn:Hd; [done|by apply String.eqb_neq].
           ++ destruct (ir_data_display_url result) as [d|]; [|done].
              destruct (String.eqb d "") eqn:Hd; [done|by apply String.eqb_neq].
        -- intros m -> Hm. unfold opt_or at 1.
           by rewrite (proj2 (String.eqb_neq _ _) Hm).
      * intros [= <- <-].
        split; [done|]. split; [done|]. split; [done|]. split; [by intros ?|].
        by intros url mediumUrl [=].
    + intros [= <- <-].
      split; [done|]. split; [done|]. split; [done|]. split; [by intros ?|].
      by intros url mediumUrl [=].
Qed.

Lemma uploadToImgBB_outcome_witness :
  store (fst (uploadToImgBB sampleEnv (RemoteBlob "a") "" None (worldOf remarkStore)))
  = remarkStore.
Proof.
  exact (proj1 (uploadToImgBB_outcome sampleEnv (RemoteBlob "a") "" None
                  (worldOf remarkStore) _ _ (surjective_pairing _))).
Defined.

(** X18. The Comfly video submission never returns an empty task id: the id
    is the answer's [task_id] when that is a non-empty string, and otherwise
    its [data.task_id], which then is one; with neither, the call throws. One
    request is made and the graph is not touched. *)
Theorem comflyVideo_task_id (env : Env) (params : ComflyVideoParams) (w w' : World)
    (o : outcome string) :
  comflyVideo env params w = (w', o) →
  store w' = store w ∧ clock w' = S (clock w) ∧
  (∀ taskId, o = Returned taskId →
     taskId ≠ "" ∧
     ∃ data,
       comfly_video_fetch env (clock w) (cparams_apiKey params) (comflyVideoPayload params)
       = Returned data ∧
       (opt_truthy (cs_task_id data) = Some taskId ∨
        (opt_truthy (cs_task_id data) = None ∧
         opt_truthy (cs_data_task_id data) = Some taskId))) ∧
  ∀ data,
    comfly_video_fetch env (clock w) (cparams_apiKey params) (comflyVideoPayload params)
    = Returned data →
    opt_truthy (cs_task_id data) = None → opt_truthy (cs_data_task_id data) = None →
    ∃ message, o = Thrown message.
Proof.
  assert (Hne : ∀ x s, opt_truthy x = Some s → s ≠ "").
  { intros [x|] s; simpl; [|done]. destruct (String.eqb x "") eqn:Hx; [done|].
    intros [= <-]. by apply String.eqb_neq. }
  unfold comflyVideo. rewrite bind_run, call_run.
  destruct (comfly_video_fetch env (clock w) (cparams_apiKey params)
              (comflyVideoPayload params)) as [data|e] eqn:Hans.
  - destruct (opt_truthy (cs_task_id data)) as [t1|] eqn:H1.
    + intros [= <- <-]. split; [done|]. split; [done|]. split.
      * intros taskId [= <-]. split; [by eapply Hne|]. exists data. by split; [|left].
      * intros ? [= <-] ?. congruence.
    + destruct (opt_truthy (cs_data_task_id data)) as [t2|] eqn:H2.
      * intros [= <- <-]. split; [done|]. split; [done|]. split.
        -- intros taskId [= <-]. split; [by eapply Hne|]. exists data.
           by split; [|right].
        -- intros ? [= <-] ? ?. congruence.
      * intros [= <- <-]. split; [done|]. split; [done|]. split; [done|].
        intros; by eexists.
  - intros [= <- <-]. split; [done|]. split; [done|]. split; [done|]. done.
Qed.

Lemma comflyVideo_task_id_witness :
  clock (fst (comflyVideo sampleEnv fourImages (worldOf remarkStore))) = 1%nat.
Proof.
  exact (proj1 (proj2 (comflyVideo_task_id sampleEnv fourImages (worldOf remarkStore)
                         _ _ (surjective_pairing _)))).
Defined.

Lemma mapToComflySize_cases (ratio : string) (level : option string) :
  (In ratio knownRatios ∧ In level knownLevels ∧
   ∃ size : string, mapToComflySize ratio level = Size size) ∨
  (¬ In ratio knownRatios ∧
   mapToComflySize ratio level
   = if inherited ratio then Inherited else Size "1024x1024") ∨
  (In ratio knownRatios ∧ ¬ In level knownLevels ∧
   mapToComflySize ratio level
   = if inherited (default "1K" level) then Inherited else Size "1024x1024").
Proof.
  unfold mapToComflySize, knownRatios, knownLevels, comflySizes.
  destruct level as [level|];
    cbn [assoc default from_option id In];
    repeat match goal with
           | |- context [String.eqb ?a ?b] =>
               destruct (String.eqb_spec a b); try discriminate; try subst;
               cbn [assoc opt_or default from_option id]
           end;
    first [ left; split; [tauto|]; split; [tauto|]; by eexists
          | right; left; split; [intuition congruence|reflexivity]
          | right; right; split; [tauto|]; split;
            [intuition congruence|reflexivity] ].
Qed.

Lemma sizeHasRatio_sound (ratio : string) (level : option string) :
  sizeHasRatio ratio level = true →
  ∃ (a b : Z) (size : string) (width height : Z),
    ratioDims ratio = Some (a, b) ∧
    mapToComflySize ratio level = Size size ∧
    sizeDims size = Some (width, height) ∧
    (width * b = height * a)%Z ∧ (0 < width)%Z ∧ (0 < height)%Z.
Proof.
  unfold sizeHasRatio.
  destruct (ratioDims ratio) as [[a b]|] eqn:Hrd; [|done].
  destruct (mapToComflySize ratio level) as [size|] eqn:Hsize; [|done].
  destruct (sizeDims size) as [[width height]|] eqn:Hsd; [|done].
  intros H. apply andb_true_iff in H as [H Hh]. apply andb_true_iff in H as [Hr Hw].
  apply Z.eqb_eq in Hr. apply Z.ltb_lt in Hw, Hh.
  exists a, b, size, width, height.
  split; [done|]. split; [done|]. split; [done|]. split; [done|]. by split.
Qed.

(** X19. The sizes sent to Comfly. For each of the five ratios of the table
    at a level of the table (or none) the size is a pair of positive pixel
    numbers with exactly that ratio. For a ratio that is not in the table,
    and also for a ratio of the table at a level that is not, the size is the
    square 1024x1024, provided the ratio (the level) is not the name of a
    property that objects inherit, such as constructor. *)
Theorem mapToComflySize_ratio (ratio : string) (level : option string) :
  (In ratio knownRatios → In level knownLevels →
   ∃ (a b : Z) (size : string) (width height : Z),
     ratioDims ratio = Some (a, b) ∧
     mapToComflySize ratio level = Size size ∧
     sizeDims size = Some (width, height) ∧
     (width * b = height * a)%Z ∧ (0 < width)%Z ∧ (0 < height)%Z) ∧
  (¬ In ratio knownRatios → ratio ∉ objectPrototypeKeys →
   mapToComflySize ratio level = Size "1024x1024") ∧
  (In ratio knownRatios → ¬ In level knownLevels →
   default "1K" level ∉ objectPrototypeKeys →
   mapToComflySize ratio level = Size "1024x1024").
Proof.
  assert (Hknown : In ratio knownRatios → In level knownLevels →
            ∃ (a b : Z) (size : string) (width height : Z),
              ratioDims ratio = Some (a, b) ∧
              mapToComflySize ratio level = Size size ∧
              sizeDims size = Some (width, height) ∧
              (width * b = height * a)%Z ∧ (0 < width)%Z ∧ (0 < height)%Z).
  { intros Hr Hl. apply sizeHasRatio_sound.
    unfold knownRatios, knownLevels in *. simpl in Hr, Hl.
    destruct Hr as [<-|[<-|[<-|[<-|[<-|[]]]]]];
      destruct Hl as [<-|[<-|[<-|[<-|[]]]]];
      vm_compute; reflexivity. }
  split; [exact Hknown|].
  destruct (mapToComflySize_cases ratio level)
    as [(Hr & Hl & size & Hsize)|[(Hr & Hmap)|(Hr & Hl & Hmap)]].
  - split; [done|done].
  - rewrite Hmap. unfold inherited. case_bool_decide as Hin.
    + split; [done|]. intros Hr'; by destruct Hr.
    + split; [done|]. intros Hr'; by destruct Hr.
  - rewrite Hmap. unfold inherited. case_bool_decide as Hin.
    + split; [intros Hnr; by destruct Hnr|done].
    + split; [intros Hnr; by destruct Hnr|done].
Qed.

(** The table on samples; with the name of an inherited property the
    lookup leaves the table. *)
Example mapToComflySize_samples :
  mapToComflySize "16:9" (Some "2K") = Size "1920x1080" ∧
  mapToComflySize "16:9" None = Size "1280x720" ∧
  mapToComflySize "21:9" (Some "2K") = Size "1024x1024" ∧
  mapToComflySize "16:9" (Some "8K") = Size "1024x1024" ∧
  mapToComflySize "constructor" (Some "name") = Inherited ∧
  mapToComflySize "1:1" (Some "constructor") = Inherited.
Proof. by vm_compute. Qed.

(** X20. The Comfly image requests use the first input image only: two
    calls that agree on the model, the prompt, the ratio, the level and the
    first image send the same request body, whatever images follow, on the
    synchronous and on the asynchronous path; the asynchronous path goes to
    the edit endpoint exactly when there is an image. *)
Theorem comflyDraw_first_image_only (p p' : DrawParams) :
  dp_model p = dp_model p' → dp_prompt p = dp_prompt p' →
  dp_aspectRatio p = dp_aspectRatio p' → dp_imageSize p = dp_imageSize p' →
  head (dp_urls p) = head (dp_urls p') →
  comflyDrawPayload p = comflyDrawPayload p' ∧
  comflyDrawTaskRequest p = comflyDrawTaskRequest p' ∧
  cdp_image (comflyDrawPayload p) = head (dp_urls p) ∧
  (ctr_endpoint (comflyDrawTaskRequest p) = "/v1/images/edits?async=true"
   ↔ dp_urls p ≠ []).
Proof.
  intros Hm Hp Ha Hs Hh.
  unfold comflyDrawPayload, comflyDrawTaskRequest. rewrite Hm, Hp, Ha, Hs.
  destruct (dp_urls p) as [|u us], (dp_urls p') as [|u' us']; simpl in *;
    try discriminate; repeat split; try done; congruence.
Qed.

Lemma comflyDraw_first_image_only_witness :
  comflyDrawPayload {| dp_model := "m"; dp_prompt := "p"; dp_aspectRatio := "16:9";
                       dp_imageSize := Some "2K"; dp_urls := ["a"; "b"; "c"];
                       dp_apiKey := "k" |}
  = comflyDrawPayload {| dp_model := "m"; dp_prompt := "p"; dp_aspectRatio := "16:9";
                         dp_imageSize := Some "2K"; dp_urls := ["a"];
                         dp_apiKey := "other" |}.
Proof.
  by refine (proj1 (comflyDraw_first_image_only _ _ _ _ _ _ _)).
Defined.

(** ** Arranging the selection, and the splitter's cells *)

Section RoundFacts.
Local Open Scope Q_scope.

Lemma Qfloor_unique (x : Q) (m : Z) :
  inject_Z m <= x → x < inject_Z m + 1 → Qfloor x = m.
Proof.
  intros Hl Hu. pose proof (Qfloor_le x) as Hfl. pose proof (Qlt_floor x) as Hfu.
  rewrite inject_Z_plus in Hfu. change (inject_Z 1) with 1 in Hfu.
  assert (H1 : inject_Z (Qfloor x) < inject_Z (m + 1)).
  { rewrite inject_Z_plus. change (inject_Z 1) with 1. lra. }
  assert (H2 : inject_Z m < inject_Z (Qfloor x + 1)).
  { rewrite inject_Z_plus. change (inject_Z 1) with 1. lra. }
  rewrite <- Zlt_Qlt in H1, H2. lia.
Qed.

(** Rounding an integer number of twentieths: the division gives a double
    that rounds as the exact quotient does. *)
Lemma Math_round_binary64 (q : Q) (N : Z) :
  q == inject_Z N / 20 → (Z.abs N < 2 ^ 36)%Z →
  Math_round (binary64 q) = ((N + 10) / 20)%Z.
Proof.
  intros Hq HN.
  assert (Hb : Qabs q < pow2 36).
  { rewrite pow2_Z by lia. apply Qabs_Qlt_condition.
    assert (H1 : inject_Z (- 2 ^ 36) < inject_Z N) by (rewrite <- Zlt_Qlt; lia).
    assert (H2 : inject_Z N < inject_Z (2 ^ 36)) by (rewrite <- Zlt_Qlt; lia).
    rewrite inject_Z_opp in H1.
    assert (H3 : 0 < inject_Z (2 ^ 36)) by (rewrite <- (Zlt_Qlt 0); lia).
    rewrite Hq. split.
    - apply Qlt_shift_div_l; [reflexivity|]. lra.
    - apply Qlt_shift_div_r; [reflexivity|]. lra. }
  pose proof (Z.div_mod (N + 10) 20 ltac:(lia)) as Hdm.
  pose proof (Z.mod_pos_bound (N + 10) 20 ltac:(lia)) as Hr.
  set (M := ((N + 10) / 20)%Z) in *. set (r := ((N + 10) mod 20)%Z) in *.
  assert (HN' : inject_Z N == 20 * inject_Z M + inject_Z r - 10).
  { replace N with (20 * M + r - 10)%Z at 1 by lia.
    unfold Zminus. rewrite !inject_Z_plus, inject_Z_mult. reflexivity. }
  assert (Hq' : q == inject_Z M + inject_Z r * (1 # 20) - (1 # 2)).
  { rewrite Hq, HN'. field. }
  unfold Math_round. destruct (Z.eq_dec r 0%Z) as [Hr0|Hr0].
  - assert (He : binary64 q == q).
    { apply (binary64_exact q ((2 * M - 1) * 2 ^ 16)); [|exact Hb].
      rewrite Hq', Hr0. unfold Zminus. rewrite inject_Z_mult, inject_Z_plus, inject_Z_mult.
      change (pow2 17) with (inject_Z 131072).
      change (inject_Z (2 ^ 16)) with (inject_Z 65536).
      change (inject_Z (- (1))) with (- (1)). change (inject_Z 2) with 2.
      change (inject_Z 0) with 0. field. }
    assert (Hq0 : q == inject_Z M - (1 # 2)).
    { rewrite Hq', Hr0. change (inject_Z 0) with 0. field. }
    clear Hb Hq HN' Hq'. apply Qfloor_unique; rewrite He, Hq0; lra.
  - pose proof (binary64_near q Hb) as Hn.
    apply Qabs_Qle_condition in Hn as [Hn1 Hn2].
    assert (H18 : pow2 (-18) == 1 # 262144) by (by vm_compute).
    rewrite H18 in Hn1, Hn2.
    assert (H1 : inject_Z 1 <= inject_Z r) by (rewrite <- Zle_Qle; lia).
    assert (H2 : inject_Z r <= inject_Z 19) by (rewrite <- Zle_Qle; lia).
    change (inject_Z 1) with 1 in H1. change (inject_Z 19) with 19 in H2.
    clear Hb H18 Hq HN'. apply Qfloor_unique; lra.
Qed.
End RoundFacts.

Lemma Forall2_map_same {A B : Type} (R : A → B → Prop) (f : A → B) (l : list A) :
  (∀ x, R x (f x)) → Forall2 R l (List.map f l).
Proof. intros H. induction l; simpl; constructor; [apply H|done]. Qed.

Lemma findIndex_NoDup (l : list Node) (i : nat) (n : Node) :
  NoDup (List.map n_id l) → l !! i = Some n →
  findIndex (fun m => String.eqb (n_id m) (n_id n)) l = Some i.
Proof.
  revert i. induction l as [|m l IH]; intros i Hnd Hi; [done|].
  simpl in Hnd. apply NoDup_cons in Hnd as [Hm Hl]. simpl.
  destruct i as [|i]; simpl in Hi.
  - injection Hi as ->. by rewrite String.eqb_refl.
  - destruct (String.eqb (n_id m) (n_id n)) eqn:He.
    + apply String.eqb_eq in He. destruct Hm. rewrite He.
      apply list_elem_of_In, in_map. apply list_elem_of_In.
      by eapply list_elem_of_lookup_2.
    + by rewrite (IH i Hl Hi).
Qed.

(** The place of a selected node in the row, for a whole-number start. *)
Lemma arranged_place (start : Q) (S i : Z) :
  (start == inject_Z S)%Q → (0 <= i)%Z → (Z.abs S + 400 * i < 2 ^ 35)%Z →
  binary64
    (inject_Z (Math_round (binary64
       (binary64 (start + binary64 (inject_Z i * 400)) / 20))) * 20)%Q
  = inject_Z (20 * ((S + 10) / 20) + 400 * i).
Proof.
  intros Hs Hi Hb.
  assert (H1 : binary64 (inject_Z i * 400) = inject_Z (i * 400)).
  { apply binary64_Z; [by rewrite inject_Z_mult|lia]. }
  rewrite H1.
  assert (H2 : binary64 (start + inject_Z (i * 400)) = inject_Z (S + i * 400)).
  { apply binary64_Z; [by rewrite inject_Z_plus, Hs|lia]. }
  rewrite H2.
  rewrite (Math_round_binary64 _ (S + i * 400)) by (reflexivity || lia).
  replace ((S + i * 400 + 10) / 20)%Z with ((S + 10) / 20 + 20 * i)%Z
    by (rewrite <- Z.div_add by lia; f_equal; lia).
  pose proof (Z.div_mod (S + 10) 20 ltac:(lia)) as Hdm.
  pose proof (Z.mod_pos_bound (S + 10) 20 ltac:(lia)) as Hr.
  apply binary64_Z; [|lia].
  rewrite !inject_Z_plus, !inject_Z_mult.
  change (inject_Z 20) with 20%Q. change (inject_Z 400) with 400%Q. ring.
Qed.

Lemma arranged_row (start : Q) (S : Z) :
  (start == inject_Z S)%Q → (Z.abs S < 2 ^ 35)%Z →
  binary64 (inject_Z (Math_round (binary64 (start / 20))) * 20)%Q
  = inject_Z (20 * ((S + 10) / 20)).
Proof.
  intros Hs Hb.
  rewrite (Math_round_binary64 _ S) by (by rewrite ?Hs || lia).
  pose proof (Z.div_mod (S + 10) 20 ltac:(lia)) as Hdm.
  pose proof (Z.mod_pos_bound (S + 10) 20 ltac:(lia)) as Hr.
  apply binary64_Z; [|lia].
  rewrite inject_Z_mult. change (inject_Z 20) with 20%Q. ring.
Qed.

(** X21. Arranging the selection puts it in one row. With distinct node
    ids, a selection sorted from left to right as [first :: rest], and a
    leftmost node at a whole-number place (X, Y) below 2^35, the node at
    place i of the selection lands at x = x0 + 400 i and y = y0, where
    (x0, y0) are the multiples of 20 nearest to X and Y (a half going up);
    every node keeps its id, type, data and selection, the nodes that are not
    selected stay where they are, and the edges are unchanged. *)
Theorem autoArrangeSelected_row (st : Store) (first : Node) (rest : list Node)
    (X Y : Z) :
  NoDup (List.map n_id (nodes st)) →
  js_sort byPositionX (List.filter n_selected (nodes st)) = first :: rest →
  (pos_x (n_position first) == inject_Z X)%Q →
  (pos_y (n_position first) == inject_Z Y)%Q →
  (Z.abs X + 400 * Z.of_nat (length rest) < 2 ^ 35)%Z →
  (Z.abs Y < 2 ^ 35)%Z →
  let st' := autoArrangeSelected st in
  let x0 := (20 * ((X + 10) / 20))%Z in
  let y0 := (20 * ((Y + 10) / 20))%Z in
  edges st' = edges st ∧
  Forall2 movedOnly (nodes st) (nodes st') ∧
  ∀ (i : nat) (n : Node), (first :: rest) !! i = Some n →
    ∃ n', In n' (nodes st') ∧ n_id n' = n_id n ∧
          n_position n' = {| pos_x := inject_Z (x0 + 400 * Z.of_nat i);
                             pos_y := inject_Z y0 |}.
Proof.
  intros Hnd Hsort HX HY HbX HbY st' x0 y0. subst st'.
  unfold autoArrangeSelected. rewrite Hsort.
  split; [done|]. split.
  - unfold setNodes; simpl. apply Forall2_map_same. intros n.
    destruct (n_selected n) eqn:Hs; [|by repeat split].
    split; [done|]. split; [done|]. split; [done|]. split; [done|].
    intros Hf. congruence.
  - intros i n Hi.
    assert (Hperm : Permutation (first :: rest) (List.filter n_selected (nodes st))).
    { rewrite <- Hsort. apply js_sort_perm_cmp. }
    assert (Hin : In n (List.filter n_selected (nodes st))).
    { apply list_elem_of_In. rewrite <- Hperm. by eapply list_elem_of_lookup_2. }
    apply filter_In in Hin as [Hin Hsel].
    assert (Hnd' : NoDup (List.map n_id (first :: rest))).
    { assert (Hp : List.map n_id (first :: rest)
                   ≡ₚ List.map n_id (List.filter n_selected (nodes st)))
        by (by apply Permutation_map).
      rewrite Hp. by apply NoDup_map_filter. }
    assert (Hlt : (i < length (first :: rest))%nat) by (by eapply lookup_lt_Some).
    eexists. split; [|split].
    + unfold setNodes; cbn [nodes]. apply in_map_iff. exists n.
      split; [reflexivity|done].
    + rewrite Hsel. reflexivity.
    + rewrite Hsel. cbv zeta. rewrite (findIndex_NoDup _ _ _ Hnd' Hi).
      unfold with_position; cbn [n_position]. simpl in Hlt.
      rewrite (arranged_place _ X (Z.of_nat i)) by (done || lia).
      rewrite (arranged_row _ Y) by done.
      reflexivity.
Qed.

Lemma autoArrangeSelected_row_witness :
  ∃ n', In n' (nodes (autoArrangeSelected selectionStore)) ∧ n_id n' = "img3" ∧
        n_position n' = {| pos_x := inject_Z 400; pos_y := inject_Z 300 |}.
Proof.
  assert (H := autoArrangeSelected_row selectionStore).
  edestruct H as (_ & _ & Hrow).
  - simpl.
    repeat (apply NoDup_cons_2;
            [rewrite ?elem_of_cons, elem_of_nil; intuition discriminate|]).
    apply NoDup_nil_2.
  - vm_compute. reflexivity.
  - instantiate (1 := 0%Z). reflexivity.
  - instantiate (1 := 300%Z). reflexivity.
  - vm_compute. reflexivity.
  - vm_compute. reflexivity.
  - exact (Hrow 1%nat _ eq_refl).
Defined.

(** From a place that is not a whole number the row need not be 400
    apart: 9.999999999999998 + 400 is 410 as a double, which snaps to 420,
    while the start itself snaps to 0. *)
Example autoArrangeSelected_fraction :
  List.map (fun n => (n_id n, n_position n)) (nodes (autoArrangeSelected fractionStore))
  = [ ("a", {| pos_x := 0; pos_y := 0 |}); ("b", {| pos_x := 420; pos_y := 0 |}) ].
Proof. by vm_compute. Qed.

Section CellFacts.
Variables (sourceUrl gridType : string) (width height : Z) (trimPx : Q).
Let cols := colsOf gridType.
Let cellW := (inject_Z width / inject_Z cols)%Q.
Let cellH := (inject_Z height / inject_Z cols)%Q.
Hypothesis width_pos : (0 < width)%Z.
Hypothesis height_pos : (0 < height)%Z.
Hypothesis trim_nonneg : (0 <= trimPx)%Q.






End CellFacts.



(** ** The resolver's texts, and the image list of the editor *)

Section TextFacts.
Variable st : Store.

Lemma pushText_texts (data : IncomingData) (e : Edge) :
  texts (pushText st data e) = texts data ++ option_list (sourceContent st e).
Proof.
  unfold pushText, sourceContent.
  destruct (findNode (nodes st) (e_source e)) as [n|]; simpl; [|by rewrite app_nil_r].
  destruct (truthy_str (n_data n !! "content")); simpl; [done|by rewrite app_nil_r].
Qed.

Lemma fold_pushText_texts (es : list Edge) (data : IncomingData) :
  texts (fold_left (pushText st) es data) = texts data ++ omap (sourceContent st) es.
Proof.
  revert data. induction es as [|e es IH]; intros data; simpl.
  - by rewrite app_nil_r.
  - rewrite IH, pushText_texts, <- app_assoc. f_equal.
    by destruct (sourceContent st e).
Qed.

Lemma pushImage_texts (data : IncomingData) (e : Edge) :
  texts (pushImage st data e) = texts data.
Proof.
  unfold pushImage. destruct (findNode _ _) as [n|]; [|done].
  destruct (truthy_str (n_data n !! "url")); [|done].
  by destruct (truthy_str (n_data n !! "remark")).
Qed.

Lemma fold_pushImage_texts (es : list Edge) (data : IncomingData) :
  texts (fold_left (pushImage st) es data) = texts data.
Proof.
  revert data. induction es as [|e es IH]; intros data; simpl; [done|].
  by rewrite IH, pushImage_texts.
Qed.

Lemma getIncomingData_texts (t : string) :
  texts (getIncomingData st t) =
  omap (sourceContent st) (List.filter isTextHandle (incomingEdgesOf st t)).
Proof.
  unfold getIncomingData. by rewrite fold_pushImage_texts, fold_pushText_texts.
Qed.
End TextFacts.

Lemma omap_map_ext {A B C : Type} (f : B → option C) (g : A → option C) (h : A → B)
    (l : list A) :
  (∀ x, f (h x) = g x) → omap f (List.map h l) = omap g l.
Proof.
  intros H. induction l as [|x l IH]; simpl; [done|].
  rewrite H. destruct (g x); [f_equal|]; exact IH.
Qed.

Lemma filter_map_comm {A B : Type} (p : B → bool) (q : A → bool) (h : A → B)
    (l : list A) :
  (∀ x, p (h x) = q x) →
  List.filter p (List.map h l) = List.map h (List.filter q l).
Proof.
  intros H. induction l as [|x l IH]; simpl; [done|].
  rewrite H. destruct (q x); simpl; by rewrite IH.
Qed.

(** X23. The texts are resolved in the order of the edge collection, and an
    order value plays no part: the texts of a node are the non-empty contents
    of the sources of its incoming edges on no handle or on the handles
    "text", "anchor" and "sequence", edge by edge; they stay the same when the
    edges are given other data, and when edges on the handle "image" are
    added, removed or reordered among the other edges. *)
Theorem resolver_texts_edge_order (st : Store) (targetNodeId : string) :
  texts (getIncomingData st targetNodeId) =
    omap (sourceContent st)
      (List.filter (fun e => bool_decide (e_target e = targetNodeId) && isTextHandle e)
         (edges st)) ∧
  (∀ redo : Edge → Edge, (∀ e, sameButOrder e (redo e)) →
     texts (getIncomingData (setEdges (List.map redo (edges st)) st) targetNodeId)
     = texts (getIncomingData st targetNodeId)) ∧
  (∀ es : list Edge,
     List.filter (fun e => negb (handleIs "image" e)) es
     = List.filter (fun e => negb (handleIs "image" e)) (edges st) →
     texts (getIncomingData (setEdges es st) targetNodeId)
     = texts (getIncomingData st targetNodeId)).
Proof.
  assert (Hchar : ∀ s : Store,
    texts (getIncomingData s targetNodeId) =
    omap (sourceContent s)
      (List.filter (fun e => bool_decide (e_target e = targetNodeId) && isTextHandle e)
         (edges s))).
  { intros s. rewrite getIncomingData_texts. unfold incomingEdgesOf. f_equal.
    induction (edges s) as [|e es IH]; simpl; [done|].
    destruct (bool_decide (e_target e = targetNodeId)); simpl; [|exact IH].
    destruct (isTextHandle e); by rewrite IH. }
  split; [apply Hchar|]. split.
  - intros redo Hredo. rewrite !Hchar. simpl.
    rewrite (filter_map_comm _
               (fun e => bool_decide (e_target e = targetNodeId) && isTextHandle e)).
    + apply omap_map_ext. intros e. destruct (Hredo e) as (_ & Hs & _).
      unfold sourceContent. by rewrite Hs.
    + intros e. destruct (Hredo e) as (_ & _ & Ht & _ & Hh).
      unfold isTextHandle. by rewrite Ht, Hh.
  - intros es Hes. rewrite !Hchar. simpl.
    assert (Hsplit : ∀ l : list Edge,
      List.filter (fun e => bool_decide (e_target e = targetNodeId) && isTextHandle e) l
      = List.filter (fun e => bool_decide (e_target e = targetNodeId) && isTextHandle e)
          (List.filter (fun e => negb (handleIs "image" e)) l)).
    { intros l. induction l as [|e l IH]; simpl; [done|].
      destruct (handleIs "image" e) eqn:Hi; simpl.
      - unfold handleIs in Hi. apply bool_decide_eq_true in Hi.
        unfold isTextHandle. rewrite Hi. simpl. rewrite andb_false_r. exact IH.
      - destruct (bool_decide (e_target e = targetNodeId) && isTextHandle e);
          by rewrite IH. }
    rewrite (Hsplit es), (Hsplit (edges st)), Hes. reflexivity.
Qed.

(** X24. The image editor is given the images the engine resolves: the
    image list [getInputImages] builds for an image-processing node is the
    image list of [getIncomingData] for the same node. *)
Theorem getInputImages_resolver (st : Store) (nodeId : string) :
  getInputImages st nodeId = images (getIncomingData st nodeId).
Proof.
  rewrite getIncomingData_images. unfold getInputImages.
  fold (sameTargetEdges nodeId (Some "image") (edges st)).
  rewrite sameTargetEdges_image.
  induction (js_sort byOrder (imageEdgesOf st nodeId)) as [|e es IH]; simpl; [done|].
  unfold sourceUrl at 1.
  destruct (findNode (nodes st) (e_source e)) as [n|]; simpl.
  - destruct (truthy_str (n_data n !! "url")); simpl; [f_equal|]; exact IH.
  - exact IH.
Qed.

(** ** The results of an expert node *)

Section ExpertFacts.
Variable env : Env.
Variable EXPERT_INSTRUCTIONS : gmap string string.

Lemma expertLoop_run (nodeId : string) (node : Node) (total : nat)
    (outs : list ExpertOutput) :
  ∀ (index : nat) (accN : list Node) (accE : list Edge) (w : World),
    ∃ (ns : list Node) (es : list Edge),
      expertLoop env nodeId node total index outs accN accE w =
      ({| store := store w; canvas := canvas w; timers := timers w;
          clock := clock w + length outs |}, Returned (accN ++ ns, accE ++ es)) ∧
      length ns = length outs ∧ length es = length outs ∧
      Forall (fun n => n_type n = "outputResult") ns ∧
      Forall (fun e => e_source e = nodeId ∧ e_targetHandle e = Some "text") es.
Proof.
  induction outs as [|out outs IH]; intros index accN accE w.
  - exists [], []. simpl. rewrite !app_nil_r, Nat.add_0_r. by destruct w.
  - cbn [expertLoop]. rewrite bind_run. unfold ask at 1.
    edestruct IH as (ns & es & -> & Hn & He & Hns & Hes).
    eexists (_ :: ns), (_ :: es). rewrite <- !app_assoc. simpl.
    split; [repeat f_equal; lia|]. split; [by rewrite Hn|]. split; [by rewrite He|].
    split; constructor; done.
Qed.

(** With an answer of the service the handler returns. *)
Lemma expert_returns (runStartTime : Z) (nodeId : string) (node : Node)
    (fullPrompt : string) (geminiImages : list InlineImage) (w : World)
    (result : ExpertResult) :
  (∀ prompt systemInstruction,
     geminiTextExpert env (clock w) prompt systemInstruction geminiImages
     = Returned result) →
  ∃ w', expert env EXPERT_INSTRUCTIONS runStartTime nodeId node fullPrompt geminiImages w
        = (w', Returned tt).
Proof.
  intros Hans. unfold expert. cbv zeta.
  rewrite bind_run, call_run, Hans, bind_run, finalizeNode_run, bind_run.
  destruct (er_outputs result) as [outputs|].
  - match goal with
    | |- context [expertLoop env nodeId node ?t ?i ?o ?an ?ae ?w0] =>
        destruct (expertLoop_run nodeId node t o i an ae w0)
          as (ns & es & -> & _)
    end.
    eexists. reflexivity.
  - eexists. reflexivity.
Qed.
End ExpertFacts.

(** X25. An expert node that succeeds adds one result node and one edge for
    each of the first 16 outputs of the answer, and none when the answer has
    no outputs: the graph has min(16, number of outputs) more nodes, all of
    them result nodes, and as many more edges, all of them from the expert
    node on the handle "text"; the nodes that were there keep their places. *)
Theorem expert_success_count (env : Env) (EXPERT_INSTRUCTIONS : gmap string string)
    (runStartTime : Z) (nodeId : string) (node : Node) (fullPrompt : string)
    (geminiImages : list InlineImage) (w w' : World) :
  expert env EXPERT_INSTRUCTIONS runStartTime nodeId node fullPrompt geminiImages w
  = (w', Returned tt) →
  ∃ (prompt systemInstruction : string) (result : ExpertResult)
    (kept added : list Node) (newEdges : list Edge),
    geminiTextExpert env (clock w) prompt systemInstruction geminiImages
    = Returned result ∧
    nodes (store w') = kept ++ added ∧ length kept = length (nodes (store w)) ∧
    edges (store w') = edges (store w) ++ newEdges ∧
    length added = Nat.min 16 (length (default [] (er_outputs result))) ∧
    length newEdges = length added ∧
    Forall (fun n => n_type n = "outputResult") added ∧
    Forall (fun e => e_source e = nodeId ∧ e_targetHandle e = Some "text") newEdges.
Proof.
  intros Hrun. unfold expert in Hrun. cbv zeta in Hrun.
  rewrite bind_run, call_run in Hrun.
  match type of Hrun with
  | context [geminiTextExpert env (clock w) ?p ?s geminiImages] =>
      destruct (geminiTextExpert env (clock w) p s geminiImages) as [result|e] eqn:Hans;
      [exists p, s, result|discriminate Hrun]
  end.
  rewrite bind_run, finalizeNode_run, bind_run in Hrun.
  destruct (er_outputs result) as [outputs|]; simpl default.
  - match type of Hrun with
    | context [expertLoop env nodeId node ?t ?i ?o ?an ?ae ?w0] =>
        destruct (expertLoop_run env nodeId node t o i an ae w0)
          as (ns & es & Hloop & Hn & He & Hns & Hes)
    end.
    rewrite Hloop in Hrun. injection Hrun as <-. simpl.
    eexists _, ns, es. split; [done|]. split; [reflexivity|].
    split; [apply updateNodeData_length|]. split; [done|].
    split; [by rewrite Hn, length_take|]. split; [congruence|]. by split.
  - injection Hrun as <-. simpl.
    eexists _, [], []. rewrite !app_nil_r. split; [done|]. split; [reflexivity|].
    split; [apply updateNodeData_length|]. by repeat split.
Qed.

Lemma expert_success_count_witness :
  ∃ (w' : World) (kept added : list Node),
    expert twentyOutputsEnv ∅ 0 "x" (mkNode "x" "aiExpert" ∅) "prompt" []
      (worldOf remarkStore) = (w', Returned tt) ∧
    nodes (store w') = kept ++ added ∧ length kept = 3%nat ∧ length added = 16%nat.
Proof.
  destruct (expert_returns twentyOutputsEnv ∅ 0 "x" (mkNode "x" "aiExpert" ∅) "prompt" []
              (worldOf remarkStore)
              {| er_displaySummary := JStr "summary";
                 er_outputs := Some (replicate 20 {| eo_title := "t"; eo_prompt := "p" |}) |}
              (fun _ _ => eq_refl)) as [w' Hrun].
  destruct (expert_success_count _ _ _ _ _ _ _ _ _ Hrun)
    as (p & s & result & kept & added & newEdges & Hans & Hn & Hk & _ & Ha & _).
  injection Hans as <-. exists w', kept, added.
  split; [exact Hrun|]. split; [exact Hn|]. split; [exact Hk|exact Ha].
Defined.
